(** * Routing resolver of antsibull-docs-loader: a shallow embedding

    The development follows [src/antsibull_docs_loader/routing.py] (the data
    model, the metadata loader's [_parse_plugin_data], the redirect resolver
    [_complete_redirect] and its two drivers) and the environment preparation
    of [src/antsibull_docs_loader/ansible_cli.py].

    Python dictionaries keep their insertion order and the drivers iterate
    over them, so the catalog is an ordered association list with Python's
    [d[k] = v] (replace in place, append when new).  The resolver mutates the
    catalog through references to the inner plugin maps; a reference is
    modelled by the location of the map in the catalog, and every function
    that writes threads the catalog explicitly. *)

From Stdlib Require Import String Ascii List Bool Arith Lia.
From stdpp Require Import base option list gmap strings.

Local Open Scope string_scope.
Local Open Scope list_scope.

(** ** Ordered dictionaries *)

Section Dict.
Context {K V : Type} `{EqDecision K}.

Definition dict : Type := list (K * V).

Fixpoint dict_get (d : dict) (k : K) : option V :=
  match d with
  | [] => None
  | (k', v) :: r => if decide (k = k') then Some v else dict_get r k
  end.

(** [d[k] = v]: an existing key keeps its position. *)
Fixpoint dict_set (d : dict) (k : K) (v : V) : dict :=
  match d with
  | [] => [(k, v)]
  | (k', v') :: r =>
      if decide (k = k') then (k, v) :: r else (k', v') :: dict_set r k v
  end.

Definition dict_keys (d : dict) : list K := map fst d.

(** Truth value of a dictionary: non-empty. *)
Definition dict_truthy (d : dict) : bool :=
  match d with [] => false | _ => true end.
End Dict.

Arguments dict K V : clear implicits.

(** ** Data model *)

Inductive PluginType : Type :=
| become | cache | callback | cliconf | connection | filter_ | httpapi
| inventory | lookup_ | module | netconf | shell | strategy | test | vars
| action | doc_fragments | module_utils | plugin_utils
| eda_event_filter | eda_event_source.

#[global] Instance PluginType_eq_dec : EqDecision PluginType.
Proof. solve_decision. Defined.

(** [datetime.date | str]. *)
Inductive DateOrStr : Type :=
| ADate (year month day : nat)
| AStr (s : string).

Record RemovalData : Type := mkRemovalData {
  warning_text : option string;
  removal_version : option string;
  removal_date : option DateOrStr
}.

(** [str | types.EllipsisType | None]; the ellipsis marks an infinite loop. *)
Inductive Redirect : Type :=
| RNone
| REllipsis
| RStr (s : string).

Record PluginRouting : Type := mkPluginRouting {
  action_plugin : option string;
  redirect : Redirect;
  redirect_chain : option (list string);
  redirect_deprecations : option (list (string * RemovalData));
  redirect_tombstone : bool;
  redirect_dead_end : bool;
  redirect_error : option string;
  deprecation : option RemovalData;
  tombstone : option RemovalData
}.

Record CollectionRouting : Type := mkCollectionRouting {
  plugin_data : dict PluginType (dict string PluginRouting)
}.

Definition catalog : Type := dict string CollectionRouting.

#[global] Instance DateOrStr_eq_dec : EqDecision DateOrStr.
Proof. solve_decision. Defined.
#[global] Instance RemovalData_eq_dec : EqDecision RemovalData.
Proof. solve_decision. Defined.
#[global] Instance Redirect_eq_dec : EqDecision Redirect.
Proof. solve_decision. Defined.
#[global] Instance PluginRouting_eq_dec : EqDecision PluginRouting.
Proof. solve_decision. Defined.

(** ** Strings *)

(** The part before the first dot and the rest after it. *)
Fixpoint split_dot (s : string) : option (string * string) :=
  match s with
  | EmptyString => None
  | String c r =>
      if Ascii.eqb c "."%char then Some (EmptyString, r)
      else match split_dot r with
           | Some (a, b) => Some (String c a, b)
           | None => None
           end
  end.

(** [s.split(".", maxsplit)]. *)
Fixpoint str_split (maxsplit : nat) (s : string) : list string :=
  match maxsplit with
  | O => [s]
  | S m =>
      match split_dot s with
      | Some (a, r) => a :: str_split m r
      | None => [s]
      end
  end.

(** [f"{a}.{b}"]. *)
Definition dotted (a b : string) : string := a ++ "." ++ b.

(** ** The store: plugin maps inside the catalog *)

Definition plugin_map (rd : catalog) (coll : string) (ty : PluginType)
  : option (dict string PluginRouting) :=
  match dict_get rd coll with
  | Some cr => dict_get (plugin_data cr) ty
  | None => None
  end.

Definition lookup_plugin (rd : catalog) (coll : string) (ty : PluginType)
    (name : string) : option PluginRouting :=
  match plugin_map rd coll ty with
  | Some prd => dict_get prd name
  | None => None
  end.

(** [routing_data[coll].plugin_data[ty][name] = v], the map being reached
    through a reference taken earlier. *)
Definition store_plugin (rd : catalog) (coll : string) (ty : PluginType)
    (name : string) (v : PluginRouting) : catalog :=
  match dict_get rd coll with
  | Some cr =>
      match dict_get (plugin_data cr) ty with
      | Some prd =>
          dict_set rd coll
            (mkCollectionRouting
               (dict_set (plugin_data cr) ty (dict_set prd name v)))
      | None => rd
      end
  | None => rd
  end.

(** [if plugin_owner: plugin_owner[name] = v].  The owner is [None] or the
    plugin map of collection [c] for the type being resolved; an empty map
    is falsy. *)
Definition owner_store (rd : catalog) (ty : PluginType)
    (owner : option string) (name : string) (v : PluginRouting) : catalog :=
  match owner with
  | None => rd
  | Some c =>
      match plugin_map rd c ty with
      | Some prd => if dict_truthy prd then store_plugin rd c ty name v else rd
      | None => rd
      end
  end.

(** ** The resolver: [_complete_redirect] *)

Inductive exn : Type :=
| AssertionError   (* "Bad internal state: circular redirect ..." *)
| StopIteration    (* [next(...)] on an exhausted generator *)
| KeyError.        (* [d[k]] on a missing key *)

(** Outcome of a call that may write to the catalog: the value returned
    and the catalog afterwards, an exception with the catalog at that moment,
    or the model's loop bound exceeded (excluded by [while_true_spec]). *)
Inductive outcome (A : Type) : Type :=
| Returned (a : A) (rd : catalog)
| Raised (e : exn) (rd : catalog)
| OutOfFuel.
Arguments Returned {A} a rd.
Arguments Raised {A} e rd.
Arguments OutOfFuel {A}.

(** An entry of [redirection_list]:
    [(fqcn, collection name, plugin name, routing or None, owner or None)]. *)
Record elt : Type := mkElt {
  e_fqcn : string;
  e_coll : string;
  e_name : string;
  e_data : option PluginRouting;
  e_owner : option string
}.

(** The local variables of [_complete_redirect] that the loop changes. *)
Record locals : Type := mkLocals {
  found_names : gset string;
  redirection_list : list elt;
  next_name : string;
  l_chain : option (list string);
  l_deprecations : option (list (string * RemovalData));
  l_tombstone : bool;
  l_dead_end : bool;
  l_error : option string;
  is_loop : bool;
  l_plugin_data : PluginRouting;
  l_routing : catalog
}.

(** [tuple(...) or None]. *)
Definition or_None {A : Type} (l : list A) : option (list A) :=
  match l with [] => None | _ => Some l end.

(** [t or ()]. *)
Definition or_empty {A : Type} (o : option (list A)) : list A :=
  match o with Some l => l | None => [] end.

Definition enumerate {A : Type} (l : list A) : list (nat * A) :=
  imap (fun i x => (i, x)) l.

(** [next(index for index, elt in enumerate(l) if elt[0] == name)]. *)
Fixpoint index_of (name : string) (l : list elt) : option nat :=
  match l with
  | [] => None
  | e :: r =>
      if String.eqb (e_fqcn e) name then Some 0
      else option_map S (index_of name r)
  end.

Definition redirect_deprecations_w_index (loop : list elt)
  : list (nat * (string * RemovalData)) :=
  omap (fun '(index, e) =>
          match e_data e with
          | Some pd =>
              match deprecation pd with
              | Some d => Some (index, (e_fqcn e, d))
              | None => None
              end
          | None => None
          end)
       (enumerate loop).

Definition rotated_deprecations (w : list (nat * (string * RemovalData)))
    (index : nat) : option (list (string * RemovalData)) :=
  or_None
    (map snd (List.filter (fun '(idx, _) => (index <=? idx)%nat) w)
     ++ map snd (List.filter (fun '(idx, _) => (idx <? index)%nat) w)).

(** The record built for a member of the cycle. *)
Definition loop_record (pd : PluginRouting) (chain : list string)
    (w : list (nat * (string * RemovalData))) (index : nat)
    (error : option string) : PluginRouting :=
  {| action_plugin := action_plugin pd;
     redirect := REllipsis;
     redirect_chain := Some chain;
     redirect_deprecations := rotated_deprecations w index;
     redirect_tombstone := false;
     redirect_dead_end := false;
     redirect_error := error;
     deprecation := deprecation pd;
     tombstone := tombstone pd |}.

(** The [for index, (...) in enumerate(loop)] of the cycle branch: threads
    [redirect_chain], the catalog and [plugin_data]. *)
Fixpoint rewrite_loop (ty : PluginType) (fqcn : string)
    (w : list (nat * (string * RemovalData))) (error : option string)
    (index : nat) (loop : list elt)
    (chain : list string) (rd : catalog) (plugin_data : PluginRouting)
  : list string * catalog * PluginRouting :=
  match loop with
  | [] => (chain, rd, plugin_data)
  | e :: rest =>
      let chain := chain ++ [e_fqcn e] in
      let '(rd, plugin_data) :=
        match e_data e with
        | Some ppd =>
            let new_plugin_data := loop_record ppd chain w index error in
            (owner_store rd ty (e_owner e) (e_name e) new_plugin_data,
             if String.eqb (e_fqcn e) fqcn then new_plugin_data
             else plugin_data)
        | None => (rd, plugin_data)
        end in
      rewrite_loop ty fqcn w error (S index) rest (tail chain) rd plugin_data
  end.

Definition circular : string := "Detected circular redirect".
Definition non_fqcn (next_name : string) : string :=
  "Found redirect to non-FQCN " ++ next_name.
Definition unknown_collection (next_coll : string) : string :=
  "Found redirect to unknown collection " ++ next_coll.

Inductive ctl : Type :=
| Continue (s : locals)
| Break (s : locals)
| Raise (e : exn).

(** A [break] that keeps [next_name] and the results set so far except
    for the given ones. *)
Definition set_terminal (s : locals) (l : list elt)
    (deps : option (list (string * RemovalData)))
    (tomb dead : bool) (err : option string) : locals :=
  {| found_names := {[ next_name s ]} ∪ found_names s;
     redirection_list := l;
     next_name := next_name s;
     l_chain := l_chain s;
     l_deprecations := deps;
     l_tombstone := tomb;
     l_dead_end := dead;
     l_error := err;
     is_loop := is_loop s;
     l_plugin_data := l_plugin_data s;
     l_routing := l_routing s |}.

(** The cycle branch: rewrite the members of the cycle, keep the part of
    the list before it. *)
Definition close_cycle (ty : PluginType) (fqcn : string) (s : locals)
    (start_index : nat) : locals :=
  let loop := drop start_index (redirection_list s) in
  let w := redirect_deprecations_w_index loop in
  let '(chain, rd, pdata) :=
    rewrite_loop ty fqcn w (Some circular) 0 loop (map e_fqcn loop)
      (l_routing s) (l_plugin_data s) in
  {| found_names := found_names s;
     redirection_list := take start_index (redirection_list s);
     next_name := next_name s;
     l_chain := Some (chain ++ [next_name s]);
     l_deprecations := or_None (map snd w);
     l_tombstone := l_tombstone s;
     l_dead_end := l_dead_end s;
     l_error := Some circular;
     is_loop := true;
     l_plugin_data := pdata;
     l_routing := rd |}.

(** The target was resolved before to an error, a tombstone or a dead end:
    take over its resolution. *)
Definition reuse (s : locals) (p : PluginRouting) : locals :=
  {| found_names := {[ next_name s ]} ∪ found_names s;
     redirection_list := redirection_list s;
     next_name := next_name s;
     l_chain := redirect_chain p;
     l_deprecations := redirect_deprecations p;
     l_tombstone := redirect_tombstone p;
     l_dead_end := redirect_dead_end p;
     l_error := redirect_error p;
     is_loop := bool_decide (redirect p = REllipsis);
     l_plugin_data := l_plugin_data s;
     l_routing := l_routing s |}.

(** Append the target with its owner and go on with its redirect. *)
Definition advance (s : locals) (e : elt) (target : string) : locals :=
  {| found_names := {[ next_name s ]} ∪ found_names s;
     redirection_list := redirection_list s ++ [e];
     next_name := target;
     l_chain := l_chain s;
     l_deprecations := l_deprecations s;
     l_tombstone := l_tombstone s;
     l_dead_end := l_dead_end s;
     l_error := l_error s;
     is_loop := is_loop s;
     l_plugin_data := l_plugin_data s;
     l_routing := l_routing s |}.

(** One turn of the [while True] loop. *)
Definition loop_body (ty : PluginType) (fqcn : string) (s : locals) : ctl :=
  let next := next_name s in
  if bool_decide (next ∈ found_names s) then
    (* We found a cycle! *)
    match index_of next (redirection_list s) with
    | None => Raise StopIteration
    | Some start_index => Break (close_cycle ty fqcn s start_index)
    end
  else
    match str_split 2 next with
    | [next_ns; next_cn; next_pn] =>
        let next_coll := dotted next_ns next_cn in
        match dict_get (l_routing s) next_coll with
        | None =>
            Break (set_terminal s
                     (redirection_list s
                      ++ [mkElt next next_coll next_pn None None])
                     (l_deprecations s) (l_tombstone s) true
                     (Some (unknown_collection next_coll)))
        | Some cr =>
            let prd := dict_get (plugin_data cr) ty in
            let pd :=
              match prd with
              | Some m => if dict_truthy m then dict_get m next_pn else None
              | None => None
              end in
            match pd with
            | None =>
                Break (set_terminal s
                         (redirection_list s
                          ++ [mkElt next next_coll next_pn None None])
                         (l_deprecations s) (l_tombstone s) (l_dead_end s)
                         (l_error s))
            | Some p =>
                match tombstone p with
                | Some tomb =>
                    Break (set_terminal s (redirection_list s)
                             (Some [(next, tomb)]) true (l_dead_end s)
                             (l_error s))
                | None =>
                    match redirect p with
                    | RNone =>
                        Break (set_terminal s
                                 (redirection_list s
                                  ++ [mkElt next next_coll next_pn
                                        (Some p) None])
                                 (l_deprecations s) (l_tombstone s)
                                 (l_dead_end s) (l_error s))
                    | r =>
                        if bool_decide (redirect_error p <> None)
                           || redirect_tombstone p || redirect_dead_end p
                        then Break (reuse s p)
                        else
                          match r with
                          | RStr target =>
                              Continue
                                (advance s
                                   (mkElt next next_coll next_pn
                                      (Some p) (Some next_coll))
                                   target)
                          | _ => Raise AssertionError
                          end
                    end
                end
            end
        end
    | _ =>
        (* len(parts) < 3 *)
        Break (set_terminal s (redirection_list s) (l_deprecations s)
                 (l_tombstone s) true (Some (non_fqcn next)))
    end.

Fixpoint while_true (fuel : nat) (ty : PluginType) (fqcn : string)
    (s : locals) : outcome locals :=
  match fuel with
  | O => OutOfFuel
  | S fuel' =>
      match loop_body ty fqcn s with
      | Continue s' => while_true fuel' ty fqcn s'
      | Break s' => Returned s' (l_routing s')
      | Raise e => Raised e (l_routing s)
      end
  end.

(** The record built by the rewrite after the loop. *)
Definition prefix_record (pd : PluginRouting) (s : locals)
    (chain : list string) (deps : option (list (string * RemovalData)))
  : PluginRouting :=
  {| action_plugin := action_plugin pd;
     redirect := if is_loop s then REllipsis else RStr (next_name s);
     redirect_chain := Some chain;
     redirect_deprecations := deps;
     redirect_tombstone := l_tombstone s;
     redirect_dead_end := l_dead_end s;
     redirect_error := l_error s;
     deprecation := deprecation pd;
     tombstone := tombstone pd |}.

(** The [for ... in enumerate(reversed(redirection_list))] after the loop;
    [rl] is the reversed list. *)
Fixpoint rewrite_prefix (ty : PluginType) (fqcn : string) (s : locals)
    (rl : list elt) (chain : option (list string))
    (deps : option (list (string * RemovalData)))
    (rd : catalog) (plugin_data : PluginRouting)
  : catalog * PluginRouting :=
  match rl with
  | [] => (rd, plugin_data)
  | e :: rest =>
      let chain := e_fqcn e :: or_empty chain in
      match e_data e with
      | Some ppd =>
          let deps :=
            match deprecation ppd with
            | Some d => Some ((e_fqcn e, d) :: or_empty deps)
            | None => deps
            end in
          let new_plugin_data := prefix_record ppd s chain deps in
          rewrite_prefix ty fqcn s rest (Some chain) deps
            (owner_store rd ty (e_owner e) (e_name e) new_plugin_data)
            (if String.eqb (e_fqcn e) fqcn then new_plugin_data
             else plugin_data)
      | None =>
          rewrite_prefix ty fqcn s rest (Some chain) deps rd plugin_data
      end
  end.

(** The plugins of type [ty] in the catalog, as (collection, name). *)
Definition type_entries (rd : catalog) (ty : PluginType)
  : list (string * string) :=
  flat_map (fun '(c, cr) =>
              match dict_get (plugin_data cr) ty with
              | Some prd => map (fun '(n, _) => (c, n)) prd
              | None => []
              end) rd.

(** A bound on the turns of the loop: every turn but the last appends a
    plugin of the catalog not seen before. *)
Definition walk_fuel (rd : catalog) (ty : PluginType) : nat :=
  S (length (type_entries rd ty)).

Definition already_done (pd : PluginRouting) : bool :=
  match redirect pd with
  | RNone | REllipsis => true
  | RStr _ => bool_decide (redirect_chain pd <> None)
  end.

Definition initial_locals (rd : catalog) (collection_name plugin_name : string)
    (pd : PluginRouting) (target : string) : locals :=
  let fqcn := dotted collection_name plugin_name in
  {| found_names := {[ fqcn ]};
     redirection_list := [mkElt fqcn collection_name plugin_name (Some pd) None];
     next_name := target;
     l_chain := None;
     l_deprecations := None;
     l_tombstone := false;
     l_dead_end := false;
     l_error := None;
     is_loop := false;
     l_plugin_data := pd;
     l_routing := rd |}.

Definition _complete_redirect (rd : catalog) (collection_name : string)
    (ty : PluginType) (plugin_name : string) (pd : PluginRouting)
  : outcome PluginRouting :=
  if already_done pd then Returned pd rd   (* Already done! *)
  else
    match redirect pd with
    | RStr target =>
        let fqcn := dotted collection_name plugin_name in
        match while_true (walk_fuel rd ty) ty fqcn
                (initial_locals rd collection_name plugin_name pd target) with
        | Returned s _ =>
            let '(rd', pd') :=
              rewrite_prefix ty fqcn s (rev (redirection_list s))
                (l_chain s) (l_deprecations s) (l_routing s)
                (l_plugin_data s) in
            Returned pd' rd'
        | Raised e rd' => Raised e rd'
        | OutOfFuel => OutOfFuel
        end
    | _ => Returned pd rd
    end.

(** ** The drivers *)

(** A [for] loop whose body may write to the catalog or raise. *)
Fixpoint for_each {A : Type} (body : A -> catalog -> outcome unit)
    (l : list A) (rd : catalog) : outcome unit :=
  match l with
  | [] => Returned tt rd
  | x :: r =>
      match body x rd with
      | Returned _ rd' => for_each body r rd'
      | Raised e rd' => Raised e rd'
      | OutOfFuel => OutOfFuel
      end
  end.

(** [plugin_routing_data[plugin_name] = _complete_redirect(...)]. *)
Definition complete_plugin (collection_name : string) (ty : PluginType)
    (plugin_name : string) (rd : catalog) : outcome unit :=
  match lookup_plugin rd collection_name ty plugin_name with
  | None => Raised KeyError rd
  | Some pd =>
      match _complete_redirect rd collection_name ty plugin_name pd with
      | Returned pd' rd' =>
          Returned tt (store_plugin rd' collection_name ty plugin_name pd')
      | Raised e rd' => Raised e rd'
      | OutOfFuel => OutOfFuel
      end
  end.

(** The inner loop runs over [list(plugin_routing_data)], the names at the
    moment the plugin type is reached. *)
Definition complete_type (collection_name : string) (ty : PluginType)
    (rd : catalog) : outcome unit :=
  match plugin_map rd collection_name ty with
  | None => Raised KeyError rd
  | Some prd =>
      for_each (complete_plugin collection_name ty) (dict_keys prd) rd
  end.

Definition complete_redirects_for_collection (rd : catalog)
    (collection_name : string) : outcome unit :=
  match dict_get rd collection_name with
  | None => Returned tt rd
  | Some cr =>
      for_each (complete_type collection_name)
        (dict_keys (plugin_data cr)) rd
  end.

Definition complete_redirects (rd : catalog) : outcome unit :=
  for_each (fun collection_name rd =>
              complete_redirects_for_collection rd collection_name)
    (dict_keys rd) rd.

(** ** The metadata loader: [_parse_plugin_data] *)

(** A parsed YAML value, as far as the loader tells values apart. *)
#[local] Unset Elimination Schemes.
Inductive yaml : Type :=
| YNull
| YBool (b : bool)
| YInt (n : Z)
| YStr (s : string)
| YDate (year month day : nat)
| YDateTime (year month day : nat) (seconds : nat)
| YSeq (items : list yaml)
| YMap (items : list (string * yaml)).
#[local] Set Elimination Schemes.

Inductive parsed (A : Type) : Type :=
| Parsed (a : A)
| ValueError.
Arguments Parsed {A} a.
Arguments ValueError {A}.

(** Python's truth value of a parsed document. *)
Definition yaml_truthy (y : yaml) : bool :=
  match y with
  | YNull => false
  | YBool b => b
  | YInt n => negb (Z.eqb n 0)
  | YStr s => negb (String.eqb s "")
  | YDate _ _ _ | YDateTime _ _ _ _ => true
  | YSeq l => match l with [] => false | _ => true end
  | YMap l => match l with [] => false | _ => true end
  end.

(** [removal_data.get(key)], checked to be a string or absent. *)
Definition get_opt_str (m : dict string yaml) (key : string)
  : parsed (option string) :=
  match dict_get m key with
  | None | Some YNull => Parsed None
  | Some (YStr s) => Parsed (Some s)
  | Some _ => ValueError
  end.

Definition _load_removal_data (plugin_data : dict string yaml) (typ : string)
  : parsed (option RemovalData) :=
  match dict_get plugin_data typ with
  | None => Parsed None
  | Some (YMap removal_data) =>
      match get_opt_str removal_data "warning_text" with
      | ValueError => ValueError
      | Parsed warning_text =>
          match get_opt_str removal_data "removal_version" with
          | ValueError => ValueError
          | Parsed removal_version =>
              match dict_get removal_data "removal_date" with
              | None | Some YNull =>
                  Parsed (Some (mkRemovalData warning_text removal_version
                                  None))
              | Some (YDateTime y m d _) | Some (YDate y m d) =>
                  Parsed (Some (mkRemovalData warning_text removal_version
                                  (Some (ADate y m d))))
              | Some (YStr s) =>
                  Parsed (Some (mkRemovalData warning_text removal_version
                                  (Some (AStr s))))
              | Some _ => ValueError
              end
          end
      end
  | Some _ => ValueError
  end.

Definition blank_routing : PluginRouting :=
  {| action_plugin := None; redirect := RNone; redirect_chain := None;
     redirect_deprecations := None; redirect_tombstone := false;
     redirect_dead_end := false; redirect_error := None;
     deprecation := None; tombstone := None |}.

Definition _parse_plugin_data (plugin_data : yaml) (own_name : string)
    (real_plugin_type : PluginType) (plugin_name : string)
  : parsed PluginRouting :=
  if negb (yaml_truthy plugin_data) then Parsed blank_routing
  else
    match plugin_data with
    | YMap m =>
        match _load_removal_data m "deprecation" with
        | ValueError => ValueError
        | Parsed deprecation =>
            match _load_removal_data m "tombstone" with
            | ValueError => ValueError
            | Parsed tombstone =>
                let plugin_fqcn := dotted own_name plugin_name in
                let action :=
                  if bool_decide (real_plugin_type = module) then
                    match dict_get m "action_plugin" with
                    | None => Parsed None
                    | Some (YStr s) => Parsed (Some s)
                    | Some _ => ValueError
                    end
                  else Parsed None in
                match action with
                | ValueError => ValueError
                | Parsed action_plugin =>
                    match dict_get m "redirect" with
                    | None =>
                        Parsed (mkPluginRouting action_plugin RNone None None
                                  false false None deprecation tombstone)
                    | Some (YStr redirect) =>
                        if String.eqb redirect plugin_fqcn then
                          (* This is an obvious infinite loop *)
                          Parsed
                            (mkPluginRouting action_plugin REllipsis
                               (Some [plugin_fqcn; plugin_fqcn])
                               (match deprecation with
                                | Some d => Some [(plugin_fqcn, d)]
                                | None => None
                                end)
                               false false (Some circular)
                               deprecation tombstone)
                        else
                          Parsed
                            (mkPluginRouting action_plugin (RStr redirect)
                               None None false false None
                               deprecation tombstone)
                    | Some _ => ValueError
                    end
                end
            end
        end
    | _ => ValueError
    end.

(** ** The child environment: [_prepare_env] *)

Definition plugin_path_updates : list (string * string) :=
  [ ("ANSIBLE_ACTION_PLUGINS", "/dev/null");
    ("ANSIBLE_CACHE_PLUGINS", "/dev/null");
    ("ANSIBLE_CALLBACK_PLUGINS", "/dev/null");
    ("ANSIBLE_CLICONF_PLUGINS", "/dev/null");
    ("ANSIBLE_CONNECTION_PLUGINS", "/dev/null");
    ("ANSIBLE_FILTER_PLUGINS", "/dev/null");
    ("ANSIBLE_HTTPAPI_PLUGINS", "/dev/null");
    ("ANSIBLE_INVENTORY_PLUGINS", "/dev/null");
    ("ANSIBLE_LOOKUP_PLUGINS", "/dev/null");
    ("ANSIBLE_LIBRARY", "/dev/null");
    ("ANSIBLE_MODULE_UTILS", "/dev/null");
    ("ANSIBLE_NETCONF_PLUGINS", "/dev/null");
    ("ANSIBLE_ROLES_PATH", "/dev/null");
    ("ANSIBLE_STRATEGY_PLUGINS", "/dev/null");
    ("ANSIBLE_TERMINAL_PLUGINS", "/dev/null");
    ("ANSIBLE_TEST_PLUGINS", "/dev/null");
    ("ANSIBLE_VARS_PLUGINS", "/dev/null");
    ("ANSIBLE_DOC_FRAGMENT_PLUGINS", "/dev/null") ].

Definition _COLLECTIONS_PATH_ENV_VAR : string := "ANSIBLE_COLLECTIONS_PATH".
Definition _COLLECTIONS_PATH_ENV_VAR_COMPAT : string :=
  "ANSIBLE_COLLECTIONS_PATHS".

(** [environ] stands for [os.environ]; [collections_path] is [str | None],
    and an empty string is falsy. *)
Definition _prepare_env (environ : gmap string string)
    (collections_path : option string)
    (only_pass_env_updates compat : bool) : option (gmap string string) :=
  let env : gmap string string :=
    if only_pass_env_updates then ∅ else environ in
  let env : gmap string string := list_to_map plugin_path_updates ∪ env in
  let env : gmap string string :=
    match collections_path with
    | Some p =>
        if negb (String.eqb p "") then
          let env := <[ "ANSIBLE_COLLECTIONS_PATH" := p ]> env in
          if compat then <[ "_COLLECTIONS_PATH_ENV_VAR_COMPAT" := p ]> env
          else env
        else env
    | None => env
    end in
  if negb (bool_decide (env = ∅)) || negb only_pass_env_updates
  then Some env else None.

(** * Notions used in the statements *)

(** ** The keys of the catalog *)

(** The plugin types of a collection with the plugin names of each, in
    order. *)
Definition type_shape (cr : CollectionRouting)
  : list (PluginType * list string) :=
  map (fun tm => (fst tm, dict_keys (snd tm))) (plugin_data cr).

(** The collections of a catalog with their types and names, in order. *)
Definition shape (rd : catalog)
  : list (string * list (PluginType * list string)) :=
  map (fun kv => (fst kv, type_shape (snd kv))) rd.

(** ** The loop of [_complete_redirect] *)

(** The branches of one turn of the loop, each with the condition under
    which the code takes it. *)
Inductive step_view (ty : PluginType) (fqcn : string) (s : locals)
  : ctl -> Prop :=
| sv_cycle start_index :
    next_name s ∈ found_names s ->
    index_of (next_name s) (redirection_list s) = Some start_index ->
    step_view ty fqcn s (Break (close_cycle ty fqcn s start_index))
| sv_stop :
    next_name s ∈ found_names s ->
    index_of (next_name s) (redirection_list s) = None ->
    step_view ty fqcn s (Raise StopIteration)
| sv_non_fqcn :
    next_name s ∉ found_names s ->
    (forall ns cn pn, str_split 2 (next_name s) <> [ns; cn; pn]) ->
    step_view ty fqcn s
      (Break (set_terminal s (redirection_list s) (l_deprecations s)
                (l_tombstone s) true (Some (non_fqcn (next_name s)))))
| sv_unknown ns cn pn :
    next_name s ∉ found_names s ->
    str_split 2 (next_name s) = [ns; cn; pn] ->
    dict_get (l_routing s) (dotted ns cn) = None ->
    step_view ty fqcn s
      (Break (set_terminal s
                (redirection_list s
                 ++ [mkElt (next_name s) (dotted ns cn) pn None None])
                (l_deprecations s) (l_tombstone s) true
                (Some (unknown_collection (dotted ns cn)))))
| sv_absent ns cn pn :
    next_name s ∉ found_names s ->
    str_split 2 (next_name s) = [ns; cn; pn] ->
    is_Some (dict_get (l_routing s) (dotted ns cn)) ->
    lookup_plugin (l_routing s) (dotted ns cn) ty pn = None ->
    step_view ty fqcn s
      (Break (set_terminal s
                (redirection_list s
                 ++ [mkElt (next_name s) (dotted ns cn) pn None None])
                (l_deprecations s) (l_tombstone s) (l_dead_end s)
                (l_error s)))
| sv_tombstone ns cn pn p tomb :
    next_name s ∉ found_names s ->
    str_split 2 (next_name s) = [ns; cn; pn] ->
    lookup_plugin (l_routing s) (dotted ns cn) ty pn = Some p ->
    tombstone p = Some tomb ->
    step_view ty fqcn s
      (Break (set_terminal s (redirection_list s)
                (Some [(next_name s, tomb)]) true (l_dead_end s)
                (l_error s)))
| sv_terminal ns cn pn p :
    next_name s ∉ found_names s ->
    str_split 2 (next_name s) = [ns; cn; pn] ->
    lookup_plugin (l_routing s) (dotted ns cn) ty pn = Some p ->
    tombstone p = None ->
    redirect p = RNone ->
    step_view ty fqcn s
      (Break (set_terminal s
                (redirection_list s
                 ++ [mkElt (next_name s) (dotted ns cn) pn (Some p) None])
                (l_deprecations s) (l_tombstone s) (l_dead_end s)
                (l_error s)))
| sv_reuse ns cn pn p :
    next_name s ∉ found_names s ->
    str_split 2 (next_name s) = [ns; cn; pn] ->
    lookup_plugin (l_routing s) (dotted ns cn) ty pn = Some p ->
    tombstone p = None ->
    redirect p <> RNone ->
    bool_decide (redirect_error p <> None)
      || redirect_tombstone p || redirect_dead_end p = true ->
    step_view ty fqcn s (Break (reuse s p))
| sv_assert ns cn pn p :
    next_name s ∉ found_names s ->
    str_split 2 (next_name s) = [ns; cn; pn] ->
    lookup_plugin (l_routing s) (dotted ns cn) ty pn = Some p ->
    tombstone p = None ->
    redirect p = REllipsis ->
    bool_decide (redirect_error p <> None)
      || redirect_tombstone p || redirect_dead_end p = false ->
    step_view ty fqcn s (Raise AssertionError)
| sv_continue ns cn pn p target :
    next_name s ∉ found_names s ->
    str_split 2 (next_name s) = [ns; cn; pn] ->
    lookup_plugin (l_routing s) (dotted ns cn) ty pn = Some p ->
    tombstone p = None ->
    redirect p = RStr target ->
    bool_decide (redirect_error p <> None)
      || redirect_tombstone p || redirect_dead_end p = false ->
    step_view ty fqcn s
      (Continue (advance s
                   (mkElt (next_name s) (dotted ns cn) pn (Some p)
                      (Some (dotted ns cn)))
                   target)).

(** An element appended on the way: the plugin stored in the catalog under
    (collection, name), together with a reference to the map holding it. *)
Definition linked (rd : catalog) (ty : PluginType) (e : elt) : Prop :=
  e_fqcn e = dotted (e_coll e) (e_name e) /\
  e_owner e = Some (e_coll e) /\
  is_Some (e_data e) /\
  e_data e = lookup_plugin rd (e_coll e) ty (e_name e).

(** The state at the head of the loop while resolving plugin [n] of
    collection [c] whose record is [pd]. *)
Record walking (rd : catalog) (ty : PluginType) (c n : string)
    (pd : PluginRouting) (s : locals) : Prop := {
  wk_routing : l_routing s = rd;
  wk_list : exists rest,
      redirection_list s = mkElt (dotted c n) c n (Some pd) None :: rest
      /\ Forall (linked rd ty) rest;
  wk_found : forall x,
      x ∈ found_names s <-> x ∈ map e_fqcn (redirection_list s);
  wk_nodup : NoDup (map e_fqcn (redirection_list s));
  wk_chain : l_chain s = None;
  wk_deps : l_deprecations s = None;
  wk_tomb : l_tombstone s = false;
  wk_dead : l_dead_end s = false;
  wk_err : l_error s = None;
  wk_loop : is_loop s = false;
  wk_pd : l_plugin_data s = pd
}.

(** The writes [plugin_owner[name] = record] of a loop, in order. *)
Fixpoint apply_writes (ty : PluginType) (ws : list (elt * PluginRouting))
    (rd : catalog) : catalog :=
  match ws with
  | [] => rd
  | (e, r) :: ws' =>
      apply_writes ty ws' (owner_store rd ty (e_owner e) (e_name e) r)
  end.

(** [if plugin_fqcn == fqcn: plugin_data = new_plugin_data], in order. *)
Fixpoint pick (fqcn : string) (ws : list (elt * PluginRouting))
    (plugin_data : PluginRouting) : PluginRouting :=
  match ws with
  | [] => plugin_data
  | (e, r) :: ws' =>
      pick fqcn ws' (if String.eqb (e_fqcn e) fqcn then r else plugin_data)
  end.

Fixpoint loop_assignments (w : list (nat * (string * RemovalData)))
    (error : option string) (index : nat) (loop : list elt)
    (chain : list string) : list (elt * PluginRouting) :=
  match loop with
  | [] => []
  | e :: rest =>
      let chain := chain ++ [e_fqcn e] in
      match e_data e with
      | Some ppd =>
          (e, loop_record ppd chain w index error)
          :: loop_assignments w error (S index) rest (tail chain)
      | None => loop_assignments w error (S index) rest (tail chain)
      end
  end.

Fixpoint loop_chain (loop : list elt) (chain : list string) : list string :=
  match loop with
  | [] => chain
  | e :: rest => loop_chain rest (tail (chain ++ [e_fqcn e]))
  end.

Fixpoint prefix_assignments (s : locals) (rl : list elt)
    (chain : option (list string))
    (deps : option (list (string * RemovalData)))
  : list (elt * PluginRouting) :=
  match rl with
  | [] => []
  | e :: rest =>
      let chain := e_fqcn e :: or_empty chain in
      match e_data e with
      | Some ppd =>
          let deps :=
            match deprecation ppd with
            | Some d => Some ((e_fqcn e, d) :: or_empty deps)
            | None => deps
            end in
          (e, prefix_record ppd s chain deps)
          :: prefix_assignments s rest (Some chain) deps
      | None => prefix_assignments s rest (Some chain) deps
      end
  end.

(** An ellipsis is accompanied by an error or a flag, so that the loop
    never meets the assertion. *)
Definition marked (p : PluginRouting) : Prop :=
  redirect p = REllipsis ->
  bool_decide (redirect_error p <> None)
    || redirect_tombstone p || redirect_dead_end p = true.

(** No error and no flag: the chain ended at a plugin that is there or
    should be. *)
Definition clean (p : PluginRouting) : Prop :=
  redirect_error p = None /\ redirect_tombstone p = false
  /\ redirect_dead_end p = false.

(** A clean record redirects to the last element of its chain. *)
Definition ends_clean (p : PluginRouting) : Prop :=
  clean p ->
  exists t ch, redirect p = RStr t /\ redirect_chain p = Some ch
               /\ last ch = Some t.

(** [p] is a resolved record for the plugin named [fqcn]. *)
Definition resolved_as (fqcn : string) (p : PluginRouting) : Prop :=
  redirect p <> RNone /\
  (exists rest, redirect_chain p = Some (fqcn :: rest)) /\
  marked p /\ ends_clean p.

(** The data of the plugin itself. *)
Definition same_own (p p' : PluginRouting) : Prop :=
  action_plugin p' = action_plugin p /\
  deprecation p' = deprecation p /\
  tombstone p' = tombstone p.

(** [p'] is a record that the resolver writes for the plugin [n] of
    collection [c] whose record was [p]. *)
Definition rewritten (c n : string) (p p' : PluginRouting) : Prop :=
  resolved_as (dotted c n) p' /\ same_own p p'.

(** [rd'] comes from [rd] by rewriting records in place. *)
Definition updates (rd rd' : catalog) : Prop :=
  shape rd' = shape rd /\
  forall c ty n p, lookup_plugin rd c ty n = Some p ->
    exists p', lookup_plugin rd' c ty n = Some p' /\
               (p' = p \/ rewritten c n p p').

(** An assignment is sound for [rd0] when its element either has no owner
    or names a plugin of [rd0] and the record is a rewriting of that
    plugin's record. *)
Definition sound_write (rd0 : catalog) (ty : PluginType)
    (w : elt * PluginRouting) : Prop :=
  forall c, e_owner w.1 = Some c ->
    exists p, lookup_plugin rd0 c ty (e_name w.1) = Some p
              /\ rewritten c (e_name w.1) p w.2.

(** [r] is a record built for the element [e]: resolved, its chain starts
    with the element's name, and the element's own data are kept. *)
Definition built_for (e : elt) (r : PluginRouting) : Prop :=
  exists ppd, e_data e = Some ppd /\ resolved_as (e_fqcn e) r /\ same_own ppd r.

(** The results of the loop mark an ellipsis with an error or a flag. *)
Definition marked_locals (s : locals) : Prop :=
  is_loop s = true ->
  bool_decide (l_error s <> None) || l_tombstone s || l_dead_end s = true.

(** When the results are clean, no cycle was met and the chain under
    construction ends with [next_name]. *)
Definition tail_ok (s : locals) (rl : list elt)
    (chain : option (list string)) : Prop :=
  l_error s = None -> l_tombstone s = false -> l_dead_end s = false ->
  is_loop s = false
  /\ last (map e_fqcn (rev rl) ++ or_empty chain) = Some (next_name s).

Definition elt_ok (rd : catalog) (ty : PluginType) (e : elt) : Prop :=
  e_owner e = None \/ linked rd ty e.

(** What the rewrite after the loop relies on. *)
Record left_loop (rd : catalog) (ty : PluginType) (c n : string)
    (pd : PluginRouting) (l : list elt) : Prop := {
  ll_ok : Forall (elt_ok rd ty) l;
  ll_nodup : NoDup (map e_fqcn l);
  ll_start : mkElt (dotted c n) c n (Some pd) None ∈ l;
}.

(** The catalog holds a record with an ellipsis that no error or flag
    accompanies: the only way to the assertion. *)
Definition unmarked_in (rd : catalog) (ty : PluginType) : Prop :=
  exists c n p, lookup_plugin rd c ty n = Some p /\ ~ marked p.

Definition complete_redirect_post (rd : catalog) (c : string)
    (ty : PluginType) (n : string) (pd : PluginRouting)
    (o : outcome PluginRouting) : Prop :=
  match o with
  | Returned pd' rd' =>
      updates rd rd' /\
      ((already_done pd = true /\ pd' = pd /\ rd' = rd)
       \/ (already_done pd = false /\ rewritten c n pd pd'))
  | Raised e rd' => e = AssertionError /\ rd' = rd /\ unmarked_in rd ty
  | OutOfFuel => False
  end.

(** What a driver leaves: the catalog rewritten in place, with [Q] on
    return; an exception is the assertion, raised on a catalog that holds
    an unmarked ellipsis. *)
Definition driver_post (rd : catalog) (Q : catalog -> Prop)
    (o : outcome unit) : Prop :=
  match o with
  | Returned _ rd' => updates rd rd' /\ Q rd'
  | Raised e rd' =>
      e = AssertionError /\ updates rd rd' /\ exists ty, unmarked_in rd' ty
  | OutOfFuel => False
  end.

(** The plugin [n] of type [ty] in collection [c] needs no more work. *)
Definition done_at (c : string) (ty : PluginType) (n : string)
    (rd : catalog) : Prop :=
  exists p, lookup_plugin rd c ty n = Some p /\ already_done p = true.

(** All plugins of type [ty] in collection [c] are done. *)
Definition type_done (c : string) (ty : PluginType) (rd : catalog) : Prop :=
  forall n p, lookup_plugin rd c ty n = Some p -> already_done p = true.

Definition collection_done (c : string) (rd : catalog) : Prop :=
  forall ty, type_done c ty rd.

Definition all_done (rd : catalog) : Prop :=
  forall c ty n p, lookup_plugin rd c ty n = Some p -> already_done p = true.

Definition all_marked (rd : catalog) : Prop :=
  forall c ty n p, lookup_plugin rd c ty n = Some p -> marked p.

(** ** The path of a walk *)

(** One turn that goes on: the plugin named [name] is in the catalog, is
    not tombstoned, has no outcome recorded and redirects to [target]. *)
Definition hop (rd : catalog) (ty : PluginType) (name : string)
  : option (elt * string) :=
  match str_split 2 name with
  | [ns; cn; pn] =>
      match lookup_plugin rd (dotted ns cn) ty pn with
      | Some p =>
          match tombstone p, redirect p with
          | None, RStr target =>
              if bool_decide (redirect_error p <> None)
                 || redirect_tombstone p || redirect_dead_end p
              then None
              else Some (mkElt name (dotted ns cn) pn (Some p)
                           (Some (dotted ns cn)), target)
          | _, _ => None
          end
      | None => None
      end
  | _ => None
  end.

(** [k] such turns from [name]: the elements appended and the name the
    loop is at afterwards. *)
Fixpoint trail (rd : catalog) (ty : PluginType) (k : nat) (name : string)
  : option (list elt * string) :=
  match k with
  | O => Some ([], name)
  | S k' =>
      match hop rd ty name with
      | Some (e, target) =>
          match trail rd ty k' target with
          | Some (es, t) => Some (e :: es, t)
          | None => None
          end
      | None => None
      end
  end.

(** The deprecation of the plugin of an element, under its name. *)
Definition own_deprecation (e : elt) : option (string * RemovalData) :=
  match e_data e with
  | Some p =>
      match deprecation p with
      | Some d => Some (e_fqcn e, d)
      | None => None
      end
  | None => None
  end.

(** The deprecations of the plugins of a path, in the order of the path. *)
Definition own_deprecations (l : list elt) : list (string * RemovalData) :=
  omap own_deprecation l.

(** What the rewrite has accumulated after the elements [l], starting
    from [d]. *)
Definition prefix_deps (l : list elt)
    (d : option (list (string * RemovalData)))
  : option (list (string * RemovalData)) :=
  match own_deprecations l with
  | [] => d
  | ds => Some (ds ++ or_empty d)
  end.

(** The element the list starts with. *)
Definition start_elt (c n : string) (pd : PluginRouting) : elt :=
  mkElt (dotted c n) c n (Some pd) None.

(** The records of the nodes on a path: [pd'] for the start, returned to
    the caller, and the record stored for each later element. *)
Definition on_path (ty : PluginType) (rd' : catalog) (pd' : PluginRouting)
    (es : list elt) (P : nat -> PluginRouting -> Prop) : Prop :=
  P 0 pd' /\
  forall i e, es !! i = Some e ->
    exists p', lookup_plugin rd' (e_coll e) ty (e_name e) = Some p'
               /\ P (S i) p'.

(** The catalog a call leaves has the key structure it was given. *)
Definition keeps_shape {A : Type} (rd : catalog) (o : outcome A) : Prop :=
  match o with
  | Returned _ rd' | Raised _ rd' => shape rd' = shape rd
  | OutOfFuel => False
  end.

(** ** Order of the keys *)

(** All plugins with their location. *)
Definition entries (rd : catalog)
  : list (string * PluginType * string * PluginRouting) :=
  flat_map (fun '(c, cr) =>
    flat_map (fun '(ty, m) => map (fun '(n, p) => (c, ty, n, p)) m)
             (plugin_data cr)) rd.

(** The loop stops at [name], and what it finds there stays as it is:
    nothing, a tombstoned plugin, or a plugin that is done. *)
Definition settled (rd : catalog) (ty : PluginType) (name : string) : bool :=
  match hop rd ty name with
  | Some _ => false
  | None =>
      match str_split 2 name with
      | [ns; cn; pn] =>
          match lookup_plugin rd (dotted ns cn) ty pn with
          | Some t =>
              match tombstone t with
              | Some _ => true
              | None => already_done t
              end
          | None => true
          end
      | _ => true
      end
  end.

(** No redirect that is still to resolve leads to a plugin that redirects
    on. *)
Definition single_hop (rd : catalog) : bool :=
  forallb (fun '(c, ty, n, p) =>
             match redirect p with
             | RStr r => already_done p || settled rd ty r
             | _ => true
             end) (entries rd).

(** The same bundles and the same records under the same names: catalogs
    that differ at most in the order of their keys. *)
Definition same_catalog (rd1 rd2 : catalog) : Prop :=
  (forall c, is_Some (dict_get rd1 c) <-> is_Some (dict_get rd2 c)) /\
  forall c ty n, lookup_plugin rd1 c ty n = lookup_plugin rd2 c ty n.

(** [b] has the bundles of [a] and, under each name, the record of [a] or,
    where that one was not done, a record with the same tombstone. *)
Definition similar (a b : catalog) : Prop :=
  (forall c, is_Some (dict_get a c) <-> is_Some (dict_get b c)) /\
  forall c ty n,
    match lookup_plugin a c ty n, lookup_plugin b c ty n with
    | Some p0, Some p =>
        p = p0 \/ (already_done p0 = false /\ tombstone p = tombstone p0)
    | None, None => True
    | _, _ => False
    end.

(** [single_hop] as a proposition on lookups. *)
Definition flat (rd : catalog) : Prop :=
  forall c ty n p r, lookup_plugin rd c ty n = Some p ->
    redirect p = RStr r -> already_done p = false -> settled rd ty r = true.

(** What the drivers keep of [rd0]: under each name the record of [rd0]
    or, for a plugin that was not done, its resolution in [rd0]. *)
Definition flat_inv (rd0 rd : catalog) : Prop :=
  shape rd = shape rd0 /\
  forall c ty n p0, lookup_plugin rd0 c ty n = Some p0 ->
    lookup_plugin rd c ty n = Some p0 \/
    (already_done p0 = false /\
     exists pd', _complete_redirect rd0 c ty n p0 = Returned pd' rd0
                 /\ lookup_plugin rd c ty n = Some pd').

(** * Example catalogs *)

Definition removal (warning : string) : RemovalData :=
  mkRemovalData (Some warning) None None.

(** A record as the loader yields it for a plugin with a redirect. *)
Definition redirecting (target : string) (dep : option RemovalData)
  : PluginRouting :=
  {| action_plugin := None; redirect := RStr target; redirect_chain := None;
     redirect_deprecations := None; redirect_tombstone := false;
     redirect_dead_end := false; redirect_error := None;
     deprecation := dep; tombstone := None |}.

(** A record as the loader yields it for a plugin with a tombstone. *)
Definition tombstoned (warning : string) : PluginRouting :=
  {| action_plugin := None; redirect := RNone;
     redirect_chain := None; redirect_deprecations := None;
     redirect_tombstone := false; redirect_dead_end := false;
     redirect_error := None; deprecation := None;
     tombstone := Some (removal warning) |}.

(** The catalog of the unit tests ([routing_info] in
    [tests/units/test_routing.py]). *)
Definition routing_info : catalog :=
  [ ("foo.bar", mkCollectionRouting
      [ (module,
          [ ("baz", blank_routing);
            ("self_loop", redirecting "foo.bar.self_loop" None);
            ("pre_loop_1", redirecting "foo.bar.pre_loop_2" None);
            ("pre_loop_2",
             redirecting "foo.bar.loop_1" (Some (removal "pre 2")));
            ("loop_1",
             redirecting "bar.baz.loop_2" (Some (removal "loop 1")));
            ("loop_2", redirecting "foo.bar.loop_3" None);
            ("loop_3",
             redirecting "foo.bar.loop_1" (Some (removal "loop 3")));
            ("chain_1",
             redirecting "foo.bar.chain_2" (Some (removal "foo 1")));
            ("chain_2", redirecting "foo.bar.chain_3" None);
            ("chain_3",
             redirecting "foo.bar.chain_4" (Some (removal "foo 3")));
            ("chain_4", blank_routing);
            ("leave_chain_1", redirecting "foo.bar.leave_chain_2" None);
            ("leave_chain_2", redirecting "foo.bar.leave_chain_3" None);
            ("leave_chain_3", redirecting "outside.here.meh" None) ]);
        (lookup_,
          [ ("loop_1", redirecting "foo.bar.loop_2" None);
            ("loop_2", redirecting "foo.bar.loop_3" None);
            ("loop_3",
             {| action_plugin := None; redirect := REllipsis;
                redirect_chain := Some ["foo.bar.loop_3"; "foo.bar.loop_3"];
                redirect_deprecations := None; redirect_tombstone := false;
                redirect_dead_end := false;
                redirect_error := Some "Detected circular redirect";
                deprecation := None; tombstone := None |});
            ("dead_chain_1", redirecting "foo.bar.dead_chain_2" None);
            ("dead_chain_2", redirecting "foo.bar.dead_chain_3" None);
            ("dead_chain_3",
             tombstoned "this is dead");
            ("broken_chain_1", redirecting "foo.bar.broken_chain_2" None);
            ("broken_chain_2", redirecting "this-is-not-a-fqcn" None) ]) ]);
    ("bar.baz", mkCollectionRouting
      [ (module,
          [ ("loop_2", redirecting "foo.bar.loop_3" None);
            ("chain_2", redirecting "foo.bar.chain_3" None) ]) ]) ].

(** The catalog a driver leaves. *)
Definition catalog_after (o : outcome unit) : catalog :=
  match o with
  | Returned _ rd | Raised _ rd => rd
  | OutOfFuel => []
  end.

Definition resolved_routing_info : catalog :=
  Eval vm_compute in catalog_after (complete_redirects routing_info).

(** The two-hop chain of the tests that ends at a non-FQCN, with the two
    plugins in either order. *)
Definition broken_first_1 : catalog :=
  [ ("foo.bar", mkCollectionRouting
      [ (lookup_,
          [ ("broken_chain_1", redirecting "foo.bar.broken_chain_2" None);
            ("broken_chain_2", redirecting "this-is-not-a-fqcn" None) ]) ]) ].

Definition broken_first_2 : catalog :=
  [ ("foo.bar", mkCollectionRouting
      [ (lookup_,
          [ ("broken_chain_2", redirecting "this-is-not-a-fqcn" None);
            ("broken_chain_1", redirecting "foo.bar.broken_chain_2" None) ]) ]) ].

(** One redirect to a plugin that does not redirect, in either order. *)
Definition renamed_first : catalog :=
  [ ("foo.bar", mkCollectionRouting
      [ (module,
          [ ("old", redirecting "foo.bar.baz" (Some (removal "renamed")));
            ("baz", blank_routing) ]) ]) ].

Definition renamed_last : catalog :=
  [ ("foo.bar", mkCollectionRouting
      [ (module,
          [ ("baz", blank_routing);
            ("old", redirecting "foo.bar.baz" (Some (removal "renamed"))) ]) ]) ].

Definition resolved_renamed_first : catalog :=
  Eval vm_compute in catalog_after (complete_redirects renamed_first).

Definition resolved_renamed_last : catalog :=
  Eval vm_compute in catalog_after (complete_redirects renamed_last).

(** The tombstone chain of the tests, its first plugin deprecated. *)
Definition dead_chain : catalog :=
  [ ("foo.bar", mkCollectionRouting
      [ (lookup_,
          [ ("dead_chain_1",
             redirecting "foo.bar.dead_chain_2" (Some (removal "old 1")));
            ("dead_chain_2", redirecting "foo.bar.dead_chain_3" None);
            ("dead_chain_3",
             tombstoned "this is dead") ]) ]) ].

(** The element the loop appends for a plugin it goes through. *)
Definition passed (c n : string) (p : PluginRouting) : elt :=
  mkElt (dotted c n) c n (Some p) (Some c).

(** A metadata entry that redirects a plugin to itself. *)
Definition self_loop_entry : dict string yaml :=
  [ ("redirect", YStr "foo.bar.self_loop");
    ("deprecation", YMap [("warning_text", YStr "gone in a loop")]) ].

(** * The rest of the package *)

(** ** Collections: [data.py] *)

(** A [pathlib.Path], by the expression that builds it: [Path(s)] and
    [p / segment].  Two expressions that are equal denote the same path. *)
Inductive Path : Type :=
| Path_ (s : string)
| joinpath (p : Path) (segment : string).

Infix "//" := joinpath (at level 40, left associativity).

Module data.

Record CollectionInfo : Type := mkCollectionInfo {
  path : Path;
  namespace : string;
  name : string;
  full_name : string;
  version : option string;
  is_ansible_core : bool
}.

Record CollectionInfos : Type := mkCollectionInfos {
  ansible_core : option CollectionInfo;
  collections : dict string CollectionInfo
}.

(** The second loop of [build]: names of ansible-core are skipped, a name
    already there keeps its collection. *)
Fixpoint add_collections (collections : list CollectionInfo)
    (name_to_coll : dict string CollectionInfo)
  : dict string CollectionInfo :=
  match collections with
  | [] => name_to_coll
  | collection :: rest =>
      if String.eqb (full_name collection) "ansible.builtin"
         || String.eqb (full_name collection) "ansible.legacy"
      then add_collections rest name_to_coll
      else
        match dict_get name_to_coll (full_name collection) with
        | Some _ => add_collections rest name_to_coll
        | None =>
            add_collections rest
              (dict_set name_to_coll (full_name collection) collection)
        end
  end.

(** [CollectionInfos.build], for a collection of infos that can be iterated
    more than once. *)
Definition build (collections : list CollectionInfo)
  : parsed CollectionInfos :=
  let cores := List.filter is_ansible_core collections in
  if (1 <? length cores)%nat then ValueError
  else
    let ansible_core := head cores in
    match ansible_core with
    | Some core =>
        if negb (String.eqb (full_name core) "ansible.builtin")
        then ValueError
        else
          Parsed (mkCollectionInfos ansible_core
                    (add_collections collections
                       (dict_set [] (full_name core) core)))
    | None =>
        Parsed (mkCollectionInfos ansible_core
                  (add_collections collections []))
    end.

End data.

(** ** Plugin types and their directories: [ansible.py] *)

(** The string a plugin type is in the code. *)
Definition plugin_type_name (ty : PluginType) : string :=
  match ty with
  | become => "become" | cache => "cache" | callback => "callback"
  | cliconf => "cliconf" | connection => "connection" | filter_ => "filter"
  | httpapi => "httpapi" | inventory => "inventory" | lookup_ => "lookup"
  | module => "module" | netconf => "netconf" | shell => "shell"
  | strategy => "strategy" | test => "test" | vars => "vars"
  | action => "action" | doc_fragments => "doc_fragments"
  | module_utils => "module_utils" | plugin_utils => "plugin_utils"
  | eda_event_filter => "eda_event_filter"
  | eda_event_source => "eda_event_source"
  end.

Definition plugin_types : list PluginType :=
  [ become; cache; callback; cliconf; connection; filter_; httpapi;
    inventory; lookup_; module; netconf; shell; strategy; test; vars;
    action; doc_fragments; module_utils; plugin_utils;
    eda_event_filter; eda_event_source ].

(** A string of the code read as a plugin type. *)
Definition plugin_type_of_name (name : string) : option PluginType :=
  List.find (fun ty => String.eqb (plugin_type_name ty) name) plugin_types.

Definition CORE_DOCUMENTABLE_PLUGIN_TYPES : list string :=
  [ "become"; "cache"; "callback"; "cliconf"; "connection"; "filter";
    "httpapi"; "inventory"; "lookup"; "module"; "netconf"; "shell";
    "strategy"; "test"; "vars" ].

Definition CORE_OTHER_PLUGIN_TYPES : list string :=
  [ "action"; "doc_fragments"; "module_utils"; "plugin_utils" ].

Definition EDA_PLUGIN_TYPES : list string :=
  [ "eda_event_filter"; "eda_event_source" ].

Definition _EDA_DIRECTORIES : dict string string :=
  [ ("eda_event_filter", "extensions/eda/plugins/event_filter");
    ("eda_event_source", "extensions/eda/plugins/event_source") ].

(** [x in t] for a tuple of strings. *)
Definition str_in (x : string) (t : list string) : bool :=
  existsb (String.eqb x) t.

Definition get_plugin_directory (collection : data.CollectionInfo)
    (plugin_type : string) : parsed Path :=
  if String.eqb plugin_type "module" then
    if data.is_ansible_core collection
    then Parsed (data.path collection // "modules")
    else Parsed (data.path collection // "plugins" // "modules")
  else if str_in plugin_type CORE_DOCUMENTABLE_PLUGIN_TYPES
          || str_in plugin_type CORE_OTHER_PLUGIN_TYPES
  then Parsed (data.path collection // "plugins" // plugin_type)
  else
    match (if negb (data.is_ansible_core collection)
           then dict_get _EDA_DIRECTORIES plugin_type else None) with
    | Some directory => Parsed (data.path collection // directory)
    | None => ValueError
    end.

(** ** Listing collections: [ansible_cli.py] *)

(** [_yield_collection]: the infos the generator yields. *)
Definition _yield_collection (collection_name : string)
    (collection_version : yaml) (root : Path) : list data.CollectionInfo :=
  match str_split 2 collection_name with
  | [namespace; name] =>
      let version :=
        match collection_version with
        | YStr v => if negb (String.eqb v "*") then Some v else None
        | _ => None
        end in
      [ data.mkCollectionInfo (root // namespace // name) namespace name
          collection_name version false ]
  | _ => []
  end.

(** ** Loading routing files: the rest of [routing.py] *)

Definition _CORE_ROUTING_INFO : string := "config/ansible_builtin_runtime.yml".
Definition _COLLECTION_ROUTING_INFO : string := "meta/runtime.yml".
Definition _COLLECTION_EDA_ROUTING_INFO : string :=
  "extensions/eda/eda_runtime.yml".

(** The inner loop of [_load_routing_information], over
    [plugins_data.items()]. *)
Fixpoint parse_plugins (own_name : string) (real_plugin_type : PluginType)
    (items : list (string * yaml))
    (real_plugin_data : dict string PluginRouting)
  : parsed (dict string PluginRouting) :=
  match items with
  | [] => Parsed real_plugin_data
  | (plugin_name, plugin_data) :: rest =>
      match _parse_plugin_data plugin_data own_name real_plugin_type
              plugin_name with
      | ValueError => ValueError
      | Parsed r =>
          parse_plugins own_name real_plugin_type rest
            (dict_set real_plugin_data plugin_name r)
      end
  end.

(** The outer loop, over [plugin_routing.items()]. *)
Fixpoint parse_types (own_name : string)
    (get_real_plugin_type_name : string -> option PluginType)
    (items : list (string * yaml))
    (result : dict PluginType (dict string PluginRouting))
  : parsed (dict PluginType (dict string PluginRouting)) :=
  match items with
  | [] => Parsed result
  | (plugin_type, plugins_data) :: rest =>
      match get_real_plugin_type_name plugin_type with
      | None => parse_types own_name get_real_plugin_type_name rest result
      | Some real_plugin_type =>
          if negb (yaml_truthy plugins_data)
          then parse_types own_name get_real_plugin_type_name rest result
          else
            match plugins_data with
            | YMap plugins =>
                match parse_plugins own_name real_plugin_type plugins [] with
                | ValueError => ValueError
                | Parsed real_plugin_data =>
                    parse_types own_name get_real_plugin_type_name rest
                      (dict_set result real_plugin_type real_plugin_data)
                end
            | _ => ValueError
            end
      end
  end.

Definition _load_routing_information (data : yaml) (own_name : string)
    (get_real_plugin_type_name : string -> option PluginType)
  : parsed (dict PluginType (dict string PluginRouting)) :=
  match data with
  | YNull => Parsed []
  | YMap m =>
      match dict_get m "plugin_routing" with
      | None | Some YNull => Parsed []
      | Some (YMap plugin_routing) =>
          parse_types own_name get_real_plugin_type_name plugin_routing []
      | Some _ => ValueError
      end
  | _ => ValueError
  end.

Definition _get_real_plugin_type_name (name : string) : option PluginType :=
  if String.eqb name "modules" then Some module
  else if str_in name CORE_DOCUMENTABLE_PLUGIN_TYPES
  then plugin_type_of_name name
  else if str_in name CORE_OTHER_PLUGIN_TYPES then plugin_type_of_name name
  else None.

(** The local function of [_load_eda_routing_information]. *)
Definition get_real_plugin_type_name (name : string) : option PluginType :=
  let trans_name := String.append "eda_" name in
  if str_in trans_name EDA_PLUGIN_TYPES then plugin_type_of_name trans_name
  else None.

(** What [_load_yaml_file] does for a path: the file is not there, reading
    or parsing it raises something else, or it holds a document. *)
Inductive file : Type :=
| FileNotFoundError
| Unreadable (why : string)
| Document (data : yaml).

(** What loading raises: the loader's [ValueError], or whatever else
    reading a file, or a handler, raised. *)
Inductive load_exn : Type :=
| InvalidRouting
| OtherError (why : string).

Inductive loaded (A : Type) : Type :=
| Loaded (a : A)
| Failed (e : load_exn).
Arguments Loaded {A} a.
Arguments Failed {A} e.

Definition of_parsed {A : Type} (p : parsed A) : loaded A :=
  match p with
  | Parsed a => Loaded a
  | ValueError => Failed InvalidRouting
  end.

Definition _load_core_routing_information (_load_yaml_file : Path -> file)
    (path : Path) : loaded (dict PluginType (dict string PluginRouting)) :=
  let routing_path := path // _CORE_ROUTING_INFO in
  match _load_yaml_file routing_path with
  | FileNotFoundError => Loaded []
  | Unreadable why => Failed (OtherError why)
  | Document data =>
      of_parsed (_load_routing_information data "ansible.builtin"
                   _get_real_plugin_type_name)
  end.

Definition _load_collection_routing_information
    (_load_yaml_file : Path -> file) (collection_info : data.CollectionInfo)
  : loaded (dict PluginType (dict string PluginRouting)) :=
  let path := data.path collection_info // _COLLECTION_ROUTING_INFO in
  match _load_yaml_file path with
  | FileNotFoundError => Loaded []
  | Unreadable why => Failed (OtherError why)
  | Document data =>
      of_parsed (_load_routing_information data
                   (data.full_name collection_info)
                   _get_real_plugin_type_name)
  end.

Definition _load_eda_routing_information
    (_load_yaml_file : Path -> file) (collection_info : data.CollectionInfo)
  : loaded (dict PluginType (dict string PluginRouting)) :=
  let path := data.path collection_info // _COLLECTION_EDA_ROUTING_INFO in
  match _load_yaml_file path with
  | FileNotFoundError => Loaded []
  | Unreadable why => Failed (OtherError why)
  | Document data =>
      of_parsed (_load_routing_information data
                   (data.full_name collection_info)
                   get_real_plugin_type_name)
  end.

(** [d.update(other)]. *)
Definition dict_update {K V : Type} `{EqDecision K} (d other : dict K V)
  : dict K V :=
  fold_left (fun d kv => dict_set d kv.1 kv.2) other d.

Definition load_routing_information (_load_yaml_file : Path -> file)
    (collection_info : data.CollectionInfo) : loaded CollectionRouting :=
  if data.is_ansible_core collection_info then
    match _load_core_routing_information _load_yaml_file
            (data.path collection_info) with
    | Loaded r => Loaded (mkCollectionRouting r)
    | Failed e => Failed e
    end
  else
    match _load_collection_routing_information _load_yaml_file
            collection_info with
    | Failed e => Failed e
    | Loaded coll =>
        match _load_eda_routing_information _load_yaml_file
                collection_info with
        | Failed e => Failed e
        | Loaded eda =>
            Loaded (mkCollectionRouting
                      (dict_update (dict_update [] coll) eda))
        end
    end.

(** The loop of [collect_routing_information]; the handler returns a
    routing, [None], or raises. *)
Fixpoint collect (_load_yaml_file : Path -> file)
    (handle_broken :
       option (data.CollectionInfo -> load_exn
               -> loaded (option CollectionRouting)))
    (infos : list data.CollectionInfo) (result : catalog) : loaded catalog :=
  match infos with
  | [] => Loaded result
  | collection_info :: rest =>
      match load_routing_information _load_yaml_file collection_info with
      | Loaded r =>
          collect _load_yaml_file handle_broken rest
            (dict_set result (data.full_name collection_info) r)
      | Failed exc =>
          match handle_broken with
          | None => Failed exc
          | Some handler =>
              match handler collection_info exc with
              | Failed e => Failed e
              | Loaded (Some res) =>
                  collect _load_yaml_file handle_broken rest
                    (dict_set result (data.full_name collection_info) res)
              | Loaded None =>
                  collect _load_yaml_file handle_broken rest result
              end
          end
      end
  end.

Definition collect_routing_information (_load_yaml_file : Path -> file)
    (collection_infos : data.CollectionInfos)
    (handle_broken :
       option (data.CollectionInfo -> load_exn
               -> loaded (option CollectionRouting)))
  : loaded catalog :=
  collect _load_yaml_file handle_broken
    (map snd (data.collections collection_infos)) [].

#[global] Instance Path_eq_dec : EqDecision Path.
Proof. solve_decision. Defined.

(** ** Running ansible-galaxy: the rest of [ansible_cli.py] *)

(** What the listing raises: its own two errors, [Ansible29Error] being a
    [ListingCollectionsError], or any other exception. *)
Inductive cli_exn : Type :=
| ListingCollectionsError
| Ansible29Error
| OtherException (what : string).

(** A call of the runner: [(stdout, stderr, rc)], or an exception. *)
Inductive ran : Type :=
| Ran (stdout stderr : string) (rc : Z)
| RunnerRaised (e : cli_exn).

Definition Runner : Type := list string -> option (gmap string string) -> ran.

(** What a generator does: the collections it yields, then the exception
    it ends with, if any. *)
Definition yielded : Type := list data.CollectionInfo * option cli_exn.

(** [needle in hay] for byte strings. *)
Fixpoint contains (needle hay : string) : bool :=
  String.prefix needle hay
  || match hay with
     | EmptyString => false
     | String _ rest => contains needle rest
     end.

(** [except ListingCollectionsError: raise] and
    [except Exception as exc: raise ListingCollectionsError(...) from exc]. *)
Definition reraise (r : yielded) : yielded :=
  match r with
  | (l, Some (OtherException _)) => (l, Some ListingCollectionsError)
  | _ => r
  end.

Section Listing.

(** [os.environ] and the library functions the listing calls: [json.loads],
    [bytes.decode("utf-8")] ([None] for a [UnicodeDecodeError]),
    [str.splitlines], [str.split(maxsplit=1)] and [str.strip].  A parsed
    JSON document is a [yaml] value, a number being any value that is
    neither a string nor a mapping. *)
Context (environ : gmap string string)
        (json_loads : string -> option yaml)
        (decode : string -> option string)
        (splitlines : string -> list string)
        (split_maxsplit_1 : string -> list string)
        (strip : string -> string).

(** [raise ListingCollectionsError(f"... {stderr.decode('utf-8')}")]. *)
Definition unexpected_return_code (stderr : string) : cli_exn :=
  match decode stderr with
  | Some _ => ListingCollectionsError
  | None => OtherException "UnicodeDecodeError"
  end.

(** The loop of [_ansible_galaxy_list_collections_compat] over the lines. *)
Fixpoint compat_lines (lines : list string) (root : option Path)
  : list data.CollectionInfo :=
  match lines with
  | [] => []
  | line :: rest =>
      match split_maxsplit_1 line with
      | part0 :: part1 :: _ =>
          if String.eqb part0 "#" then compat_lines rest (Some (Path_ part1))
          else
            match root with
            | Some r =>
                _yield_collection part0 (YStr (strip part1)) r
                ++ compat_lines rest root
            | None => compat_lines rest root
            end
      | _ => compat_lines rest root
      end
  end.

Definition _ansible_galaxy_list_collections_compat (runner : Runner)
    (env : option (gmap string string)) : yielded :=
  match runner ["ansible-galaxy"; "collection"; "list"] env with
  | RunnerRaised e => ([], Some e)
  | Ran stdout stderr rc =>
      if (rc =? 5)%Z
         && contains "None of the provided paths were usable." stderr
      then ([], None)
      else if negb (rc =? 0)%Z then ([], Some (unexpected_return_code stderr))
      else
        match decode stdout with
        | None => ([], Some (OtherException "UnicodeDecodeError"))
        | Some text => (compat_lines (splitlines text) None, None)
        end
  end.

(** The inner loop of the JSON listing, over [collections.items()]. *)
Fixpoint json_collections (collections : list (string * yaml)) (root : Path)
  : yielded :=
  match collections with
  | [] => ([], None)
  | (collection_name, collection_data) :: rest =>
      match collection_data with
      | YMap d =>
          let version :=
            match dict_get d "version" with Some v => v | None => YNull end in
          let '(l, e) := json_collections rest root in
          (_yield_collection collection_name version root ++ l, e)
      | _ => ([], Some (OtherException "AttributeError"))
      end
  end.

(** The outer loop, over [data.items()]. *)
Fixpoint json_roots (roots : list (string * yaml)) : yielded :=
  match roots with
  | [] => ([], None)
  | (collections_root_path, collections) :: rest =>
      match collections with
      | YMap colls =>
          match json_collections colls (Path_ collections_root_path) with
          | (l, Some e) => (l, Some e)
          | (l, None) => let '(l', e) := json_roots rest in (l ++ l', e)
          end
      | _ => ([], Some (OtherException "AttributeError"))
      end
  end.

Definition ansible_galaxy_list_collections (runner : Runner)
    (collections_path : option string) (only_pass_env_updates : bool)
  : yielded :=
  reraise
    match runner ["ansible-galaxy"; "collection"; "list"; "--format"; "json"]
            (_prepare_env environ collections_path only_pass_env_updates
               false) with
    | RunnerRaised e => ([], Some e)
    | Ran stdout stderr rc =>
        if (rc =? 2)%Z
           && contains
                "error: argument COLLECTION_ACTION: invalid choice: 'list'"
                stderr
        then ([], Some Ansible29Error)
        else if (rc =? 2)%Z
                && contains "error: unrecognized arguments: --format" stderr
        then
          _ansible_galaxy_list_collections_compat runner
            (_prepare_env environ collections_path only_pass_env_updates
               true)
        else if (rc =? 5)%Z
                && contains "None of the provided paths were usable." stderr
        then ([], None)
        else if negb (rc =? 0)%Z
        then ([], Some (unexpected_return_code stderr))
        else
          match json_loads stdout with
          | None => ([], Some (OtherException "JSONDecodeError"))
          | Some (YMap roots) => json_roots roots
          | Some _ => ([], Some (OtherException "AttributeError"))
          end
    end.

End Listing.

(** * Notions used in the statements on the rest of the package *)

(** A record as the loader leaves it: no flag is set, and the results of a
    resolution are there exactly for a redirect of a plugin to itself. *)
Definition fresh (r : PluginRouting) : Prop :=
  redirect_tombstone r = false /\ redirect_dead_end r = false /\
  (redirect r = REllipsis -> redirect_error r = Some circular) /\
  (redirect r <> REllipsis ->
   redirect_chain r = None /\ redirect_error r = None
   /\ redirect_deprecations r = None).

(** All records of the plugin maps of a collection, and of a catalog. *)
Definition all_records (P : PluginRouting -> Prop)
    (d : dict PluginType (dict string PluginRouting)) : Prop :=
  Forall (fun tm => Forall (fun np => P np.2) tm.2) d.

Definition all_plugins (P : PluginRouting -> Prop) (rd : catalog) : Prop :=
  Forall (fun ce => all_records P (plugin_data ce.2)) rd.

(** An entry of [plugin_routing] that the loader reads for the type [ty]:
    its key is a name of [ty] and its value is truthy. *)
Definition read_for (get_real_plugin_type_name : string -> option PluginType)
    (ty : PluginType) (kv : string * yaml) : bool :=
  bool_decide (get_real_plugin_type_name kv.1 = Some ty) && yaml_truthy kv.2.

(** An entry of [plugin_routing] that the loader reads at all. *)
Definition is_read (get_real_plugin_type_name : string -> option PluginType)
    (kv : string * yaml) : bool :=
  bool_decide (is_Some (get_real_plugin_type_name kv.1)) && yaml_truthy kv.2.

(** A document with [plugin_routing] only. *)
Definition routing_document (plugin_routing : list (string * yaml)) : yaml :=
  YMap [ ("plugin_routing", YMap plugin_routing) ].

(** A plugin type of the Event-Driven Ansible extension. *)
Definition is_eda (ty : PluginType) : bool :=
  match ty with
  | eda_event_filter | eda_event_source => true
  | _ => false
  end.

(** The plugin maps a loader of one file builds: under each type, once, a
    non-empty map with each name once. *)
Definition loaded_types (d : dict PluginType (dict string PluginRouting))
  : Prop :=
  NoDup (dict_keys d) /\
  Forall (fun tm => dict_truthy tm.2 = true /\ NoDup (dict_keys tm.2)) d.

(** A record with the cycle marker that no error or flag accompanies. *)
Definition bare_marker (p : PluginRouting) : Prop :=
  redirect p = REllipsis /\ redirect_error p = None
  /\ redirect_tombstone p = false /\ redirect_dead_end p = false.

(** A record that a walk goes through, the only kind it appends with the
    map that holds it: not tombstoned, redirecting to a name, without error
    and without flag. *)
Definition passable (p : PluginRouting) : bool :=
  match tombstone p, redirect p with
  | None, RStr _ =>
      negb (bool_decide (redirect_error p <> None)
            || redirect_tombstone p || redirect_dead_end p)
  | _, _ => false
  end.

(** A record that needs no resolution and that no walk goes through. *)
Definition settled_record (p : PluginRouting) : Prop :=
  already_done p = true /\ passable p = false.

(** An element of the list that has its map refers to a passable record of
    the catalog. *)
Definition guarded (rd : catalog) (ty : PluginType) (e : elt) : Prop :=
  forall c, e_owner e = Some c ->
    c = e_coll e /\
    exists p, lookup_plugin rd (e_coll e) ty (e_name e) = Some p
              /\ passable p = true.

(** The variables of the caller that [_prepare_env] starts from. *)
Definition inherited (environ : gmap string string)
    (only_pass_env_updates : bool) : gmap string string :=
  if only_pass_env_updates then ∅ else environ.

(** The environment after [env.update({...})]. *)
Definition with_updates (environ : gmap string string)
    (only_pass_env_updates : bool) : gmap string string :=
  list_to_map plugin_path_updates ∪ inherited environ only_pass_env_updates.

(** A collection as the listing yields it: not ansible-core, named by a
    namespace and a name without dots, at root/namespace/name, with a
    version that is not the wildcard. *)
Definition listed (ci : data.CollectionInfo) : Prop :=
  data.is_ansible_core ci = false /\
  data.full_name ci = dotted (data.namespace ci) (data.name ci) /\
  split_dot (data.namespace ci) = None /\
  split_dot (data.name ci) = None /\
  data.version ci <> Some "*" /\
  exists root, data.path ci = root // data.namespace ci // data.name ci.

(** * Example data for the rest of the package *)

(** The collection of [test_load_routing_information_collection] and its
    two files. *)
Definition foo_bar : data.CollectionInfo :=
  data.mkCollectionInfo (Path_ "/coll") "foo" "bar" "foo.bar" None false.

Definition foo_bar_runtime : yaml :=
  YMap [ ("plugin_routing", YMap
    [ ("modules", YMap
        [ ("formerly_core_ping", YMap
             [ ("redirect", YStr "testns.testcoll.ping");
               ("tombstone", YMap
                  [ ("warning_text", YStr "foo");
                    ("removal_version", YStr "1.2.3");
                    ("removal_date", YStr "2030-01-01") ]) ]);
          ("uses_redirected_action", YMap
             [ ("redirect", YStr "ansible.builtin.ping") ]);
          ("foo", YNull);
          ("bar", YMap []);
          ("meh", YMap [ ("action_plugin", YStr "foo") ]) ]) ]) ].

Definition foo_bar_eda_runtime : yaml :=
  YMap [ ("plugin_routing", YMap
    [ ("event_source", YMap
        [ ("old_webhook", YMap
             [ ("tombstone", YMap
                  [ ("removal_version", YStr "2.0.0");
                    ("warning_text", YStr "foo") ]) ]) ]);
      ("event_filter", YMap
        [ ("legacy_filter", YMap
             [ ("redirect", YStr "foo.bar.baz");
               ("deprecation", YMap
                  [ ("removal_version", YStr "3.0.0");
                    ("warning_text", YStr "bar") ]) ]) ]);
      ("i-dont-care", YMap [ ("meh", YNull) ]) ]) ].

Definition foo_bar_files (p : Path) : file :=
  if decide (p = Path_ "/coll" // "meta/runtime.yml")
  then Document foo_bar_runtime
  else if decide (p = Path_ "/coll" // "extensions/eda/eda_runtime.yml")
  then Document foo_bar_eda_runtime
  else FileNotFoundError.

(** A file system without files. *)
Definition no_files (p : Path) : file := FileNotFoundError.

(** The file of [test_collect_routing_information]. *)
Definition broken_files (p : Path) : file :=
  if decide (p = Path_ "/coll" // "meta/runtime.yml")
  then Document (YMap [ ("plugin_routing", YStr "foo") ])
  else FileNotFoundError.

Definition foo_bar_infos : data.CollectionInfos :=
  data.mkCollectionInfos None [ ("foo.bar", foo_bar) ].

(** The catalog collected from the two files. *)
Definition foo_bar_catalog : catalog :=
  Eval vm_compute in
    match collect_routing_information foo_bar_files foo_bar_infos None with
    | Loaded rd => rd
    | Failed _ => []
    end.

(** The plugin maps of the two files of [foo_bar]. *)
Definition foo_bar_loaded : dict PluginType (dict string PluginRouting) :=
  Eval vm_compute in
    match _load_collection_routing_information foo_bar_files foo_bar with
    | Loaded d => d
    | Failed _ => []
    end.

Definition foo_bar_eda_loaded : dict PluginType (dict string PluginRouting) :=
  Eval vm_compute in
    match _load_eda_routing_information foo_bar_files foo_bar with
    | Loaded d => d
    | Failed _ => []
    end.

(** The collections of [test_CollectionInfos_build]. *)
Definition core_1 : data.CollectionInfo :=
  data.mkCollectionInfo (Path_ "/core-1") "ansible" "builtin"
    "ansible.builtin" (Some "1.2.3") true.
Definition core_1_not_real : data.CollectionInfo :=
  data.mkCollectionInfo (Path_ "/core-1") "ansible" "builtin"
    "ansible.builtin" (Some "1.2.3") false.
Definition core_2 : data.CollectionInfo :=
  data.mkCollectionInfo (Path_ "/core-2") "ansible" "builtin"
    "ansible.builtin" (Some "3.2.1") true.
Definition core_2_not_real : data.CollectionInfo :=
  data.mkCollectionInfo (Path_ "/core-2") "ansible" "builtin"
    "ansible.builtin" (Some "3.2.1") false.
Definition fake_core : data.CollectionInfo :=
  data.mkCollectionInfo (Path_ "/fake-core") "foo" "bar" "foo.bar"
    (Some "3.2.1") true.
Definition coll_1 : data.CollectionInfo :=
  data.mkCollectionInfo (Path_ "/coll-1") "foo" "bar" "foo.bar"
    (Some "1.2.3") false.
Definition coll_2 : data.CollectionInfo :=
  data.mkCollectionInfo (Path_ "/coll-1") "foo" "bar" "foo.bar"
    (Some "3.2.1") false.

(** A list with ansible-core, a collection that only has its name, and a
    collection given twice. *)
Definition mixed_infos : list data.CollectionInfo :=
  [ coll_1; core_1_not_real; core_2; coll_2 ].

Definition mixed_built : data.CollectionInfos :=
  data.mkCollectionInfos (Some core_2)
    [ ("ansible.builtin", core_2); ("foo.bar", coll_1) ].

(** An environment of the caller. *)
Definition home_env : gmap string string := {[ "HOME" := "/root" ]}.

(** The self loop of the lookup plugins of [routing_info]. *)
Definition marked_loop_3 : PluginRouting :=
  {| action_plugin := None; redirect := REllipsis;
     redirect_chain := Some ["foo.bar.loop_3"; "foo.bar.loop_3"];
     redirect_deprecations := None; redirect_tombstone := false;
     redirect_dead_end := false;
     redirect_error := Some "Detected circular redirect";
     deprecation := None; tombstone := None |}.

(** The JSON document of [test_ansible_galaxy_list_collections]. *)
Definition listing_json : yaml :=
  YMap [ ("/foo", YMap
    [ ("bar", YMap []);
      ("baz.bam", YMap []);
      ("foo.bar", YMap [ ("version", YStr "*") ]);
      ("foo.bam", YMap [ ("version", YStr "1.2.3") ]);
      ("baz.bar", YMap [ ("version", YInt 42) ]) ]) ].

(** What both listing tests expect. *)
Definition listing_expected : list data.CollectionInfo :=
  [ data.mkCollectionInfo (Path_ "/foo" // "baz" // "bam") "baz" "bam"
      "baz.bam" None false;
    data.mkCollectionInfo (Path_ "/foo" // "foo" // "bar") "foo" "bar"
      "foo.bar" None false;
    data.mkCollectionInfo (Path_ "/foo" // "foo" // "bam") "foo" "bam"
      "foo.bam" (Some "1.2.3") false;
    data.mkCollectionInfo (Path_ "/foo" // "baz" // "bar") "baz" "bar"
      "baz.bar" None false ].

(** The string functions on text without whitespace other than spaces, for
    the lines of the compat test. *)
Fixpoint lstrip (s : string) : string :=
  match s with
  | String " " r => lstrip r
  | _ => s
  end.

Fixpoint first_word (s : string) : string * string :=
  match s with
  | EmptyString => (EmptyString, EmptyString)
  | String " " r => (EmptyString, s)
  | String c r => let '(w, rest) := first_word r in (String c w, rest)
  end.

Definition split_spaces_once (line : string) : list string :=
  let '(w, rest) := first_word (lstrip line) in
  if String.eqb w "" then []
  else if String.eqb (lstrip rest) "" then [w] else [w; lstrip rest].

Fixpoint rstrip (s : string) : string :=
  match s with
  | EmptyString => EmptyString
  | String c r =>
      let r' := rstrip r in
      if Ascii.eqb c " " && String.eqb r' "" then EmptyString
      else String c r'
  end.

Definition strip_spaces (s : string) : string := rstrip (lstrip s).

(** The lines of the output in [test_ansible_galaxy_list_collections_compat]. *)
Definition compat_output : list string :=
  [ "{";
    "# /foo";
    "Collection                               Version    ";
    "---------------------------------------- -----------";
    "bar                                      *      ";
    "baz.bam                                  *      ";
    "foo.bar                                  *      ";
    "foo.bam                                  1.2.3      ";
    "baz.bar                                  *      ";
    "        " ].

(** The documents of [test_load_routing_information_core_fail]; the float of
    the last one is given as a number. *)
Definition core_fail_documents : list yaml :=
  [ YStr "plugin_routing";
    YMap [ ("plugin_routing", YSeq [ YStr "foo" ]) ];
    routing_document [ ("connection", YSeq [ YStr "foo" ]) ];
    routing_document [ ("modules", YMap [ ("foo", YInt 123) ]) ];
    routing_document
      [ ("modules", YMap [ ("foo", YMap [ ("action_plugin", YBool true) ]) ]) ];
    routing_document
      [ ("connection", YMap [ ("foo", YMap [ ("redirect", YInt 123) ]) ]) ];
    routing_document
      [ ("connection", YMap [ ("foo", YMap [ ("deprecation", YNull) ]) ]) ];
    routing_document
      [ ("connection",
         YMap [ ("foo", YMap [ ("deprecation",
                                YMap [ ("warning_text", YInt 123) ]) ]) ]) ];
    routing_document
      [ ("connection",
         YMap [ ("foo", YMap [ ("deprecation",
                                YMap [ ("removal_version", YBool true) ]) ]) ]) ];
    routing_document
      [ ("connection",
         YMap [ ("foo", YMap [ ("deprecation",
                                YMap [ ("removal_date", YInt 1) ]) ]) ]) ] ].

(** * Properties *)

(** ** Ordered dictionaries *)

Section DictFacts.
Context {K V : Type} `{EqDecision K}.
Implicit Types (d : dict K V) (k : K) (v : V).

Lemma dict_get_set_eq d k v : dict_get (dict_set d k v) k = Some v.
Proof.
  induction d as [|[k' v'] r IH]; simpl.
  - by rewrite decide_True.
  - destruct (decide (k = k')) as [->|Hne]; simpl.
    + by rewrite decide_True.
    + by rewrite decide_False.
Qed.

Lemma dict_get_set_ne d k k' v :
  k <> k' -> dict_get (dict_set d k v) k' = dict_get d k'.
Proof.
  intros Hne. induction d as [|[k0 v0] r IH]; simpl.
  - by rewrite decide_False.
  - destruct (decide (k = k0)) as [->|Hne0]; simpl.
    + by rewrite !decide_False.
    + destruct (decide (k' = k0)); [done | apply IH].
Qed.

(** Writing where the key exists replaces one value and nothing else:
    any view [g] of the values that the old and the new value share is
    unchanged. *)
Lemma dict_set_view {W : Type} (g : V -> W) d k v v0 :
  dict_get d k = Some v0 -> g v = g v0 ->
  map (fun kv => (fst kv, g (snd kv))) (dict_set d k v)
  = map (fun kv => (fst kv, g (snd kv))) d.
Proof.
  intros Hget Hg. induction d as [|[k' v'] r IH]; simpl in *; [done|].
  destruct (decide (k = k')) as [->|Hne]; simpl.
  - injection Hget as ->. by rewrite Hg.
  - f_equal. by apply IH.
Qed.

Lemma dict_set_keys d k v :
  is_Some (dict_get d k) -> dict_keys (dict_set d k v) = dict_keys d.
Proof.
  intros [v0 Hget]. unfold dict_keys.
  pose proof (dict_set_view (fun _ => tt) d k v v0 Hget eq_refl) as Hv.
  apply (f_equal (map fst)) in Hv. rewrite !map_map in Hv. exact Hv.
Qed.

Lemma dict_set_same d k v : dict_get d k = Some v -> dict_set d k v = d.
Proof.
  induction d as [|[k' v'] r IH]; simpl; [done|].
  destruct (decide (k = k')) as [->|Hne]; intros Hget.
  - by injection Hget as ->.
  - f_equal. by apply IH.
Qed.

Lemma dict_get_view {W : Type} (g : V -> W) d k :
  dict_get (map (fun kv => (fst kv, g (snd kv))) d) k = g <$> dict_get d k.
Proof.
  induction d as [|[k' v'] r IH]; simpl; [done|].
  destruct (decide (k = k')); [done | apply IH].
Qed.

Lemma dict_get_In d k v : dict_get d k = Some v -> In (k, v) d.
Proof.
  induction d as [|[k' v'] r IH]; simpl; [done|].
  destruct (decide (k = k')) as [->|Hne]; intros Hget.
  - injection Hget as ->. by left.
  - right. by apply IH.
Qed.

Lemma dict_get_keys d k : is_Some (dict_get d k) <-> In k (dict_keys d).
Proof.
  induction d as [|[k' v'] r IH]; simpl.
  - split; [intros [? ?]; done | done].
  - destruct (decide (k = k')) as [->|Hne].
    + split; [by left | eauto].
    + rewrite IH. split; [by right | intros [?|?]; congruence].
Qed.

Lemma dict_truthy_get d k v : dict_get d k = Some v -> dict_truthy d = true.
Proof. by destruct d. Qed.
End DictFacts.

(** ** Strings *)

Lemma append_assoc (a b c : string) : (a +:+ b) +:+ c = a +:+ b +:+ c.
Proof.
  induction a as [|x a IH]; [done|].
  change (String x ((a +:+ b) +:+ c) = String x (a +:+ b +:+ c)).
  by rewrite IH.
Qed.

Lemma split_dot_join s a r : split_dot s = Some (a, r) -> s = a +:+ "." +:+ r.
Proof.
  revert a. induction s as [|c s IH]; intros a; simpl; [done|].
  destruct (Ascii.eqb c ".") eqn:Hc.
  - apply Ascii.eqb_eq in Hc as ->. by intros [= <- <-].
  - destruct (split_dot s) as [[a' b']|]; [|done].
    intros [= <- <-].
    change (String c s = String c (a' +:+ "." +:+ b')).
    f_equal. by apply IH.
Qed.

Lemma str_split_fqcn s ns cn pn :
  str_split 2 s = [ns; cn; pn] -> s = dotted (dotted ns cn) pn.
Proof.
  simpl. destruct (split_dot s) as [[a r]|] eqn:H1; [|done].
  destruct (split_dot r) as [[b r']|] eqn:H2; [|done].
  intros [= <- <- <-].
  apply split_dot_join in H1, H2. subst. unfold dotted.
  by rewrite append_assoc.
Qed.

Lemma append_inj_l (a b c : string) : a +:+ b = a +:+ c -> b = c.
Proof. apply String.app_inj. Qed.

Lemma dotted_inj_r c n n' : dotted c n = dotted c n' -> n = n'.
Proof. unfold dotted. intros H. apply append_inj_l in H. by injection H. Qed.

(** ** The store *)

Lemma plugin_map_store_eq rd c ty n v prd :
  plugin_map rd c ty = Some prd ->
  plugin_map (store_plugin rd c ty n v) c ty = Some (dict_set prd n v).
Proof.
  unfold plugin_map, store_plugin.
  destruct (dict_get rd c) as [cr|] eqn:Hc; [|done]. intros Hm. rewrite Hm.
  rewrite dict_get_set_eq. simpl. by rewrite dict_get_set_eq.
Qed.

Lemma plugin_map_store_ne rd c ty n v c' ty' :
  (c, ty) <> (c', ty') ->
  plugin_map (store_plugin rd c ty n v) c' ty' = plugin_map rd c' ty'.
Proof.
  intros Hne. unfold plugin_map, store_plugin.
  destruct (dict_get rd c) as [cr|] eqn:Hc; [|done].
  destruct (dict_get (plugin_data cr) ty) as [prd|] eqn:Hm; [|done].
  destruct (decide (c = c')) as [<-|Hcc].
  - rewrite dict_get_set_eq, Hc. simpl.
    rewrite dict_get_set_ne; [done | congruence].
  - by rewrite dict_get_set_ne.
Qed.

Lemma lookup_store_eq rd c ty n v :
  is_Some (plugin_map rd c ty) ->
  lookup_plugin (store_plugin rd c ty n v) c ty n = Some v.
Proof.
  intros [prd Hm]. unfold lookup_plugin.
  rewrite (plugin_map_store_eq _ _ _ _ _ _ Hm). apply dict_get_set_eq.
Qed.

Lemma lookup_store_ne rd c ty n v c' ty' n' :
  (c, ty, n) <> (c', ty', n') ->
  lookup_plugin (store_plugin rd c ty n v) c' ty' n'
  = lookup_plugin rd c' ty' n'.
Proof.
  intros Hne. unfold lookup_plugin.
  destruct (decide ((c, ty) = (c', ty'))) as [[= <- <-]|Hct].
  - destruct (plugin_map rd c ty) as [prd|] eqn:Hm.
    + rewrite (plugin_map_store_eq _ _ _ _ _ _ Hm).
      apply dict_get_set_ne. congruence.
    + unfold store_plugin, plugin_map in *.
      destruct (dict_get rd c) as [cr|] eqn:Hc; [|by rewrite Hc].
      by rewrite Hm, Hc, Hm.
  - by rewrite plugin_map_store_ne.
Qed.

Lemma lookup_plugin_map rd c ty n v :
  lookup_plugin rd c ty n = Some v ->
  exists prd, plugin_map rd c ty = Some prd /\ dict_get prd n = Some v.
Proof.
  unfold lookup_plugin. destruct (plugin_map rd c ty) as [prd|]; [|done].
  eauto.
Qed.

Lemma store_plugin_same rd c ty n v :
  lookup_plugin rd c ty n = Some v -> store_plugin rd c ty n v = rd.
Proof.
  intros (prd & Hm & Hg)%lookup_plugin_map.
  unfold plugin_map, store_plugin in *.
  destruct (dict_get rd c) as [cr|] eqn:Hc; [|done]. rewrite Hm.
  rewrite (dict_set_same prd), (dict_set_same (plugin_data cr)); [|done..].
  apply dict_set_same. by destruct cr.
Qed.

Lemma shape_get_view rd c : dict_get (shape rd) c = type_shape <$> dict_get rd c.
Proof. apply (dict_get_view type_shape). Qed.

Lemma type_shape_get_view cr ty :
  dict_get (type_shape cr) ty = dict_keys <$> dict_get (plugin_data cr) ty.
Proof. apply (dict_get_view dict_keys). Qed.

Lemma store_plugin_shape rd c ty n v :
  is_Some (lookup_plugin rd c ty n) ->
  shape (store_plugin rd c ty n v) = shape rd.
Proof.
  intros [v0 (prd & Hm & Hg)%lookup_plugin_map].
  unfold plugin_map, store_plugin in *.
  destruct (dict_get rd c) as [cr|] eqn:Hc; [|done]. rewrite Hm.
  apply (dict_set_view type_shape _ _ _ cr Hc).
  unfold type_shape. simpl.
  apply (dict_set_view dict_keys _ _ _ prd Hm).
  apply dict_set_keys. eauto.
Qed.

Lemma shape_plugin_map rd rd' c ty :
  shape rd = shape rd' ->
  dict_keys <$> plugin_map rd c ty = dict_keys <$> plugin_map rd' c ty.
Proof.
  intros Hs. unfold plugin_map.
  pose proof (shape_get_view rd c) as H1.
  rewrite Hs, shape_get_view in H1.
  destruct (dict_get rd c) as [cr|], (dict_get rd' c) as [cr'|];
    simpl in H1; try done.
  injection H1 as H1.
  by rewrite <- !type_shape_get_view, H1.
Qed.

Lemma shape_lookup rd rd' c ty n :
  shape rd = shape rd' ->
  is_Some (lookup_plugin rd c ty n) -> is_Some (lookup_plugin rd' c ty n).
Proof.
  intros Hs. pose proof (shape_plugin_map rd rd' c ty Hs) as Hm.
  unfold lookup_plugin.
  destruct (plugin_map rd c ty) as [m|], (plugin_map rd' c ty) as [m'|];
    simpl in Hm; try done.
  injection Hm as Hm. rewrite !dict_get_keys. by rewrite Hm.
Qed.

Lemma shape_keys rd rd' : shape rd = shape rd' -> dict_keys rd = dict_keys rd'.
Proof.
  intros Hs. apply (f_equal (map fst)) in Hs. unfold shape in Hs.
  by rewrite !map_map in Hs.
Qed.

Lemma shape_type_keys rd rd' c cr cr' :
  shape rd = shape rd' -> dict_get rd c = Some cr -> dict_get rd' c = Some cr' ->
  dict_keys (plugin_data cr) = dict_keys (plugin_data cr').
Proof.
  intros Hs Hc Hc'.
  pose proof (shape_get_view rd c) as H1.
  rewrite Hs, shape_get_view, Hc, Hc' in H1. simpl in H1. injection H1 as H1.
  apply (f_equal (map fst)) in H1. unfold type_shape in H1.
  rewrite !map_map in H1. simpl in H1.
  symmetry. exact H1.
Qed.

Lemma shape_get rd rd' c :
  shape rd = shape rd' -> is_Some (dict_get rd c) -> is_Some (dict_get rd' c).
Proof. intros Hs. rewrite !dict_get_keys. by rewrite (shape_keys _ _ Hs). Qed.

Lemma owner_store_shape rd ty o n v :
  (forall c, o = Some c -> is_Some (lookup_plugin rd c ty n)) ->
  shape (owner_store rd ty o n v) = shape rd.
Proof.
  intros Ho. unfold owner_store. destruct o as [c|]; [|done].
  destruct (plugin_map rd c ty) as [prd|]; [|done].
  destruct (dict_truthy prd); [|done]. apply store_plugin_shape. eauto.
Qed.

Lemma owner_store_Some rd ty c n v :
  is_Some (lookup_plugin rd c ty n) ->
  owner_store rd ty (Some c) n v = store_plugin rd c ty n v.
Proof.
  intros [v0 (prd & Hm & Hg)%lookup_plugin_map]. unfold owner_store.
  rewrite Hm. by rewrite (dict_truthy_get _ _ _ Hg).
Qed.

(** ** One turn of the loop, by cases *)

Lemma truthy_get (m : dict string PluginRouting) n :
  (if dict_truthy m then dict_get m n else None) = dict_get m n.
Proof. by destruct m. Qed.

Lemma loop_body_view ty fqcn s : step_view ty fqcn s (loop_body ty fqcn s).
Proof.
  unfold loop_body.
  destruct (bool_decide (next_name s ∈ found_names s)) eqn:Hin.
  { apply bool_decide_eq_true in Hin.
    destruct (index_of _ _) eqn:Hi; [by apply sv_cycle | by apply sv_stop]. }
  apply bool_decide_eq_false in Hin.
  destruct (str_split 2 (next_name s)) as [|ns [|cn [|pn [|? ?]]]] eqn:Hsp;
    try (apply sv_non_fqcn; [done | congruence]).
  destruct (dict_get (l_routing s) (dotted ns cn)) as [cr|] eqn:Hc;
    [|by eapply sv_unknown].
  assert (match dict_get (plugin_data cr) ty with
          | Some m => if dict_truthy m then dict_get m pn else None
          | None => None
          end = lookup_plugin (l_routing s) (dotted ns cn) ty pn) as ->.
  { unfold lookup_plugin, plugin_map. rewrite Hc.
    destruct (dict_get (plugin_data cr) ty); [apply truthy_get | done]. }
  destruct (lookup_plugin _ _ _ _) as [p|] eqn:Hp;
    [|eapply sv_absent; eauto].
  destruct (tombstone p) as [tomb|] eqn:Ht; [by eapply sv_tombstone|].
  destruct (redirect p) as [| |target] eqn:Hr.
  - by eapply sv_terminal.
  - destruct (_ || _ || _) eqn:Hf.
    + eapply sv_reuse; eauto. congruence.
    + by eapply sv_assert.
  - destruct (_ || _ || _) eqn:Hf.
    + eapply sv_reuse; eauto. congruence.
    + by eapply sv_continue.
Qed.

Lemma walking_initial rd ty c n pd target :
  walking rd ty c n pd (initial_locals rd c n pd target).
Proof.
  split; simpl; try done.
  - eexists. split; [done | constructor].
  - intros x. rewrite elem_of_singleton, list_elem_of_singleton. done.
  - apply NoDup_singleton.
Qed.

Lemma walking_advance rd ty c n pd s ns cn pn p target :
  walking rd ty c n pd s ->
  next_name s ∉ found_names s ->
  str_split 2 (next_name s) = [ns; cn; pn] ->
  lookup_plugin (l_routing s) (dotted ns cn) ty pn = Some p ->
  walking rd ty c n pd
    (advance s (mkElt (next_name s) (dotted ns cn) pn (Some p)
                  (Some (dotted ns cn))) target).
Proof.
  intros [Hrd (rest & Hl & Hrest) Hf Hnd ? ? ? ? ? ? ?] Hnin Hsp Hp.
  split; simpl; try done.
  - exists (rest ++ [mkElt (next_name s) (dotted ns cn) pn (Some p)
                       (Some (dotted ns cn))]).
    split; [by rewrite Hl|].
    apply Forall_app. split; [done|]. constructor; [|constructor].
    unfold linked; simpl. rewrite <- Hrd, Hp.
    split; [by apply str_split_fqcn | eauto].
  - intros x. rewrite map_app, elem_of_app, elem_of_union, elem_of_singleton.
    simpl. rewrite list_elem_of_singleton, Hf. tauto.
  - rewrite map_app. simpl. apply NoDup_app. split; [done|].
    split; [|apply NoDup_singleton].
    intros x Hx ->%list_elem_of_singleton. apply Hnin. by apply Hf.
Qed.

Lemma lookup_type_entries rd c ty n p :
  lookup_plugin rd c ty n = Some p -> (c, n) ∈ type_entries rd ty.
Proof.
  intros (prd & Hm & Hg)%lookup_plugin_map. unfold plugin_map in Hm.
  destruct (dict_get rd c) as [cr|] eqn:Hc; [|done].
  apply list_elem_of_In. unfold type_entries. apply in_flat_map.
  exists (c, cr). split; [by apply dict_get_In|]. rewrite Hm.
  apply in_map_iff. exists (n, p). split; [done | by apply dict_get_In].
Qed.

Lemma walking_length rd ty c n pd s :
  walking rd ty c n pd s ->
  length (redirection_list s) <= S (length (type_entries rd ty)).
Proof.
  intros [_ (rest & Hl & Hrest) _ Hnd _ _ _ _ _ _ _]. rewrite Hl in *.
  simpl in *. apply le_n_S.
  apply NoDup_cons in Hnd as [_ Hnd].
  set (key := fun e => (e_coll e, e_name e)).
  assert (map e_fqcn rest = (fun k => dotted k.1 k.2) <$> (key <$> rest)) as E.
  { rewrite <- list_fmap_compose. apply Forall_fmap_ext_1.
    eapply Forall_impl; [exact Hrest|]. by intros e (-> & _). }
  rewrite E in Hnd. apply NoDup_fmap_1 in Hnd.
  rewrite <- (length_fmap key rest).
  apply submseteq_length, NoDup_submseteq; [done|].
  intros k (e & -> & He)%list_elem_of_fmap.
  rewrite Forall_forall in Hrest. destruct (Hrest e He) as (_ & _ & [p Hp] & Hd).
  rewrite Hp in Hd. symmetry in Hd. by apply lookup_type_entries in Hd.
Qed.

(** With the bound of [walk_fuel] the loop ends: it leaves through a
    [break] or an exception met in a state reached by walking. *)
Lemma while_true_spec rd ty c n pd fuel s :
  walking rd ty c n pd s ->
  S (length (type_entries rd ty)) < fuel + length (redirection_list s) ->
  exists s1, walking rd ty c n pd s1 /\
    match loop_body ty (dotted c n) s1 with
    | Break s' =>
        while_true fuel ty (dotted c n) s = Returned s' (l_routing s')
    | Raise e => while_true fuel ty (dotted c n) s = Raised e rd
    | Continue _ => False
    end.
Proof.
  revert s. induction fuel as [|fuel IH]; intros s Hw Hlen.
  { pose proof (walking_length _ _ _ _ _ _ Hw). lia. }
  simpl.
  destruct (loop_body ty (dotted c n) s) as [s'|s'|e] eqn:Hb.
  - pose proof (loop_body_view ty (dotted c n) s) as Hv. rewrite Hb in Hv.
    inversion Hv; subst.
    apply IH.
    + by eapply walking_advance.
    + simpl. rewrite length_app. simpl. lia.
  - exists s. split; [done|]. by rewrite Hb.
  - exists s. split; [done|]. rewrite Hb. by rewrite (wk_routing _ _ _ _ _ _ Hw).
Qed.

(** ** The two rewriting loops as lists of assignments *)

Lemma rewrite_loop_assignments ty fqcn w error index loop chain rd pdata :
  rewrite_loop ty fqcn w error index loop chain rd pdata
  = (loop_chain loop chain,
     apply_writes ty (loop_assignments w error index loop chain) rd,
     pick fqcn (loop_assignments w error index loop chain) pdata).
Proof.
  revert index chain rd pdata.
  induction loop as [|e rest IH]; intros index chain rd pdata; simpl; [done|].
  destruct (e_data e) as [ppd|]; simpl; apply IH.
Qed.

Lemma rewrite_prefix_assignments ty fqcn s rl chain deps rd pdata :
  rewrite_prefix ty fqcn s rl chain deps rd pdata
  = (apply_writes ty (prefix_assignments s rl chain deps) rd,
     pick fqcn (prefix_assignments s rl chain deps) pdata).
Proof.
  revert chain deps rd pdata.
  induction rl as [|e rest IH]; intros chain deps rd pdata; simpl; [done|].
  destruct (e_data e) as [ppd|]; simpl; apply IH.
Qed.

(** ** What a rewrite does to a record *)

Lemma same_own_trans p p' p'' :
  same_own p p' -> same_own p' p'' -> same_own p p''.
Proof. intros (? & ? & ?) (? & ? & ?). repeat split; congruence. Qed.

Lemma same_own_sym p p' : same_own p p' -> same_own p' p.
Proof. intros (? & ? & ?). by repeat split. Qed.

Lemma rewritten_trans c n p p' p'' :
  p' = p \/ rewritten c n p p' -> rewritten c n p' p'' -> rewritten c n p p''.
Proof.
  intros [->|[_ Ho]]; [done|]. intros [Hr Ho']. split; [done|].
  by eapply same_own_trans.
Qed.

Lemma updates_refl rd : updates rd rd.
Proof. split; [done|]. intros c ty n p Hp. eauto. Qed.

Lemma updates_trans rd1 rd2 rd3 :
  updates rd1 rd2 -> updates rd2 rd3 -> updates rd1 rd3.
Proof.
  intros [Hs1 H1] [Hs2 H2]. split; [congruence|].
  intros c ty n p Hp. destruct (H1 _ _ _ _ Hp) as (p' & Hp' & Hr).
  destruct (H2 _ _ _ _ Hp') as (p'' & Hp'' & Hr'). exists p''.
  split; [done|]. destruct Hr' as [->|Hr']; [done|].
  right. by eapply rewritten_trans.
Qed.

Lemma updates_store rd c ty n p v :
  lookup_plugin rd c ty n = Some p ->
  v = p \/ rewritten c n p v ->
  updates rd (store_plugin rd c ty n v).
Proof.
  intros Hp Hv. split; [apply store_plugin_shape; eauto|].
  intros c' ty' n' p' Hp'.
  destruct (decide ((c, ty, n) = (c', ty', n'))) as [[= <- <- <-]|Hne].
  - exists v. split; [|congruence].
    apply lookup_store_eq. apply lookup_plugin_map in Hp as (? & -> & _). eauto.
  - exists p'. split; [by rewrite lookup_store_ne | by left].
Qed.

Lemma apply_writes_updates rd0 ty ws rd :
  updates rd0 rd -> Forall (sound_write rd0 ty) ws ->
  updates rd0 (apply_writes ty ws rd).
Proof.
  revert rd. induction ws as [|[e r] ws IH]; intros rd Hu Hws; simpl; [done|].
  apply Forall_cons in Hws as [Hw Hws]. apply IH; [|done].
  eapply updates_trans; [exact Hu|].
  destruct (e_owner e) as [c|] eqn:Ho; [|apply updates_refl].
  destruct (Hw c Ho) as (p & Hp & Hr). cbn [fst snd] in *.
  destruct Hu as [Hs Hu]. destruct (Hu _ _ _ _ Hp) as (p1 & Hp1 & Hr1).
  rewrite owner_store_Some by eauto.
  eapply updates_store; [exact Hp1|]. right.
  destruct Hr1 as [->|[_ Hown1]]; [done|]. destruct Hr as [Hr Hown].
  split; [done|]. eapply same_own_trans; [|exact Hown]. by apply same_own_sym.
Qed.

Lemma pick_spec fqcn ws pdata :
  (pick fqcn ws pdata = pdata /\ Forall (fun w => e_fqcn w.1 <> fqcn) ws)
  \/ exists e r, (e, r) ∈ ws /\ e_fqcn e = fqcn /\ pick fqcn ws pdata = r.
Proof.
  revert pdata. induction ws as [|[e r] ws IH]; intros pdata; simpl.
  { left. by split. }
  destruct (IH (if String.eqb (e_fqcn e) fqcn then r else pdata))
    as [[Hp Hall]|(e' & r' & Hin & He & Hp)].
  - rewrite Hp. destruct (String.eqb (e_fqcn e) fqcn) eqn:E.
    + right. exists e, r. apply String.eqb_eq in E.
      split; [apply list_elem_of_here | done].
    + left. apply String.eqb_neq in E. split; [done | by constructor].
  - right. exists e', r'. split; [by apply list_elem_of_further | done].
Qed.

(** ** The records built by the two loops *)

Lemma loop_assignments_built w index loop chain extra e r :
  chain = map e_fqcn loop ++ extra ->
  (e, r) ∈ loop_assignments w (Some circular) index loop chain ->
  e ∈ loop /\ built_for e r.
Proof.
  revert index chain extra.
  induction loop as [|e0 rest IH]; intros index chain extra ->;
    simpl; [by intros ?%elem_of_nil|].
  assert ((map e_fqcn rest ++ extra) ++ [e_fqcn e0]
          = map e_fqcn rest ++ (extra ++ [e_fqcn e0])) as E
    by (by rewrite <- app_assoc).
  destruct (e_data e0) as [ppd|] eqn:Hd.
  - intros [[= -> ->]|Hin]%elem_of_cons.
    + split; [apply list_elem_of_here|]. exists ppd.
      split; [done|]. split; [|done].
      split; [done|]. split; [simpl; eauto|]. split; [done|].
      by intros [? _].
    + apply (IH _ _ _ E) in Hin as [? ?].
      split; [by apply list_elem_of_further | done].
  - intros [? ?]%(IH _ _ _ E).
    split; [by apply list_elem_of_further | done].
Qed.

Lemma loop_assignments_all w error index loop chain e ppd :
  e ∈ loop -> e_data e = Some ppd ->
  exists r, (e, r) ∈ loop_assignments w error index loop chain.
Proof.
  revert index chain. induction loop as [|e0 rest IH]; intros index chain;
    [by intros ?%elem_of_nil|].
  intros [->|Hin]%elem_of_cons Hd; simpl.
  - rewrite Hd. eexists. apply list_elem_of_here.
  - destruct (IH (S index) (tail (chain ++ [e_fqcn e0])) Hin Hd) as [r Hr].
    exists r. destruct (e_data e0); [by apply list_elem_of_further | done].
Qed.

Lemma tail_ok_cons s e rl chain :
  tail_ok s (e :: rl) chain ->
  tail_ok s rl (Some (e_fqcn e :: or_empty chain)).
Proof.
  intros H He Ht Hd. destruct (H He Ht Hd) as [Hl Hlast]. split; [done|].
  simpl in *. by rewrite map_app, <- app_assoc in Hlast.
Qed.

Lemma prefix_assignments_built s rl chain deps e r :
  marked_locals s -> tail_ok s rl chain ->
  (e, r) ∈ prefix_assignments s rl chain deps ->
  e ∈ rl /\ built_for e r.
Proof.
  intros Hs. revert chain deps.
  induction rl as [|e0 rest IH]; intros chain deps Htail; simpl;
    [by intros ?%elem_of_nil|].
  pose proof (tail_ok_cons _ _ _ _ Htail) as Htail'.
  destruct (e_data e0) as [ppd|] eqn:Hd.
  - intros [Heq|Hin]%elem_of_cons.
    + injection Heq as -> ->.
      split; [apply list_elem_of_here|]. exists ppd.
      split; [done|]. split; [|done].
      split; [simpl; by destruct (is_loop s)|].
      split; [simpl; eauto|]. split.
      * unfold marked, marked_locals in *; simpl.
        destruct (is_loop s); [auto | done].
      * intros (He & Ht & Hde). simpl in *.
        destruct (Htail He Ht Hde) as [Hl Hlast]. rewrite Hl.
        eexists _, _. split; [done|]. split; [done|].
        simpl in Hlast.
        rewrite map_app, <- app_assoc in Hlast. simpl in Hlast.
        by rewrite last_app_cons in Hlast.
    + apply (IH _ _ Htail') in Hin as [? ?].
      split; [by apply list_elem_of_further | done].
  - intros [? ?]%(IH _ _ Htail').
    split; [by apply list_elem_of_further | done].
Qed.

Lemma prefix_assignments_all s rl chain deps e ppd :
  e ∈ rl -> e_data e = Some ppd ->
  exists r, (e, r) ∈ prefix_assignments s rl chain deps.
Proof.
  revert chain deps. induction rl as [|e0 rest IH]; intros chain deps;
    [by intros ?%elem_of_nil|].
  intros [->|Hin]%elem_of_cons Hd; simpl.
  - rewrite Hd. eexists. apply list_elem_of_here.
  - destruct (e_data e0) as [p0|].
    + destruct (IH (Some (e_fqcn e0 :: or_empty chain))
                  (match deprecation p0 with
                   | Some d => Some ((e_fqcn e0, d) :: or_empty deps)
                   | None => deps
                   end) Hin Hd) as [r Hr].
      exists r. by apply list_elem_of_further.
    + apply (IH _ _ Hin Hd).
Qed.

(** ** Elements of the list when the loop is left *)

Lemma built_sound rd ty e r :
  elt_ok rd ty e -> built_for e r -> sound_write rd ty (e, r).
Proof.
  intros Hok (ppd & Hd & Hr & Hso) c Ho. simpl in *.
  destruct Hok as [Hn|(Hf & Hown & _ & Hl)]; [congruence|].
  rewrite Hown in Ho. injection Ho as <-.
  exists ppd. split; [congruence|]. unfold rewritten. by rewrite <- Hf.
Qed.

Lemma fqcn_unique (l : list elt) e e' :
  NoDup (map e_fqcn l) -> e ∈ l -> e' ∈ l -> e_fqcn e = e_fqcn e' -> e = e'.
Proof.
  induction l as [|x l IH]; simpl; [by intros _ ?%elem_of_nil|].
  intros [Hx Hnd]%NoDup_cons [->|He]%elem_of_cons [->|He']%elem_of_cons Heq;
    try done.
  - exfalso. apply Hx. rewrite Heq. apply list_elem_of_fmap. eauto.
  - exfalso. apply Hx. rewrite <- Heq. apply list_elem_of_fmap. eauto.
  - by apply IH.
Qed.

Lemma index_of_None name l : index_of name l = None -> name ∉ map e_fqcn l.
Proof.
  induction l as [|e l IH]; simpl; [by intros _ ?%elem_of_nil|].
  destruct (String.eqb (e_fqcn e) name) eqn:E; [done|].
  apply String.eqb_neq in E.
  destruct (index_of name l); [done|]. intros _ [?|?]%elem_of_cons;
    [congruence | by apply IH].
Qed.

Lemma index_of_Some name l k :
  index_of name l = Some k ->
  exists e, l !! k = Some e /\ e_fqcn e = name
            /\ name ∉ map e_fqcn (take k l).
Proof.
  revert k. induction l as [|e l IH]; intros k; simpl; [done|].
  destruct (String.eqb (e_fqcn e) name) eqn:E.
  - apply String.eqb_eq in E. intros [= <-]. exists e. simpl.
    split; [done|]. split; [done | apply not_elem_of_nil].
  - apply String.eqb_neq in E.
    destruct (index_of name l) as [k'|]; [|done]. intros [= <-].
    destruct (IH k' eq_refl) as (e' & Hl & Hf & Hn). exists e'. simpl.
    split; [done|]. split; [done|].
    intros [?|?]%elem_of_cons; [congruence | done].
Qed.

Lemma elem_of_rev {A : Type} (x : A) (l : list A) : x ∈ rev l <-> x ∈ l.
Proof. rewrite !list_elem_of_In. symmetry. apply in_rev. Qed.

(** ** The state in which the loop is left *)

Lemma walking_left rd ty c n pd s :
  walking rd ty c n pd s -> left_loop rd ty c n pd (redirection_list s).
Proof.
  intros [_ (rest & Hl & Hrest) _ Hnd _ _ _ _ _ _ _]. split; [|done|].
  - rewrite Hl. constructor; [by left|].
    eapply Forall_impl; [exact Hrest|]. by right.
  - rewrite Hl. apply list_elem_of_here.
Qed.

Lemma walking_left_app rd ty c n pd s t :
  walking rd ty c n pd s ->
  next_name s ∉ found_names s ->
  e_fqcn t = next_name s -> e_owner t = None ->
  left_loop rd ty c n pd (redirection_list s ++ [t]).
Proof.
  intros Hw Hnin Hf Ho. destruct (walking_left _ _ _ _ _ _ Hw) as [Hok Hnd Hst].
  split.
  - apply Forall_app. split; [done|]. constructor; [by left | constructor].
  - rewrite map_app. simpl. apply NoDup_app. split; [done|].
    split; [|apply NoDup_singleton].
    intros x Hx ->%list_elem_of_singleton. apply Hnin. rewrite <- Hf.
    by apply (wk_found _ _ _ _ _ _ Hw).
  - apply elem_of_app. by left.
Qed.

Lemma built_start c n pd r :
  built_for (mkElt (dotted c n) c n (Some pd) None) r -> rewritten c n pd r.
Proof.
  by intros (ppd & [= <-] & ? & ?).
Qed.

(** The rewrite after the loop, when no cycle was closed in this call. *)
Lemma finish_plain rd ty c n pd s l chain deps :
  left_loop rd ty c n pd l ->
  marked_locals s -> tail_ok s (rev l) chain ->
  updates rd (apply_writes ty (prefix_assignments s (rev l) chain deps) rd)
  /\ rewritten c n pd
       (pick (dotted c n) (prefix_assignments s (rev l) chain deps) pd).
Proof.
  intros [Hok Hnd Hst] Hm Htl. set (ws := prefix_assignments _ _ _ _).
  assert (forall e r, (e, r) ∈ ws -> e ∈ l /\ built_for e r) as Hws.
  { intros e r Hin.
    apply prefix_assignments_built in Hin as [He Hb]; [|done..].
    split; [|done]. by apply elem_of_rev. }
  split.
  - apply apply_writes_updates; [apply updates_refl|].
    apply Forall_forall. intros [e r] [He Hb]%Hws.
    apply built_sound; [|done]. rewrite Forall_forall in Hok. auto.
  - destruct (pick_spec (dotted c n) ws pd) as [[_ Hall]|(e & r & Hin & Hf & ->)].
    + exfalso.
      destruct (prefix_assignments_all s (rev l) chain deps _ pd
                  (proj2 (elem_of_rev _ _) Hst) eq_refl) as [r Hr].
      rewrite Forall_forall in Hall. by apply (Hall _ Hr).
    + destruct (Hws _ _ Hin) as [He Hb].
      assert (e = mkElt (dotted c n) c n (Some pd) None) as ->
        by (by eapply fqcn_unique).
      by apply built_start.
Qed.

(** The same when the loop was left by closing a cycle at index [k]. *)
Lemma finish_cycle rd ty c n pd s k chain deps :
  walking rd ty c n pd s ->
  let s' := close_cycle ty (dotted c n) s k in
  let ws := prefix_assignments s' (rev (redirection_list s')) chain deps in
  updates rd (apply_writes ty ws (l_routing s'))
  /\ rewritten c n pd (pick (dotted c n) ws (l_plugin_data s')).
Proof.
  intros Hw. destruct (walking_left _ _ _ _ _ _ Hw) as [Hok Hnd Hst].
  intros s' ws. subst s' ws.
  pose proof (wk_routing _ _ _ _ _ _ Hw) as Hrd.
  pose proof (wk_pd _ _ _ _ _ _ Hw) as Hpd.
  unfold close_cycle. rewrite rewrite_loop_assignments. simpl.
  set (L := redirection_list s) in *.
  set (la := loop_assignments _ _ _ _ _).
  set (s' := mkLocals _ _ _ _ _ _ _ _ _ _ _).
  set (ws := prefix_assignments _ _ _ _).
  rewrite Hrd, Hpd.
  assert (marked_locals s') as Hm.
  { intros _. by unfold s'. }
  assert (forall e r, (e, r) ∈ la -> e ∈ L /\ built_for e r) as Hla.
  { intros e r Hin.
    apply (loop_assignments_built _ _ _ _ []) in Hin as [He Hb];
      [|by rewrite app_nil_r].
    split; [|done]. rewrite <- (take_drop k L). apply elem_of_app. by right. }
  assert (forall e r, (e, r) ∈ ws -> e ∈ L /\ built_for e r) as Hws.
  { intros e r Hin.
    apply prefix_assignments_built in Hin as [He Hb];
      [|exact Hm|by intros ?].
    split; [|done]. rewrite elem_of_rev in He.
    rewrite <- (take_drop k L). apply elem_of_app. left. exact He. }
  assert (forall (l : list (elt * PluginRouting)),
            (forall e r, (e, r) ∈ l -> e ∈ L /\ built_for e r) ->
            Forall (sound_write rd ty) l) as Hsound.
  { intros l Hl. apply Forall_forall. intros [e r] [He Hb]%Hl.
    apply built_sound; [|done]. rewrite Forall_forall in Hok. auto. }
  assert (forall (l : list (elt * PluginRouting)) e r,
            (forall e r, (e, r) ∈ l -> e ∈ L /\ built_for e r) ->
            (e, r) ∈ l -> e_fqcn e = dotted c n -> rewritten c n pd r) as Hst'.
  { intros l e r Hl Hin Hf. destruct (Hl _ _ Hin) as [He Hb].
    assert (e = mkElt (dotted c n) c n (Some pd) None) as ->
      by (by eapply fqcn_unique).
    by apply built_start. }
  split.
  - apply apply_writes_updates; [|by apply Hsound].
    apply apply_writes_updates; [apply updates_refl | by apply Hsound].
  - destruct (pick_spec (dotted c n) ws (pick (dotted c n) la pd))
      as [[-> Hall]|(e & r & Hin & Hf & ->)];
      [|exact (Hst' ws e r Hws Hin Hf)].
    destruct (pick_spec (dotted c n) la pd)
      as [[_ Hall']|(e & r & Hin & Hf & ->)];
      [|exact (Hst' la e r Hla Hin Hf)].
    exfalso. rewrite <- (take_drop k L) in Hst.
    rewrite Forall_forall in Hall, Hall'.
    apply elem_of_app in Hst as [Hst|Hst].
    + destruct (prefix_assignments_all s' (rev (take k L)) chain deps _ pd
                  (proj2 (elem_of_rev _ _) Hst) eq_refl) as [r Hr].
      by apply (Hall _ Hr).
    + destruct (loop_assignments_all
                  (redirect_deprecations_w_index (drop k L)) (Some circular) 0
                  (drop k L) (map e_fqcn (drop k L)) _ pd Hst eq_refl)
        as [r Hr].
      by apply (Hall' _ Hr).
Qed.

(** ** One call of [_complete_redirect] *)

Lemma _complete_redirect_post rd c ty n pd :
  complete_redirect_post rd c ty n pd (_complete_redirect rd c ty n pd).
Proof.
  unfold _complete_redirect.
  destruct (already_done pd) eqn:Hdone.
  { simpl. split; [apply updates_refl | by left]. }
  destruct (redirect pd) as [| |target] eqn:Hr;
    try (by unfold already_done in Hdone; rewrite Hr in Hdone).
  pose proof (walking_initial rd ty c n pd target) as Hw0.
  destruct (while_true_spec rd ty c n pd (walk_fuel rd ty) _ Hw0)
    as (s1 & Hw & Hres); [unfold walk_fuel; simpl; lia|].
  pose proof (loop_body_view ty (dotted c n) s1) as Hv.
  pose proof (wk_routing _ _ _ _ _ _ Hw) as Hrd.
  pose proof (wk_pd _ _ _ _ _ _ Hw) as Hpd.
  destruct (loop_body ty (dotted c n) s1) as [s'|s'|e] eqn:Hb; [done| |].
  - rewrite Hres. rewrite rewrite_prefix_assignments. simpl.
    enough (updates rd
              (apply_writes ty
                 (prefix_assignments s' (rev (redirection_list s'))
                    (l_chain s') (l_deprecations s')) (l_routing s'))
            /\ rewritten c n pd
                 (pick (dotted c n)
                    (prefix_assignments s' (rev (redirection_list s'))
                       (l_chain s') (l_deprecations s')) (l_plugin_data s')))
      as [? ?] by (split; [done | by right]).
    assert (forall l d t dd e, marked_locals (set_terminal s1 l d t dd e))
      as Hmt.
    { intros l d t dd e. unfold marked_locals. simpl.
      by rewrite (wk_loop _ _ _ _ _ _ Hw). }
    assert (forall t,
              e_fqcn t = next_name s1 ->
              tail_ok
                (set_terminal s1 (redirection_list s1 ++ [t])
                   (l_deprecations s1) (l_tombstone s1) (l_dead_end s1)
                   (l_error s1))
                (rev (redirection_list s1 ++ [t])) (l_chain s1)) as Htl.
    { intros t Ht _ _ _. simpl. split; [apply (wk_loop _ _ _ _ _ _ Hw)|].
      rewrite rev_involutive, (wk_chain _ _ _ _ _ _ Hw). simpl.
      rewrite app_nil_r, map_app. simpl. by rewrite last_snoc, Ht. }
    inversion Hv; subst s'.
    + by apply finish_cycle.
    + simpl. rewrite Hrd, Hpd. apply finish_plain; [|apply Hmt|done].
      by apply walking_left.
    + simpl. rewrite Hrd, Hpd. apply finish_plain; [|apply Hmt|done].
      by apply walking_left_app.
    + simpl. rewrite Hrd, Hpd. apply finish_plain; [|apply Hmt|by apply Htl].
      by apply walking_left_app.
    + simpl. rewrite Hrd, Hpd. apply finish_plain; [|apply Hmt|done].
      by apply walking_left.
    + simpl. rewrite Hrd, Hpd. apply finish_plain; [|apply Hmt|by apply Htl].
      by apply walking_left_app.
    + simpl. rewrite Hrd, Hpd. apply finish_plain.
      * by apply walking_left.
      * unfold marked_locals. simpl. done.
      * intros He Ht Hd. simpl in *. exfalso.
        match goal with
        | H : _ || _ || _ = true |- _ => rewrite Ht, Hd, !orb_false_r in H;
            apply bool_decide_eq_true in H
        end.
        done.
  - rewrite Hres. simpl. inversion Hv as
      [| Hin Hidx | | | | | | | ns cn pn p Hnin Hsp Hp Ht Hre Hfl |].
    + exfalso. apply index_of_None in Hidx. apply Hidx.
      by apply (wk_found _ _ _ _ _ _ Hw).
    + split; [done|]. split; [done|]. rewrite Hrd in Hp.
      exists (dotted ns cn), pn, p. split; [done|].
      intros Hm. specialize (Hm Hre). congruence.
Qed.

(** ** The drivers *)

Lemma driver_post_impl rd (Q Q' : catalog -> Prop) o :
  (forall rd', updates rd rd' -> Q rd' -> Q' rd') ->
  driver_post rd Q o -> driver_post rd Q' o.
Proof. destruct o; simpl; [|done..]. intros H [? ?]. auto. Qed.

Lemma for_each_post {A : Type} (body : A -> catalog -> outcome unit)
    (Pre Q : A -> catalog -> Prop) (l : list A) (rd : catalog) :
  (forall x rd1 rd2, Pre x rd1 -> updates rd1 rd2 -> Pre x rd2) ->
  (forall x rd1 rd2, Q x rd1 -> updates rd1 rd2 -> Q x rd2) ->
  (forall x rd1, Pre x rd1 -> driver_post rd1 (Q x) (body x rd1)) ->
  (forall x, x ∈ l -> Pre x rd) ->
  driver_post rd (fun rd' => forall x, x ∈ l -> Q x rd') (for_each body l rd).
Proof.
  intros HPre HQ Hbody. revert rd.
  induction l as [|x l IH]; intros rd Hl; simpl.
  { split; [apply updates_refl|]. by intros x ?%elem_of_nil. }
  pose proof (Hbody x rd (Hl x (list_elem_of_here _ _))) as Hx.
  destruct (body x rd) as [[] rd1|e rd1|]; simpl in Hx; [|done..].
  destruct Hx as [Hu Hq].
  assert (forall y, y ∈ l -> Pre y rd1) as Hl1.
  { intros y Hy. eapply HPre; [|exact Hu]. apply Hl. by apply list_elem_of_further. }
  specialize (IH rd1 Hl1).
  destruct (for_each body l rd1) as [[] rd2|e rd2|]; simpl in *; [| |done].
  - destruct IH as [Hu2 Hq2]. split; [by eapply updates_trans|].
    intros y [->|Hy]%elem_of_cons; [by eapply HQ | auto].
  - destruct IH as (-> & Hu2 & Hun). split; [done|].
    split; [by eapply updates_trans | done].
Qed.

Lemma rewritten_done c n p p' : rewritten c n p p' -> already_done p' = true.
Proof.
  intros [(_ & [rest Hc] & _) _]. unfold already_done. rewrite Hc.
  by destruct (redirect p').
Qed.

Lemma done_at_updates c ty n rd rd' :
  done_at c ty n rd -> updates rd rd' -> done_at c ty n rd'.
Proof.
  intros (p & Hp & Hd) [_ Hu]. destruct (Hu _ _ _ _ Hp) as (p' & Hp' & Hr).
  exists p'. split; [done|]. destruct Hr as [->|Hr]; [done|].
  by eapply rewritten_done.
Qed.

Lemma has_plugin_updates c ty n rd rd' :
  is_Some (lookup_plugin rd c ty n) -> updates rd rd' ->
  is_Some (lookup_plugin rd' c ty n).
Proof. intros H [Hs _]. by eapply shape_lookup. Qed.

Lemma has_map_updates c ty rd rd' :
  is_Some (plugin_map rd c ty) -> updates rd rd' ->
  is_Some (plugin_map rd' c ty).
Proof.
  intros [m Hm] [Hs _]. pose proof (shape_plugin_map _ _ c ty Hs) as H.
  rewrite Hm in H. destruct (plugin_map rd' c ty); [eauto | done].
Qed.

Lemma complete_plugin_post c ty n rd :
  is_Some (lookup_plugin rd c ty n) ->
  driver_post rd (done_at c ty n) (complete_plugin c ty n rd).
Proof.
  intros [pd Hpd]. unfold complete_plugin. rewrite Hpd.
  pose proof (_complete_redirect_post rd c ty n pd) as Hpost.
  destruct (_complete_redirect rd c ty n pd) as [pd' rd'|e rd'|];
    simpl in *; [| |done].
  - destruct Hpost as [Hu [(Hd & -> & ->)|[Hd Hr]]].
    + rewrite store_plugin_same by done.
      split; [done|]. by exists pd.
    + destruct Hu as [Hs Hu]. destruct (Hu _ _ _ _ Hpd) as (p1 & Hp1 & Hr1).
      split.
      * eapply updates_trans; [by split|].
        eapply updates_store; [exact Hp1|]. right.
        destruct Hr1 as [->|[_ Hown1]]; [done|]. destruct Hr as [Hr Hown].
        split; [done|].
        eapply same_own_trans; [|exact Hown]. by apply same_own_sym.
      * exists pd'. split; [|by eapply rewritten_done].
        apply lookup_store_eq. apply lookup_plugin_map in Hp1 as (? & -> & _).
        eauto.
  - destruct Hpost as (-> & -> & Hun). split; [done|].
    split; [apply updates_refl | eauto].
Qed.

Lemma type_done_updates c ty rd rd' :
  type_done c ty rd -> updates rd rd' -> type_done c ty rd'.
Proof.
  intros Hd Hu n p' Hp'.
  assert (is_Some (lookup_plugin rd c ty n)) as [p Hp].
  { destruct Hu as [Hs _]. eapply shape_lookup; [exact Hs | eauto]. }
  destruct (done_at_updates c ty n rd rd') as (p1 & Hp1 & Hd1);
    [exists p; eauto | done | congruence].
Qed.

Lemma complete_type_post c ty rd :
  is_Some (plugin_map rd c ty) ->
  driver_post rd (type_done c ty) (complete_type c ty rd).
Proof.
  intros [prd Hm]. unfold complete_type. rewrite Hm.
  eapply driver_post_impl;
    [|apply (for_each_post (complete_plugin c ty)
               (fun n rd => is_Some (lookup_plugin rd c ty n))
               (fun n rd => done_at c ty n rd))].
  - intros rd' Hu Hall n p' Hp'.
    assert (n ∈ dict_keys prd) as Hn.
    { destruct Hu as [Hs _].
      assert (is_Some (lookup_plugin rd c ty n)) as Hp
        by (eapply shape_lookup; [exact Hs | eauto]).
      unfold lookup_plugin in Hp. rewrite Hm in Hp.
      by apply list_elem_of_In, dict_get_keys. }
    destruct (Hall n Hn) as (p1 & Hp1 & Hd1). congruence.
  - intros. by eapply has_plugin_updates.
  - intros. by eapply done_at_updates.
  - intros. by apply complete_plugin_post.
  - intros n Hn. unfold lookup_plugin. rewrite Hm.
    by apply dict_get_keys, list_elem_of_In.
Qed.

Lemma complete_redirects_for_collection_post rd c :
  driver_post rd (collection_done c) (complete_redirects_for_collection rd c).
Proof.
  unfold complete_redirects_for_collection.
  destruct (dict_get rd c) as [cr|] eqn:Hc.
  - eapply driver_post_impl;
      [|apply (for_each_post (complete_type c)
                 (fun ty rd => is_Some (plugin_map rd c ty))
                 (fun ty rd => type_done c ty rd))].
    + intros rd' Hu Hall ty n p' Hp'.
      assert (ty ∈ dict_keys (plugin_data cr)) as Hty.
      { destruct Hu as [Hs _].
        assert (is_Some (lookup_plugin rd c ty n)) as [p Hp]
          by (eapply shape_lookup; [exact Hs | eauto]).
        apply lookup_plugin_map in Hp as (m & Hm & _).
        unfold plugin_map in Hm. rewrite Hc in Hm.
        apply list_elem_of_In, dict_get_keys. eauto. }
      by eapply Hall.
    + intros. by eapply has_map_updates.
    + intros. by eapply type_done_updates.
    + intros. by apply complete_type_post.
    + intros ty Hty. unfold plugin_map. rewrite Hc.
      by apply dict_get_keys, list_elem_of_In.
  - simpl. split; [apply updates_refl|].
    intros ty n p Hp. unfold lookup_plugin, plugin_map in Hp.
    by rewrite Hc in Hp.
Qed.

Lemma complete_redirects_post rd :
  driver_post rd all_done (complete_redirects rd).
Proof.
  unfold complete_redirects.
  eapply driver_post_impl;
    [|apply (for_each_post
               (fun c rd => complete_redirects_for_collection rd c)
               (fun _ _ => True)
               (fun c rd => collection_done c rd))].
  - intros rd' Hu Hall c ty n p' Hp'.
    assert (c ∈ dict_keys rd) as Hcin.
    { destruct Hu as [Hs _].
      assert (is_Some (lookup_plugin rd c ty n)) as [p Hp]
        by (eapply shape_lookup; [exact Hs | eauto]).
      apply lookup_plugin_map in Hp as (m & Hm & _).
      unfold plugin_map in Hm.
      destruct (dict_get rd c) eqn:Hc; [|done].
      apply list_elem_of_In, dict_get_keys. eauto. }
    by eapply Hall.
  - done.
  - intros c rd1 rd2 Hd Hu ty. by eapply type_done_updates.
  - intros. apply complete_redirects_for_collection_post.
  - done.
Qed.

(** ** A second run *)

Lemma for_each_noop {A : Type} (body : A -> catalog -> outcome unit) l rd :
  (forall x, x ∈ l -> body x rd = Returned tt rd) ->
  for_each body l rd = Returned tt rd.
Proof.
  induction l as [|x l IH]; intros H; simpl; [done|].
  rewrite (H x) by apply list_elem_of_here.
  apply IH. intros y Hy. apply H. by apply list_elem_of_further.
Qed.

(** A loop that raised raises again, in the same way, when it is run on
    the catalog it left. *)
Lemma for_each_raise {A : Type} (body : A -> catalog -> outcome unit)
    (Pre Q : A -> catalog -> Prop) (l : list A) :
  (forall x rd1 rd2, Pre x rd1 -> updates rd1 rd2 -> Pre x rd2) ->
  (forall x rd1 rd2, Q x rd1 -> updates rd1 rd2 -> Q x rd2) ->
  (forall x rd1, Pre x rd1 -> driver_post rd1 (Q x) (body x rd1)) ->
  (forall x rd, Pre x rd -> Q x rd -> body x rd = Returned tt rd) ->
  (forall x rd e rd', Pre x rd -> body x rd = Raised e rd' ->
                      body x rd' = Raised e rd') ->
  forall rd e rd', (forall x, x ∈ l -> Pre x rd) ->
    for_each body l rd = Raised e rd' -> for_each body l rd' = Raised e rd'.
Proof.
  intros HPre HQ Hbody Hnoop Hraise.
  induction l as [|x l IH]; intros rd e rd' Hl; simpl; [done|].
  pose proof (Hbody x rd (Hl x (list_elem_of_here _ _))) as Hx.
  destruct (body x rd) as [[] rd1|e1 rd1|] eqn:Hb; simpl in Hx; [| |done].
  - destruct Hx as [Hu Hq]. intros Hf.
    assert (forall y, y ∈ l -> Pre y rd1) as Hl1.
    { intros y Hy. eapply HPre; [|exact Hu]. apply Hl.
      by apply list_elem_of_further. }
    pose proof (for_each_post body Pre Q l rd1 HPre HQ Hbody Hl1) as Hp.
    rewrite Hf in Hp. destruct Hp as (_ & Hu1 & _).
    rewrite (Hnoop x rd').
    + by apply (IH rd1).
    + eapply HPre; [|exact Hu1]. eapply HPre; [|exact Hu].
      apply Hl, list_elem_of_here.
    + by eapply HQ.
  - intros [= -> ->]. rewrite (Hraise x rd e rd'); [done| |done].
    apply Hl, list_elem_of_here.
Qed.

Lemma complete_plugin_noop c ty n rd :
  done_at c ty n rd -> complete_plugin c ty n rd = Returned tt rd.
Proof.
  intros (p & Hp & Hd). unfold complete_plugin, _complete_redirect.
  rewrite Hp, Hd. by rewrite store_plugin_same.
Qed.

Lemma complete_plugin_raise c ty n rd e rd' :
  complete_plugin c ty n rd = Raised e rd' ->
  complete_plugin c ty n rd' = Raised e rd'.
Proof.
  unfold complete_plugin.
  destruct (lookup_plugin rd c ty n) as [pd|] eqn:Hp.
  - pose proof (_complete_redirect_post rd c ty n pd) as Hpost.
    destruct (_complete_redirect rd c ty n pd) as [pd' rd1|e1 rd1|] eqn:Hc;
      simpl in Hpost; [done| |done].
    destruct Hpost as (-> & -> & _). intros [= <- <-]. by rewrite Hp, Hc.
  - intros [= <- <-]. by rewrite Hp.
Qed.

Lemma updates_map_keys rd rd' c ty prd :
  updates rd rd' -> plugin_map rd c ty = Some prd ->
  exists prd', plugin_map rd' c ty = Some prd'
               /\ dict_keys prd' = dict_keys prd.
Proof.
  intros [Hs _] Hm. pose proof (shape_plugin_map _ _ c ty Hs) as H.
  rewrite Hm in H. destruct (plugin_map rd' c ty) as [prd'|]; [|done].
  injection H as H. eauto.
Qed.

Lemma type_done_at c ty rd n :
  type_done c ty rd -> is_Some (lookup_plugin rd c ty n) -> done_at c ty n rd.
Proof. intros Hd [p Hp]. exists p. eauto. Qed.

Lemma complete_type_noop c ty rd :
  is_Some (plugin_map rd c ty) -> type_done c ty rd ->
  complete_type c ty rd = Returned tt rd.
Proof.
  intros [prd Hm] Hd. unfold complete_type. rewrite Hm.
  apply for_each_noop. intros n Hn. apply complete_plugin_noop.
  apply type_done_at; [done|]. unfold lookup_plugin. rewrite Hm.
  by apply dict_get_keys, list_elem_of_In.
Qed.

Lemma complete_type_raise c ty rd e rd' :
  is_Some (plugin_map rd c ty) ->
  complete_type c ty rd = Raised e rd' ->
  complete_type c ty rd' = Raised e rd'.
Proof.
  intros [prd Hm] Hr.
  pose proof (complete_type_post c ty rd (ex_intro _ prd Hm)) as Hp.
  rewrite Hr in Hp. destruct Hp as (_ & Hu & _).
  destruct (updates_map_keys _ _ _ _ _ Hu Hm) as (prd' & Hm' & Hk).
  unfold complete_type in *. rewrite Hm in Hr. rewrite Hm', Hk.
  eapply (for_each_raise (complete_plugin c ty)
            (fun n rd => is_Some (lookup_plugin rd c ty n))
            (fun n rd => done_at c ty n rd)); [..|exact Hr].
  - intros. by eapply has_plugin_updates.
  - intros. by eapply done_at_updates.
  - intros. by apply complete_plugin_post.
  - intros. by apply complete_plugin_noop.
  - intros n0 rd0 e0 rd1 _ H0. exact (complete_plugin_raise _ _ _ _ _ _ H0).
  - intros n Hn. unfold lookup_plugin. rewrite Hm.
    by apply dict_get_keys, list_elem_of_In.
Qed.

Lemma complete_redirects_for_collection_noop rd c :
  collection_done c rd ->
  complete_redirects_for_collection rd c = Returned tt rd.
Proof.
  intros Hd. unfold complete_redirects_for_collection.
  destruct (dict_get rd c) as [cr|] eqn:Hc; [|done].
  apply for_each_noop. intros ty Hty. apply complete_type_noop; [|done].
  unfold plugin_map. rewrite Hc. by apply dict_get_keys, list_elem_of_In.
Qed.

Lemma complete_redirects_for_collection_raise rd c e rd' :
  complete_redirects_for_collection rd c = Raised e rd' ->
  complete_redirects_for_collection rd' c = Raised e rd'.
Proof.
  intros Hr.
  pose proof (complete_redirects_for_collection_post rd c) as Hp.
  rewrite Hr in Hp. destruct Hp as (_ & [Hs Hu] & _).
  unfold complete_redirects_for_collection in *.
  destruct (dict_get rd c) as [cr|] eqn:Hc; [|done].
  destruct (shape_get rd rd' c (eq_sym Hs) (ex_intro _ cr Hc)) as [cr' Hc'].
  rewrite Hc', <- (shape_type_keys _ _ _ _ _ (eq_sym Hs) Hc Hc').
  eapply (for_each_raise (complete_type c)
            (fun ty rd => is_Some (plugin_map rd c ty))
            (fun ty rd => type_done c ty rd)); [..|exact Hr].
  - intros. by eapply has_map_updates.
  - intros. by eapply type_done_updates.
  - intros. by apply complete_type_post.
  - intros. by apply complete_type_noop.
  - intros ty0 rd0 e0 rd1 Hpre H0.
    exact (complete_type_raise _ _ _ _ _ Hpre H0).
  - intros ty Hty. unfold plugin_map. rewrite Hc.
    by apply dict_get_keys, list_elem_of_In.
Qed.

Lemma complete_redirects_noop rd :
  all_done rd -> complete_redirects rd = Returned tt rd.
Proof.
  intros Hd. unfold complete_redirects. apply for_each_noop.
  intros c _. apply complete_redirects_for_collection_noop.
  intros ty n p. apply Hd.
Qed.

Lemma complete_redirects_raise rd e rd' :
  complete_redirects rd = Raised e rd' ->
  complete_redirects rd' = Raised e rd'.
Proof.
  intros Hr. pose proof (complete_redirects_post rd) as Hp.
  rewrite Hr in Hp. destruct Hp as (_ & [Hs Hu] & _).
  unfold complete_redirects in *. rewrite (shape_keys _ _ Hs).
  eapply (for_each_raise
            (fun c rd => complete_redirects_for_collection rd c)
            (fun _ _ => True) (fun c rd => collection_done c rd));
    [..|exact Hr]; try done.
  - intros c rd1 rd2 Hd Hu' ty. by eapply type_done_updates.
  - intros. apply complete_redirects_for_collection_post.
  - intros. by apply complete_redirects_for_collection_noop.
  - intros c0 rd0 e0 rd1 _ H0.
    exact (complete_redirects_for_collection_raise _ _ _ _ H0).
Qed.

(** ** Catalogs on which the resolver never raises *)

Lemma all_marked_updates rd rd' :
  all_marked rd -> updates rd rd' -> all_marked rd'.
Proof.
  intros Hm [Hs Hu] c ty n p' Hp'.
  destruct (shape_lookup rd' rd c ty n Hs) as [p Hp]; [eauto|].
  destruct (Hu _ _ _ _ Hp) as (p1 & Hp1 & Hr).
  assert (p1 = p') as -> by congruence.
  destruct Hr as [->|[(_ & _ & Hmk & _) _]]; [by eapply Hm | done].
Qed.

Lemma complete_redirects_returns rd :
  all_marked rd -> exists rd', complete_redirects rd = Returned tt rd'.
Proof.
  intros Hm. pose proof (complete_redirects_post rd) as Hp.
  destruct (complete_redirects rd) as [[] rd'|e rd'|]; simpl in Hp;
    [eauto | | done].
  destruct Hp as (_ & Hu & ty & c & n & p & Hp & Hn). exfalso. apply Hn.
  by eapply (all_marked_updates rd rd').
Qed.

Lemma hop_inv rd ty name e target :
  hop rd ty name = Some (e, target) ->
  exists ns cn pn p,
    str_split 2 name = [ns; cn; pn] /\
    lookup_plugin rd (dotted ns cn) ty pn = Some p /\
    tombstone p = None /\ redirect p = RStr target /\
    bool_decide (redirect_error p <> None)
      || redirect_tombstone p || redirect_dead_end p = false /\
    e = mkElt name (dotted ns cn) pn (Some p) (Some (dotted ns cn)).
Proof.
  unfold hop.
  destruct (str_split 2 name) as [|ns [|cn [|pn [|? ?]]]]; try done.
  destruct (lookup_plugin _ _ _ _) as [p|] eqn:Hp; [|done].
  destruct (tombstone p) eqn:Ht; [done|].
  destruct (redirect p) as [| |tg] eqn:Hr; try done.
  destruct (_ || _ || _) eqn:Hf; [done|].
  intros [= <- <-]. by exists ns, cn, pn, p.
Qed.

(** The cases of [loop_body], read forwards. *)
Section Forward.
Context (rd : catalog) (ty : PluginType) (c n : string)
        (pd : PluginRouting) (s : locals).
Hypothesis Hw : walking rd ty c n pd s.
Hypothesis Hnew : next_name s ∉ map e_fqcn (redirection_list s).

Local Lemma not_found : next_name s ∉ found_names s.
Proof using Hw Hnew. by rewrite (wk_found _ _ _ _ _ _ Hw). Qed.

Local Ltac by_view :=
  pose proof not_found as Hnf;
  pose proof (wk_routing _ _ _ _ _ _ Hw) as Hrd;
  pose proof (loop_body_view ty (dotted c n) s) as Hv;
  inversion Hv; subst; try done;
  repeat match goal with
    | H : forall ns cn pn, str_split 2 _ <> _ |- _ =>
        exfalso; eapply H; eassumption
    | H1 : str_split 2 ?x = _, H2 : str_split 2 ?x = _ |- _ =>
        rewrite H1 in H2; injection H2 as <- <- <-
    | H1 : lookup_plugin ?a ?b ?cc ?d = _,
      H2 : lookup_plugin ?a ?b ?cc ?d = _ |- _ =>
        rewrite H1 in H2; first [discriminate H2 | injection H2 as <-]
    | H : is_Some (dict_get ?a ?b), H' : dict_get ?a ?b = None |- _ =>
        rewrite H' in H; by destruct H
    end;
  try congruence.

Lemma step_hop e target :
  hop rd ty (next_name s) = Some (e, target) ->
  loop_body ty (dotted c n) s = Continue (advance s e target).
Proof using Hw Hnew.
  intros (ns & cn & pn & p & Hsp & Hp & Ht & Hr & Hf & ->)%hop_inv.
  by_view.
  all: try (rewrite Hf in *; congruence).
  all: try (unfold lookup_plugin, plugin_map in Hp;
            match goal with H : dict_get _ _ = None |- _ =>
              rewrite H in Hp end; done).
Qed.

Lemma step_non_fqcn :
  (forall ns cn pn, str_split 2 (next_name s) <> [ns; cn; pn]) ->
  loop_body ty (dotted c n) s
  = Break (set_terminal s (redirection_list s) (l_deprecations s)
             (l_tombstone s) true (Some (non_fqcn (next_name s)))).
Proof using Hw Hnew.
  intros Hsp. by_view.
  all: exfalso; eapply Hsp; eassumption.
Qed.

Lemma step_unknown ns cn pn :
  str_split 2 (next_name s) = [ns; cn; pn] ->
  dict_get rd (dotted ns cn) = None ->
  loop_body ty (dotted c n) s
  = Break (set_terminal s
             (redirection_list s
              ++ [mkElt (next_name s) (dotted ns cn) pn None None])
             (l_deprecations s) (l_tombstone s) true
             (Some (unknown_collection (dotted ns cn)))).
Proof using Hw Hnew.
  intros Hsp Hc. by_view.
  all: try (unfold lookup_plugin, plugin_map in *;
            rewrite Hc in *; done).
Qed.

Lemma step_tombstone ns cn pn p tomb :
  str_split 2 (next_name s) = [ns; cn; pn] ->
  lookup_plugin rd (dotted ns cn) ty pn = Some p ->
  tombstone p = Some tomb ->
  loop_body ty (dotted c n) s
  = Break (set_terminal s (redirection_list s)
             (Some [(next_name s, tomb)]) true (l_dead_end s)
             (l_error s)).
Proof using Hw Hnew.
  intros Hsp Hp Ht. by_view.
  all: try (unfold lookup_plugin, plugin_map in Hp;
            match goal with H : dict_get _ _ = None |- _ =>
              rewrite H in Hp end; done).
Qed.

Lemma step_absent ns cn pn :
  str_split 2 (next_name s) = [ns; cn; pn] ->
  is_Some (dict_get rd (dotted ns cn)) ->
  lookup_plugin rd (dotted ns cn) ty pn = None ->
  loop_body ty (dotted c n) s
  = Break (set_terminal s
             (redirection_list s
              ++ [mkElt (next_name s) (dotted ns cn) pn None None])
             (l_deprecations s) (l_tombstone s) (l_dead_end s)
             (l_error s)).
Proof using Hw Hnew.
  intros Hsp Hc Hp. by_view.
Qed.

Lemma step_terminal ns cn pn p :
  str_split 2 (next_name s) = [ns; cn; pn] ->
  lookup_plugin rd (dotted ns cn) ty pn = Some p ->
  tombstone p = None -> redirect p = RNone ->
  loop_body ty (dotted c n) s
  = Break (set_terminal s
             (redirection_list s
              ++ [mkElt (next_name s) (dotted ns cn) pn (Some p) None])
             (l_deprecations s) (l_tombstone s) (l_dead_end s)
             (l_error s)).
Proof using Hw Hnew.
  intros Hsp Hp Ht Hr. by_view.
  all: try (unfold lookup_plugin, plugin_map in Hp;
            match goal with H : dict_get _ _ = None |- _ =>
              rewrite H in Hp end; done).
Qed.

Lemma step_reuse ns cn pn p :
  str_split 2 (next_name s) = [ns; cn; pn] ->
  lookup_plugin rd (dotted ns cn) ty pn = Some p ->
  tombstone p = None -> redirect p <> RNone ->
  bool_decide (redirect_error p <> None)
    || redirect_tombstone p || redirect_dead_end p = true ->
  loop_body ty (dotted c n) s = Break (reuse s p).
Proof using Hw Hnew.
  intros Hsp Hp Ht Hr Hf. by_view.
  all: try (unfold lookup_plugin, plugin_map in Hp;
            match goal with H : dict_get _ _ = None |- _ =>
              rewrite H in Hp end; done).
Qed.

Lemma step_assert ns cn pn p :
  str_split 2 (next_name s) = [ns; cn; pn] ->
  lookup_plugin rd (dotted ns cn) ty pn = Some p ->
  tombstone p = None -> redirect p = REllipsis ->
  bool_decide (redirect_error p <> None)
    || redirect_tombstone p || redirect_dead_end p = false ->
  loop_body ty (dotted c n) s = Raise AssertionError.
Proof using Hw Hnew.
  intros Hsp Hp Ht Hr Hf. by_view.
  all: try (unfold lookup_plugin, plugin_map in Hp;
            match goal with H : dict_get _ _ = None |- _ =>
              rewrite H in Hp end; done).
Qed.
End Forward.

Lemma step_cycle rd ty c n pd s k :
  walking rd ty c n pd s ->
  index_of (next_name s) (redirection_list s) = Some k ->
  loop_body ty (dotted c n) s = Break (close_cycle ty (dotted c n) s k).
Proof.
  intros Hw Hk. unfold loop_body.
  rewrite bool_decide_true, Hk; [done|].
  apply (wk_found _ _ _ _ _ _ Hw).
  destruct (index_of_Some _ _ _ Hk) as (e & Hl & <- & _).
  apply list_elem_of_fmap. exists e. split; [done|].
  by eapply list_elem_of_lookup_2.
Qed.

(** ** More fuel changes nothing *)

Lemma while_true_agree ty fqcn f1 f2 s :
  while_true f1 ty fqcn s <> OutOfFuel ->
  while_true f2 ty fqcn s <> OutOfFuel ->
  while_true f1 ty fqcn s = while_true f2 ty fqcn s.
Proof.
  revert f2 s. induction f1 as [|f1 IH]; intros [|f2] s; simpl; try done.
  destruct (loop_body ty fqcn s); [apply IH | done..].
Qed.

(** Following a trail takes one turn for each hop. *)
Lemma trail_walk rd ty c n pd k s es t :
  walking rd ty c n pd s ->
  trail rd ty k (next_name s) = Some (es, t) ->
  NoDup (map e_fqcn (redirection_list s) ++ map e_fqcn es) ->
  exists s', walking rd ty c n pd s'
    /\ redirection_list s' = redirection_list s ++ es
    /\ next_name s' = t
    /\ forall fuel, while_true (k + fuel) ty (dotted c n) s
                    = while_true fuel ty (dotted c n) s'.
Proof.
  revert s es. induction k as [|k IH]; intros s es Hw; simpl.
  { intros [= <- <-] _. exists s. by rewrite app_nil_r. }
  destruct (hop rd ty (next_name s)) as [[e target]|] eqn:Hh; [|done].
  destruct (trail rd ty k target) as [[es' t']|] eqn:Ht; [|done].
  intros [= <- <-] Hnd.
  destruct (hop_inv _ _ _ _ _ Hh) as (ns & cn & pn & p & Hsp & Hp & _ & _ & _ & He).
  assert (next_name s ∉ map e_fqcn (redirection_list s)) as Hnew.
  { apply NoDup_app in Hnd as (_ & Hd & _). intros Hin. apply (Hd _ Hin).
    subst e. simpl. apply list_elem_of_here. }
  pose proof (step_hop rd ty c n pd s Hw Hnew e target Hh) as Hstep.
  assert (walking rd ty c n pd (advance s e target)) as Hw'.
  { subst e. eapply walking_advance; try done.
    - by rewrite (wk_found _ _ _ _ _ _ Hw).
    - by rewrite (wk_routing _ _ _ _ _ _ Hw). }
  destruct (IH (advance s e target) es' Hw' Ht) as (s' & Hws' & Hl & Hn & Hf).
  { simpl. rewrite map_app, <- app_assoc. exact Hnd. }
  exists s'. split; [done|]. split; [by rewrite Hl; simpl; rewrite <- app_assoc|].
  split; [done|]. intros fuel. rewrite Hstep. apply Hf.
Qed.

(** ** The records of the rewrite after the loop, exactly *)

Lemma own_deprecations_app l1 l2 :
  own_deprecations (l1 ++ l2) = own_deprecations l1 ++ own_deprecations l2.
Proof. apply omap_app. Qed.

Lemma prefix_deps_snoc l x d :
  prefix_deps (l ++ [x]) d
  = prefix_deps l
      (match own_deprecation x with
       | Some xd => Some (xd :: or_empty d)
       | None => d
       end).
Proof.
  unfold prefix_deps. rewrite own_deprecations_app.
  unfold own_deprecations at 2. simpl.
  destruct (own_deprecation x) as [xd|]; simpl.
  - destruct (own_deprecations l) as [|y ys]; simpl; [done|].
    by rewrite <- app_assoc.
  - by rewrite app_nil_r.
Qed.

Lemma prefix_assignments_In s L ch d i e p :
  L !! i = Some e -> e_data e = Some p ->
  (e, prefix_record p s (map e_fqcn (drop i L) ++ or_empty ch)
        (prefix_deps (drop i L) d))
  ∈ prefix_assignments s (rev L) ch d.
Proof.
  revert ch d i. induction L as [|x L' IH] using rev_ind; intros ch d i;
    [done|].
  intros Hi Hd. rewrite rev_unit. simpl.
  assert (match e_data x with
          | Some ppd =>
              match deprecation ppd with
              | Some dp => Some ((e_fqcn x, dp) :: or_empty d)
              | None => d
              end
          | None => d
          end
          = match own_deprecation x with
            | Some xd => Some (xd :: or_empty d)
            | None => d
            end) as Hdx.
  { unfold own_deprecation. destruct (e_data x) as [px|]; [|done].
    by destruct (deprecation px). }
  destruct (decide (i < length L')) as [Hlt|Hge].
  - rewrite lookup_app_l in Hi by done.
    rewrite drop_app_le by lia. rewrite map_app, <- app_assoc.
    rewrite prefix_deps_snoc, <- Hdx. simpl.
    specialize (IH (Some (e_fqcn x :: or_empty ch))).
    destruct (e_data x) as [px|] eqn:Hx.
    + apply list_elem_of_further. by apply IH.
    + by apply IH.
  - assert (i = length L') as ->.
    { apply lookup_lt_Some in Hi. rewrite length_app in Hi. simpl in Hi. lia. }
    rewrite list_lookup_middle in Hi by done. injection Hi as ->.
    rewrite drop_app_length. rewrite Hd.
    unfold prefix_deps, own_deprecations. simpl.
    unfold own_deprecation. rewrite Hd.
    destruct (deprecation p); apply list_elem_of_here.
Qed.

Lemma prefix_assignments_sublist s rl ch d :
  sublist (map (fun w => e_fqcn w.1) (prefix_assignments s rl ch d))
          (map e_fqcn rl).
Proof.
  revert ch d. induction rl as [|e rl IH]; intros ch d; simpl; [done|].
  destruct (e_data e); simpl.
  - apply sublist_skip, IH.
  - apply sublist_cons, IH.
Qed.

Lemma loop_assignments_sublist w err idx loop chain :
  sublist (map (fun w => e_fqcn w.1) (loop_assignments w err idx loop chain))
          (map e_fqcn loop).
Proof.
  revert idx chain. induction loop as [|e rl IH]; intros idx chain; simpl;
    [done|].
  destruct (e_data e); simpl.
  - apply sublist_skip, IH.
  - apply sublist_cons, IH.
Qed.

(** ** Reading the catalog after a list of writes *)

Lemma linked_has rd0 rd ty e :
  shape rd = shape rd0 -> linked rd0 ty e ->
  is_Some (lookup_plugin rd (e_coll e) ty (e_name e)).
Proof.
  intros Hs (_ & _ & Hsome & Hl). eapply shape_lookup; [symmetry; exact Hs|].
  by rewrite <- Hl.
Qed.

Lemma apply_writes_shape rd0 ty ws rd :
  shape rd = shape rd0 -> Forall (fun w => elt_ok rd0 ty w.1) ws ->
  shape (apply_writes ty ws rd) = shape rd0.
Proof.
  revert rd. induction ws as [|[e r] ws IH]; intros rd Hs Hok; simpl; [done|].
  apply Forall_cons in Hok as [He Hok]. apply IH; [|done].
  rewrite owner_store_shape; [done|]. intros c Hc. simpl in He.
  destruct He as [?|Hl]; [congruence|].
  pose proof (linked_has _ _ _ _ Hs Hl) as H. destruct Hl as (_ & Ho & _).
  congruence.
Qed.

(** Writes go to the plugins named by the elements that have an owner. *)
Lemma apply_writes_other rd0 ty ws rd c ty' n :
  shape rd = shape rd0 -> Forall (fun w => elt_ok rd0 ty w.1) ws ->
  (ty' = ty -> dotted c n ∉ map (fun w => e_fqcn w.1) ws) ->
  lookup_plugin (apply_writes ty ws rd) c ty' n = lookup_plugin rd c ty' n.
Proof.
  revert rd. induction ws as [|[e r] ws IH]; intros rd Hs Hok Hn; simpl;
    [done|].
  apply Forall_cons in Hok as [He Hok]. simpl in He.
  rewrite IH; [| |done|].
  - destruct He as [Ho|Hl]; [by rewrite Ho|].
    pose proof (linked_has _ _ _ _ Hs Hl) as H.
    destruct Hl as (Hf & Ho & _). rewrite Ho, owner_store_Some by done.
    apply lookup_store_ne. intros [= <- <- <-]. apply Hn; [done|].
    simpl. rewrite Hf. apply list_elem_of_here.
  - rewrite owner_store_shape; [done|]. intros c0 Hc.
    destruct He as [?|Hl]; [congruence|].
    pose proof (linked_has _ _ _ _ Hs Hl) as H. destruct Hl as (_ & Ho & _).
    congruence.
  - intros Hty Hin. apply Hn; [done|]. simpl. by apply list_elem_of_further.
Qed.

Lemma apply_writes_lookup rd0 ty ws rd e r :
  shape rd = shape rd0 -> Forall (fun w => elt_ok rd0 ty w.1) ws ->
  NoDup (map (fun w => e_fqcn w.1) ws) ->
  (e, r) ∈ ws -> linked rd0 ty e ->
  lookup_plugin (apply_writes ty ws rd) (e_coll e) ty (e_name e) = Some r.
Proof.
  revert rd. induction ws as [|[e0 r0] ws IH]; intros rd Hs Hok Hnd Hin Hl;
    simpl; [by apply elem_of_nil in Hin|].
  apply Forall_cons in Hok as [He0 Hok]. simpl in He0, Hnd.
  apply NoDup_cons in Hnd as [Hnin Hnd].
  assert (shape (owner_store rd ty (e_owner e0) (e_name e0) r0) = shape rd0)
    as Hs'.
  { rewrite owner_store_shape; [done|]. intros c0 Hc.
    destruct He0 as [?|Hl0]; [congruence|].
    pose proof (linked_has _ _ _ _ Hs Hl0) as H. destruct Hl0 as (_ & Ho & _).
    congruence. }
  apply elem_of_cons in Hin as [[= -> ->]|Hin].
  - rewrite (apply_writes_other rd0); [|done|done|].
    + pose proof (linked_has _ _ _ _ Hs Hl) as H.
      destruct Hl as (_ & Ho & _). rewrite Ho, owner_store_Some by done.
      apply lookup_store_eq. destruct H as [p Hp].
      apply lookup_plugin_map in Hp as (? & -> & _). eauto.
    + intros _. destruct Hl as (<- & _). done.
  - by apply IH.
Qed.

Lemma writes_functional (ws : list (elt * PluginRouting)) e r e' r' :
  NoDup (map (fun w => e_fqcn w.1) ws) ->
  (e, r) ∈ ws -> (e', r') ∈ ws -> e_fqcn e = e_fqcn e' -> r = r'.
Proof.
  induction ws as [|[e0 r0] ws IH]; simpl; [by intros _ ?%elem_of_nil|].
  intros [Hx Hnd]%NoDup_cons [[= -> ->]|He]%elem_of_cons
         [[= -> ->]|He']%elem_of_cons Heq; try done.
  - exfalso. apply Hx. rewrite Heq.
    apply list_elem_of_fmap. by exists (e', r').
  - exfalso. apply Hx. rewrite <- Heq.
    apply list_elem_of_fmap. by exists (e, r).
  - by apply IH.
Qed.

Lemma pick_found fqcn ws pdata e r :
  NoDup (map (fun w => e_fqcn w.1) ws) ->
  (e, r) ∈ ws -> e_fqcn e = fqcn -> pick fqcn ws pdata = r.
Proof.
  intros Hnd Hin Hf.
  destruct (pick_spec fqcn ws pdata) as [[_ Hall]|(e' & r' & Hin' & Hf' & ->)].
  - rewrite Forall_forall in Hall. by destruct (Hall _ Hin).
  - eapply writes_functional; [done..|congruence].
Qed.

Lemma NoDup_rev_fqcn (l : list elt) :
  NoDup (map e_fqcn l) -> NoDup (map e_fqcn (rev l)).
Proof.
  intros H. rewrite map_rev. apply NoDup_ListNoDup, NoDup_rev.
  by apply NoDup_ListNoDup.
Qed.

Lemma prefix_assignments_elem s rl ch d e r :
  (e, r) ∈ prefix_assignments s rl ch d -> e ∈ rl.
Proof.
  revert ch d. induction rl as [|e0 rl IH]; intros ch d; simpl;
    [by intros ?%elem_of_nil|].
  destruct (e_data e0).
  - intros [[= -> ->]|Hin]%elem_of_cons; [apply list_elem_of_here|].
    apply list_elem_of_further. by eapply IH.
  - intros Hin. apply list_elem_of_further. by eapply IH.
Qed.

Lemma loop_assignments_elem w err idx loop chain e r :
  (e, r) ∈ loop_assignments w err idx loop chain -> e ∈ loop.
Proof.
  revert idx chain. induction loop as [|e0 rl IH]; intros idx chain; simpl;
    [by intros ?%elem_of_nil|].
  destruct (e_data e0).
  - intros [[= -> ->]|Hin]%elem_of_cons; [apply list_elem_of_here|].
    apply list_elem_of_further. by eapply IH.
  - intros Hin. apply list_elem_of_further. by eapply IH.
Qed.

(** The rewrite after the loop when the list is the whole path: the record
    of the start and the records stored for the elements that follow. *)
Lemma finish_plain_exact rd ty c n pd s L ch d :
  left_loop rd ty c n pd L -> L !! 0 = Some (start_elt c n pd) ->
  pick (dotted c n) (prefix_assignments s (rev L) ch d) pd
  = prefix_record pd s (map e_fqcn L ++ or_empty ch) (prefix_deps L d)
  /\ forall i e p, L !! i = Some e -> linked rd ty e -> e_data e = Some p ->
       lookup_plugin
         (apply_writes ty (prefix_assignments s (rev L) ch d) rd)
         (e_coll e) ty (e_name e)
       = Some (prefix_record p s (map e_fqcn (drop i L) ++ or_empty ch)
                 (prefix_deps (drop i L) d)).
Proof.
  intros [Hok Hnd Hst] H0.
  assert (NoDup (map (fun w => e_fqcn w.1)
                   (prefix_assignments s (rev L) ch d))) as Hndw.
  { eapply sublist_NoDup; [|apply prefix_assignments_sublist].
    by apply NoDup_rev_fqcn. }
  split.
  - eapply pick_found;
      [done | by apply (prefix_assignments_In s L ch d 0 _ pd H0) | done].
  - intros i e p Hi Hl Hd.
    apply (apply_writes_lookup rd); [done| |done| |done].
    + apply Forall_forall. intros [e' r'] Hin. simpl.
      apply prefix_assignments_elem in Hin.
      rewrite Forall_forall in Hok. apply Hok. by apply elem_of_rev.
    + by apply prefix_assignments_In.
Qed.

(** Resolving a plugin whose redirects lead along a trail: the loop is
    left from the state at the end of the trail. *)
Lemma complete_along rd ty c n pd r k es t :
  redirect pd = RStr r -> redirect_chain pd = None ->
  trail rd ty k r = Some (es, t) ->
  NoDup (dotted c n :: map e_fqcn es) ->
  exists s, walking rd ty c n pd s
    /\ redirection_list s = start_elt c n pd :: es
    /\ next_name s = t
    /\ forall sfin, loop_body ty (dotted c n) s = Break sfin ->
         _complete_redirect rd c ty n pd
         = (let '(rd', pd') :=
              rewrite_prefix ty (dotted c n) sfin (rev (redirection_list sfin))
                (l_chain sfin) (l_deprecations sfin) (l_routing sfin)
                (l_plugin_data sfin) in
            Returned pd' rd').
Proof.
  intros Hr Hc Ht Hnd.
  pose proof (walking_initial rd ty c n pd r) as Hw0.
  destruct (trail_walk rd ty c n pd k _ es t Hw0 Ht Hnd)
    as (s & Hw & Hl & Hn & Hf).
  exists s. split; [done|]. split; [done|]. split; [done|].
  intros sfin Hb. unfold _complete_redirect.
  assert (already_done pd = false) as ->.
  { unfold already_done. rewrite Hr, Hc. apply bool_decide_eq_false.
    intros H. by apply H. }
  rewrite Hr.
  destruct (while_true_spec rd ty c n pd (walk_fuel rd ty) _ Hw0)
    as (s1 & Hw1 & Hres); [unfold walk_fuel; simpl; lia|].
  assert (while_true (walk_fuel rd ty) ty (dotted c n)
            (initial_locals rd c n pd r)
          = Returned sfin (l_routing sfin)) as ->; [|done].
  assert (while_true (k + 1) ty (dotted c n) (initial_locals rd c n pd r)
          = Returned sfin (l_routing sfin)) as H1.
  { rewrite Hf. simpl. by rewrite Hb. }
  rewrite <- H1. apply while_true_agree; [|by rewrite H1].
  destruct (loop_body ty (dotted c n) s1); [done|by rewrite Hres..].
Qed.

Lemma path_new (A t : string) (fs : list string) :
  NoDup (A :: fs ++ [t]) -> NoDup (A :: fs) /\ t ∉ A :: fs.
Proof.
  intros H. change (A :: fs ++ [t]) with ((A :: fs) ++ [t]) in H.
  apply NoDup_app in H as (H1 & H2 & _). split; [done|].
  intros Hin. apply (H2 _ Hin). apply list_elem_of_here.
Qed.

Lemma not_elem_of_drop {A : Type} (x : A) (l : list A) i :
  x ∉ l -> x ∉ drop i l.
Proof.
  intros H Hin. apply H. rewrite <- (take_drop i l). apply elem_of_app.
  by right.
Qed.

(** The records of a path after a rewrite that closed no cycle. *)
Lemma plain_records rd ty c n pd s es tl sfin :
  walking rd ty c n pd s ->
  redirection_list s = start_elt c n pd :: es ->
  redirection_list sfin = (start_elt c n pd :: es) ++ tl ->
  left_loop rd ty c n pd (redirection_list sfin) ->
  l_routing sfin = rd -> l_plugin_data sfin = pd ->
  exists pd' rd',
    (let '(rd', pd') :=
       rewrite_prefix ty (dotted c n) sfin (rev (redirection_list sfin))
         (l_chain sfin) (l_deprecations sfin) (l_routing sfin)
         (l_plugin_data sfin) in
     Returned pd' rd') = Returned pd' rd'
    /\ on_path ty rd' pd' es (fun i p' =>
         redirect p' = (if is_loop sfin then REllipsis
                        else RStr (next_name sfin))
         /\ redirect_chain p'
            = Some (drop i (dotted c n :: map e_fqcn es)
                    ++ map e_fqcn tl ++ or_empty (l_chain sfin))
         /\ redirect_deprecations p'
            = prefix_deps (drop i (start_elt c n pd :: es) ++ tl)
                (l_deprecations sfin)
         /\ redirect_tombstone p' = l_tombstone sfin
         /\ redirect_dead_end p' = l_dead_end sfin
         /\ redirect_error p' = l_error sfin).
Proof.
  intros Hw Hl Hfin Hleft Hrd Hpd.
  rewrite rewrite_prefix_assignments, Hrd, Hpd, Hfin.
  eexists _, _. split; [reflexivity|].
  rewrite Hfin in Hleft.
  destruct (finish_plain_exact rd ty c n pd sfin _ (l_chain sfin)
              (l_deprecations sfin) Hleft eq_refl) as [Hpick Hlook].
  split.
  - rewrite Hpick. simpl. rewrite map_app, <- app_assoc. by repeat split.
  - intros i e Hi.
    assert (linked rd ty e) as Hlk.
    { destruct (wk_list _ _ _ _ _ _ Hw) as (rest & Hrest & Hall).
      rewrite Hl in Hrest. injection Hrest as <-.
      rewrite Forall_forall in Hall. apply Hall.
      by eapply list_elem_of_lookup_2. }
    destruct Hlk as (Hf & Ho & [p Hp] & Hd).
    exists (prefix_record p sfin
              (map e_fqcn (drop (S i) ((start_elt c n pd :: es) ++ tl))
               ++ or_empty (l_chain sfin))
              (prefix_deps (drop (S i) ((start_elt c n pd :: es) ++ tl))
                 (l_deprecations sfin))).
    assert (i < length es) as Hlt by (by eapply lookup_lt_Some).
    split.
    + apply Hlook; [|by repeat split; eauto|done].
      simpl. by rewrite lookup_app_l.
    + simpl. rewrite !drop_app_le by lia.
      rewrite map_app, <- app_assoc, skipn_map. by repeat split.
Qed.

Lemma prefix_deps_None l : prefix_deps l None = or_None (own_deprecations l).
Proof.
  unfold prefix_deps, or_None. destruct (own_deprecations l); simpl; [done|].
  by rewrite app_nil_r.
Qed.

Lemma prefix_deps_Some l ds :
  prefix_deps l (Some ds) = Some (own_deprecations l ++ ds).
Proof. unfold prefix_deps. by destruct (own_deprecations l). Qed.

(** C4: dead ends.  A walk from plugin [n] of collection [c] goes through
    the plugins [es] and arrives at a target [t] that is none of them.  If
    [t] does not split into exactly three dot-separated parts, no chain
    written by the call contains [t]; if [t] splits into three parts but
    names a collection absent from the catalog, every chain written by the
    call ends with [t].  In both cases every node of the path (the start and
    each plugin gone through) gets [redirect_dead_end = true], the redirect
    [t] and an error for the offending target: the non-FQCN itself, or the
    unknown collection the target names. *)
Theorem dead_end_attribution rd ty c n pd r k es t :
  redirect pd = RStr r -> redirect_chain pd = None ->
  trail rd ty k r = Some (es, t) ->
  NoDup (dotted c n :: map e_fqcn es ++ [t]) ->
  let path := dotted c n :: map e_fqcn es in
  ((forall ns cn pn, str_split 2 t <> [ns; cn; pn]) ->
   exists pd' rd',
     _complete_redirect rd c ty n pd = Returned pd' rd' /\
     on_path ty rd' pd' es (fun i p' =>
       redirect_chain p' = Some (drop i path) /\
       (t ∉ drop i path) /\
       redirect p' = RStr t /\
       redirect_dead_end p' = true /\
       redirect_error p' = Some (non_fqcn t)))
  /\
  (forall ns cn pn,
     str_split 2 t = [ns; cn; pn] -> dict_get rd (dotted ns cn) = None ->
     exists pd' rd',
       _complete_redirect rd c ty n pd = Returned pd' rd' /\
       on_path ty rd' pd' es (fun i p' =>
         redirect_chain p' = Some (drop i path ++ [t]) /\
         last (drop i path ++ [t]) = Some t /\
         redirect p' = RStr t /\
         redirect_dead_end p' = true /\
         redirect_error p' = Some (unknown_collection (dotted ns cn)))).
Proof.
  intros Hr Hc Ht Hnd path. subst path.
  destruct (path_new _ _ _ Hnd) as [Hnd' Hnew].
  destruct (complete_along rd ty c n pd r k es t Hr Hc Ht Hnd')
    as (s & Hw & Hl & Hn & Hfin).
  assert (next_name s ∉ map e_fqcn (redirection_list s)) as Hnew'
    by (by rewrite Hn, Hl).
  pose proof (wk_routing _ _ _ _ _ _ Hw) as Hrd.
  pose proof (wk_pd _ _ _ _ _ _ Hw) as Hpd.
  pose proof (wk_chain _ _ _ _ _ _ Hw) as Hch.
  pose proof (wk_loop _ _ _ _ _ _ Hw) as Hlp.
  split.
  - intros Hsp. rewrite <- Hn in Hsp.
    pose proof (step_non_fqcn rd ty c n pd s Hw Hnew' Hsp) as Hb.
    rewrite (Hfin _ Hb).
    destruct (plain_records rd ty c n pd s es []
                (set_terminal s (redirection_list s) (l_deprecations s)
                   (l_tombstone s) true (Some (non_fqcn (next_name s))))
                Hw Hl)
      as (pd' & rd' & -> & H0 & Hi); simpl; try done.
    { by rewrite Hl, app_nil_r. }
    { by apply walking_left. }
    exists pd', rd'. split; [done|]. simpl in *.
    rewrite Hch, Hlp, Hn in *. simpl in *.
    split.
    + destruct H0 as (? & Hc0 & _ & _ & ? & ?). rewrite app_nil_r in Hc0.
      by repeat split.
    + intros i e He. destruct (Hi i e He) as (p' & Hp' & ? & Hci & _ & _ & ? & ?).
      exists p'. split; [done|]. rewrite app_nil_r in Hci.
      split; [done|]. split; [|done].
      exact (not_elem_of_drop _ _ (S i) Hnew).
  - intros ns cn pn Hsp Hcoll. rewrite <- Hn in Hsp.
    pose proof (step_unknown rd ty c n pd s Hw Hnew' ns cn pn Hsp Hcoll) as Hb.
    rewrite (Hfin _ Hb).
    destruct (plain_records rd ty c n pd s es
                [mkElt (next_name s) (dotted ns cn) pn None None]
                (set_terminal s
                   (redirection_list s
                    ++ [mkElt (next_name s) (dotted ns cn) pn None None])
                   (l_deprecations s) (l_tombstone s) true
                   (Some (unknown_collection (dotted ns cn))))
                Hw Hl)
      as (pd' & rd' & -> & H0 & Hi); simpl; try done.
    { by rewrite Hl. }
    { apply walking_left_app; [done| |done..].
      by rewrite (wk_found _ _ _ _ _ _ Hw). }
    exists pd', rd'. split; [done|]. simpl in *.
    rewrite Hch, Hlp, Hn in *. simpl in *.
    split.
    + destruct H0 as (? & Hc0 & _ & _ & ? & ?).
      repeat split; try done.
      change (dotted c n :: map e_fqcn es ++ [t])
        with ((dotted c n :: map e_fqcn es) ++ [t]).
      apply last_snoc.
    + intros i e He. destruct (Hi i e He) as (p' & Hp' & ? & Hci & _ & _ & ? & ?).
      exists p'. split; [done|].
      repeat split; try done. apply last_snoc.
Qed.

(** C3, amended: tombstone short-circuit.  A walk from plugin [n] of
    collection [c] goes through the plugins [es] and first reaches a
    tombstoned plugin [t].  The start node is then returned with
    [redirect = t], [redirect_tombstone = true], no error and no dead end;
    its chain is the path walked and does not contain [t], so its last
    element is the last plugin that redirects to [t]; its
    [redirect_deprecations] are the deprecations of the plugins on the path,
    in order, followed by the pair of [t] and its tombstone. *)
Theorem tombstone_short_circuit rd ty c n pd r k es t ns cn pn p tomb :
  redirect pd = RStr r -> redirect_chain pd = None ->
  trail rd ty k r = Some (es, t) ->
  NoDup (dotted c n :: map e_fqcn es ++ [t]) ->
  str_split 2 t = [ns; cn; pn] ->
  lookup_plugin rd (dotted ns cn) ty pn = Some p ->
  tombstone p = Some tomb ->
  exists pd' rd',
    _complete_redirect rd c ty n pd = Returned pd' rd' /\
    redirect pd' = RStr t /\
    redirect_tombstone pd' = true /\
    redirect_error pd' = None /\
    redirect_dead_end pd' = false /\
    redirect_chain pd' = Some (dotted c n :: map e_fqcn es) /\
    (t ∉ dotted c n :: map e_fqcn es) /\
    redirect_deprecations pd'
    = Some (own_deprecations (start_elt c n pd :: es) ++ [(t, tomb)]).
Proof.
  intros Hr Hc Ht Hnd Hsp Hp Htomb.
  destruct (path_new _ _ _ Hnd) as [Hnd' Hnew].
  destruct (complete_along rd ty c n pd r k es t Hr Hc Ht Hnd')
    as (s & Hw & Hl & Hn & Hfin).
  assert (next_name s ∉ map e_fqcn (redirection_list s)) as Hnew'
    by (by rewrite Hn, Hl).
  rewrite <- Hn in Hsp.
  pose proof (step_tombstone rd ty c n pd s Hw Hnew' ns cn pn p tomb
                Hsp Hp Htomb) as Hb.
  rewrite (Hfin _ Hb).
  destruct (plain_records rd ty c n pd s es []
              (set_terminal s (redirection_list s)
                 (Some [(next_name s, tomb)]) true (l_dead_end s) (l_error s))
              Hw Hl)
    as (pd' & rd' & -> & H0 & _); simpl.
  { by rewrite Hl, app_nil_r. }
  { by apply walking_left. }
  { apply (wk_routing _ _ _ _ _ _ Hw). }
  { apply (wk_pd _ _ _ _ _ _ Hw). }
  exists pd', rd'. split; [done|]. simpl in H0.
  rewrite (wk_chain _ _ _ _ _ _ Hw), (wk_loop _ _ _ _ _ _ Hw),
    (wk_dead _ _ _ _ _ _ Hw), (wk_err _ _ _ _ _ _ Hw), Hn in H0.
  simpl in H0. rewrite !app_nil_r in H0.
  destruct H0 as (? & ? & Hd & ? & ? & ?).
  rewrite prefix_deps_Some in Hd. by repeat split.
Qed.

(** ** The records of the members of a cycle, exactly *)

Lemma loop_assignments_In w err idx loop extra i e p :
  loop !! i = Some e -> e_data e = Some p ->
  (e, loop_record p
        (map e_fqcn (drop i loop) ++ extra ++ map e_fqcn (take i loop)
         ++ [e_fqcn e]) w (idx + i) err)
  ∈ loop_assignments w err idx loop (map e_fqcn loop ++ extra).
Proof.
  revert idx extra i. induction loop as [|e0 rest IH]; intros idx extra i;
    [done|].
  destruct i as [|j]; simpl.
  - intros [= ->] Hd. rewrite Hd, Nat.add_0_r.
    rewrite <- app_assoc. apply list_elem_of_here.
  - intros Hj Hd.
    pose proof (IH (S idx) (extra ++ [e_fqcn e0]) j Hj Hd) as H.
    rewrite <- !app_assoc in H. simpl in H.
    rewrite <- Nat.add_succ_comm, <- app_assoc.
    destruct (e_data e0); [by apply list_elem_of_further | done].
Qed.

Lemma loop_chain_full loop extra :
  loop_chain loop (map e_fqcn loop ++ extra) = extra ++ map e_fqcn loop.
Proof.
  revert extra. induction loop as [|e rest IH]; intros extra; simpl.
  - by rewrite app_nil_r.
  - rewrite <- app_assoc, IH, <- app_assoc. done.
Qed.

(** Resolving a plugin whose redirects lead back to itself: the record
    returned for it and the records stored for the other members. *)
Lemma cycle_records rd ty c n pd r k es :
  redirect pd = RStr r -> redirect_chain pd = None ->
  trail rd ty k r = Some (es, dotted c n) ->
  NoDup (dotted c n :: map e_fqcn es) ->
  exists pd' rd',
    _complete_redirect rd c ty n pd = Returned pd' rd' /\
    on_path ty rd' pd' es (fun i p' =>
      exists e p, (start_elt c n pd :: es) !! i = Some e /\
        e_data e = Some p /\
        p' = loop_record p
               (drop i (dotted c n :: map e_fqcn es)
                ++ take i (dotted c n :: map e_fqcn es) ++ [e_fqcn e])
               (redirect_deprecations_w_index (start_elt c n pd :: es))
               i (Some circular)).
Proof.
  intros Hr Hc Ht Hnd.
  destruct (complete_along rd ty c n pd r k es _ Hr Hc Ht Hnd)
    as (s & Hw & Hl & Hn & Hfin).
  assert (index_of (next_name s) (redirection_list s) = Some 0) as Hidx.
  { rewrite Hl, Hn. simpl. by rewrite String.eqb_refl. }
  rewrite (Hfin _ (step_cycle rd ty c n pd s 0 Hw Hidx)).
  unfold close_cycle. rewrite rewrite_loop_assignments. simpl.
  rewrite Hl, (wk_routing _ _ _ _ _ _ Hw), (wk_pd _ _ _ _ _ _ Hw).
  set (L := start_elt c n pd :: es).
  set (w := redirect_deprecations_w_index L).
  change (drop 0 L) with L.
  pose proof (loop_assignments_In w (Some circular) 0 L []) as HIn.
  rewrite app_nil_r in HIn. simpl in HIn.
  set (la := loop_assignments w (Some circular) 0 L (map e_fqcn L)) in *.
  eexists _, _. split; [reflexivity|].
  assert (NoDup (map (fun w => e_fqcn w.1) la)) as Hndw.
  { eapply sublist_NoDup; [|apply loop_assignments_sublist]. done. }
  assert (Forall (fun w => elt_ok rd ty w.1) la) as Hok.
  { apply Forall_forall. intros [e' r'] Hin%loop_assignments_elem. simpl.
    destruct (walking_left _ _ _ _ _ _ Hw) as [Hall _ _].
    rewrite Hl in Hall. rewrite Forall_forall in Hall. by apply Hall. }
  split.
  - exists (start_elt c n pd), pd. split; [done|]. split; [done|].
    eapply pick_found; [done|apply (HIn 0 _ pd eq_refl eq_refl)|done].
  - intros i e He.
    assert (linked rd ty e) as Hlk.
    { destruct (wk_list _ _ _ _ _ _ Hw) as (rest & Hrest & Hall).
      rewrite Hl in Hrest. injection Hrest as <-.
      rewrite Forall_forall in Hall. apply Hall.
      by eapply list_elem_of_lookup_2. }
    pose proof Hlk as (Hf & Ho & [p Hp] & Hd).
    eexists. split.
    + apply (apply_writes_lookup rd); [done|done|done| |done].
      apply (HIn (S i) e p He Hp).
    + exists e, p. split; [done|]. split; [done|].
      simpl. by rewrite skipn_map, firstn_map.
Qed.

(** C1: cycle rotation.  For a cycle [A -> B -> C -> A] entered at [A],
    with deprecations [dA] on [A] and [dC] on [C] and none on [B], resolving
    [A] returns; each of the three nodes gets [redirect] the cycle marker, as
    [redirect_chain] the rotation of the cycle that starts at the node, with
    the node's name repeated at the end, and as [redirect_deprecations] the
    deprecations of the cycle with those at or after the node's position
    first: [(A,dA); (C,dC)] for [A], and [(C,dC); (A,dA)] for [B] and for
    [C]. *)
Theorem cycle_rotation rd ty c n pdA B cB nB pB C cC nC pC dA dC :
  let A := dotted c n in
  redirect pdA = RStr B -> redirect_chain pdA = None ->
  hop rd ty B = Some (mkElt B cB nB (Some pB) (Some cB), C) ->
  hop rd ty C = Some (mkElt C cC nC (Some pC) (Some cC), A) ->
  NoDup [A; B; C] ->
  deprecation pdA = Some dA -> deprecation pB = None ->
  deprecation pC = Some dC ->
  exists pA' pB' pC' rd',
    _complete_redirect rd c ty n pdA = Returned pA' rd' /\
    lookup_plugin rd' cB ty nB = Some pB' /\
    lookup_plugin rd' cC ty nC = Some pC' /\
    (redirect pA' = REllipsis /\ redirect pB' = REllipsis
     /\ redirect pC' = REllipsis) /\
    redirect_chain pA' = Some [A; B; C; A] /\
    redirect_chain pB' = Some [B; C; A; B] /\
    redirect_chain pC' = Some [C; A; B; C] /\
    redirect_deprecations pA' = Some [(A, dA); (C, dC)] /\
    redirect_deprecations pB' = Some [(C, dC); (A, dA)] /\
    redirect_deprecations pC' = Some [(C, dC); (A, dA)].
Proof.
  intros A Hr Hc HB HC Hnd HdA HdB HdC.
  assert (trail rd ty 2 B
          = Some ([mkElt B cB nB (Some pB) (Some cB);
                   mkElt C cC nC (Some pC) (Some cC)], A)) as Ht.
  { simpl. by rewrite HB, HC. }
  destruct (cycle_records rd ty c n pdA B 2 _ Hr Hc Ht Hnd)
    as (pA' & rd' & Hres & H0 & Hi).
  destruct H0 as (e0 & p0 & [= <-] & [= <-] & HA).
  destruct (Hi 0 _ eq_refl) as (pB' & HlB & e1 & p1 & [= <-] & [= <-] & HB').
  destruct (Hi 1 _ eq_refl) as (pC' & HlC & e2 & p2 & [= <-] & [= <-] & HC').
  exists pA', pB', pC', rd'. simpl in HlB, HlC.
  assert (redirect_deprecations_w_index
            [start_elt c n pdA; mkElt B cB nB (Some pB) (Some cB);
             mkElt C cC nC (Some pC) (Some cC)]
          = [(0, (A, dA)); (2, (C, dC))]) as Hw.
  { unfold redirect_deprecations_w_index, enumerate. simpl.
    by rewrite HdA, HdB, HdC. }
  rewrite Hw in HA, HB', HC'. subst pA' pB' pC'. simpl.
  by repeat split.
Qed.

Lemma driver_keeps_shape rd Q o : driver_post rd Q o -> keeps_shape rd o.
Proof.
  destruct o; simpl; [by intros [[? _] _] | by intros (_ & [? _] & _) | done].
Qed.

(** C9: the resolver keeps the keys of the catalog.  After
    [complete_redirects], [complete_redirects_for_collection], the
    completion of one plugin by name and [_complete_redirect] itself,
    whether the call returns or raises, the catalog has the same collections,
    the same plugin types in each collection and the same plugin names in
    each type, all in the same order: only records stored under existing
    names are replaced. *)
Theorem resolver_preserves_keys (rd : catalog) :
  keeps_shape rd (complete_redirects rd) /\
  (forall collection_name,
     keeps_shape rd (complete_redirects_for_collection rd collection_name)) /\
  (forall collection_name ty plugin_name,
     keeps_shape rd (complete_plugin collection_name ty plugin_name rd)) /\
  (forall collection_name ty plugin_name pd,
     keeps_shape rd (_complete_redirect rd collection_name ty plugin_name pd)).
Proof.
  split; [|split; [|split]].
  - eapply driver_keeps_shape, complete_redirects_post.
  - intros c. eapply driver_keeps_shape, complete_redirects_for_collection_post.
  - intros c ty n. unfold complete_plugin.
    destruct (lookup_plugin rd c ty n) as [pd|] eqn:Hp; [|done].
    pose proof (complete_plugin_post c ty n rd (ex_intro _ pd Hp)) as H.
    unfold complete_plugin in H. rewrite Hp in H.
    by eapply driver_keeps_shape.
  - intros c ty n pd. pose proof (_complete_redirect_post rd c ty n pd) as H.
    destruct (_complete_redirect rd c ty n pd); simpl in *; [|by destruct H as (_ & -> & _) | done].
    by destruct H as [[? _] _].
Qed.

(** C5: idempotence.  [_complete_redirect] on a record without redirect,
    with the cycle marker as redirect or with a chain already set returns
    that record and leaves the catalog as it is; and running
    [complete_redirects] on the catalog that [complete_redirects] has left
    changes nothing and ends the same way. *)
Theorem resolution_idempotent :
  (forall rd collection_name ty plugin_name pd,
     redirect pd = RNone \/ redirect pd = REllipsis
     \/ redirect_chain pd <> None ->
     _complete_redirect rd collection_name ty plugin_name pd
     = Returned pd rd) /\
  (forall rd,
     match complete_redirects rd with
     | Returned _ rd' => complete_redirects rd' = Returned tt rd'
     | Raised e rd' => complete_redirects rd' = Raised e rd'
     | OutOfFuel => False
     end).
Proof.
  split.
  - intros rd c ty n pd H. unfold _complete_redirect.
    assert (already_done pd = true) as ->; [|done].
    unfold already_done. destruct H as [->|[->|H]]; [done..|].
    destruct (redirect pd); [done..|]. by apply bool_decide_eq_true.
  - intros rd. pose proof (complete_redirects_post rd) as H.
    destruct (complete_redirects rd) as [[] rd'|e rd'|] eqn:Hc; simpl in H;
      [| |done].
    + destruct H as [_ Hd]. by apply complete_redirects_noop.
    + exact (complete_redirects_raise _ _ _ Hc).
Qed.

(** C2, amended: after [complete_redirects] has returned, every plugin
    whose redirect was a string and whose chain was not yet set has a
    non-empty chain that starts with the plugin's own name and a redirect
    that is set; when the record carries no error, no tombstone flag and no
    dead-end flag, the redirect is a string and is the last element of the
    chain. *)
Theorem resolved_chain_starts_at_own_fqcn rd rd' c ty n p r :
  complete_redirects rd = Returned tt rd' ->
  lookup_plugin rd c ty n = Some p ->
  redirect p = RStr r -> redirect_chain p = None ->
  exists p' rest,
    lookup_plugin rd' c ty n = Some p' /\
    redirect_chain p' = Some (dotted c n :: rest) /\
    redirect p' <> RNone /\
    (redirect_error p' = None -> redirect_tombstone p' = false ->
     redirect_dead_end p' = false ->
     exists t, redirect p' = RStr t /\ last (dotted c n :: rest) = Some t).
Proof.
  intros Hc Hp Hr Hch. pose proof (complete_redirects_post rd) as H.
  rewrite Hc in H. destruct H as [[_ Hu] Hd].
  destruct (Hu _ _ _ _ Hp) as (p' & Hp' & [->|Hrw]).
  { specialize (Hd _ _ _ _ Hp'). unfold already_done in Hd.
    rewrite Hr, Hch in Hd. apply bool_decide_eq_true in Hd. done. }
  destruct Hrw as [(Hne & [rest Hrest] & _ & Hclean) _].
  exists p', rest. split; [done|]. split; [done|]. split; [done|].
  intros He Ht Hde. destruct Hclean as (t & ch & Hrt & Hcht & Hl); [done|].
  exists t. split; [done|]. congruence.
Qed.

(** C10: [complete_redirects_for_collection] for a name that is not a key
    of the catalog returns without raising and leaves the catalog as it
    is. *)
Theorem unknown_collection_is_noop rd collection_name :
  dict_get rd collection_name = None ->
  complete_redirects_for_collection rd collection_name = Returned tt rd.
Proof. intros H. unfold complete_redirects_for_collection. by rewrite H. Qed.

(** C6: a self-redirect is marked by the loader.  When the entry of a
    plugin redirects to the plugin's own name and the loader accepts it, the
    record has the cycle marker as redirect, the chain [own; own], the error
    "Detected circular redirect", the entry's deprecation and, as
    [redirect_deprecations], that deprecation under the plugin's own name
    when there is one and nothing otherwise; no flag is set, and the
    resolver returns the record as it is. *)
Theorem self_redirect_is_marked_by_loader m own_name real_plugin_type
    plugin_name r :
  dict_get m "redirect" = Some (YStr (dotted own_name plugin_name)) ->
  _parse_plugin_data (YMap m) own_name real_plugin_type plugin_name
  = Parsed r ->
  let own := dotted own_name plugin_name in
  redirect r = REllipsis /\
  redirect_chain r = Some [own; own] /\
  redirect_error r = Some "Detected circular redirect" /\
  _load_removal_data m "deprecation" = Parsed (deprecation r) /\
  redirect_deprecations r
  = match deprecation r with
    | Some d => Some [(own, d)]
    | None => None
    end /\
  redirect_tombstone r = false /\ redirect_dead_end r = false /\
  forall rd c ty n, _complete_redirect rd c ty n r = Returned r rd.
Proof.
  intros Hred. unfold _parse_plugin_data.
  destruct (negb (yaml_truthy (YMap m))) eqn:Ht.
  { destruct m; [done | by simpl in Ht]. }
  destruct (_load_removal_data m "deprecation") as [dep|]; [|done].
  destruct (_load_removal_data m "tombstone") as [tomb|]; [|done].
  destruct (if bool_decide (real_plugin_type = module) then _ else _)
    as [ap|]; [|done].
  rewrite Hred, String.eqb_refl. intros [= <-]. simpl.
  by repeat split.
Qed.

(** C8, as the code has it: with a non-empty collections path and in
    compat mode, the environment is returned and holds the path under
    ANSIBLE_COLLECTIONS_PATH and under the literal key
    _COLLECTIONS_PATH_ENV_VAR_COMPAT; under ANSIBLE_COLLECTIONS_PATHS it
    holds what the caller's environment held, or nothing when only the
    updates are passed. *)
Theorem compat_env_lacks_compat_variable environ p only_pass_env_updates :
  p <> "" ->
  exists env,
    _prepare_env environ (Some p) only_pass_env_updates true = Some env /\
    env !! "ANSIBLE_COLLECTIONS_PATH" = Some p /\
    env !! "_COLLECTIONS_PATH_ENV_VAR_COMPAT" = Some p /\
    env !! _COLLECTIONS_PATH_ENV_VAR_COMPAT
    = (if only_pass_env_updates then None
       else environ !! "ANSIBLE_COLLECTIONS_PATHS").
Proof.
  intros Hp. unfold _prepare_env.
  assert (negb (String.eqb p "") = true) as ->.
  { apply negb_true_iff, String.eqb_neq. done. }
  eexists. split.
  { rewrite bool_decide_false; [done|]. apply insert_non_empty. }
  split; [|split].
  - rewrite lookup_insert_ne by done. by rewrite lookup_insert_eq.
  - by rewrite lookup_insert_eq.
  - unfold _COLLECTIONS_PATH_ENV_VAR_COMPAT.
    rewrite !lookup_insert_ne by done.
    rewrite lookup_union_r by done.
    by destruct only_pass_env_updates.
Qed.

(** ** Catalogs in which no redirect leads to a plugin that redirects on *)

Lemma lookup_entries rd c ty n p :
  lookup_plugin rd c ty n = Some p -> In (c, ty, n, p) (entries rd).
Proof.
  intros (prd & Hm & Hg)%lookup_plugin_map. unfold plugin_map in Hm.
  destruct (dict_get rd c) as [cr|] eqn:Hc; [|done].
  unfold entries. apply in_flat_map. exists (c, cr).
  split; [by apply dict_get_In|]. apply in_flat_map. exists (ty, prd).
  split; [by apply dict_get_In|]. apply in_map_iff. exists (n, p).
  split; [done | by apply dict_get_In].
Qed.

Lemma single_hop_settled rd c ty n p r :
  single_hop rd = true -> lookup_plugin rd c ty n = Some p ->
  redirect p = RStr r -> already_done p = false -> settled rd ty r = true.
Proof.
  intros H Hp Hr Hd. unfold single_hop in H. rewrite forallb_forall in H.
  specialize (H _ (lookup_entries _ _ _ _ _ Hp)). simpl in H.
  by rewrite Hr, Hd in H.
Qed.

Lemma similar_found a b c ty n p0 :
  similar a b -> lookup_plugin a c ty n = Some p0 ->
  exists p, lookup_plugin b c ty n = Some p /\
            (p = p0 \/ (already_done p0 = false /\ tombstone p = tombstone p0)).
Proof.
  intros [_ H] Hp. specialize (H c ty n). rewrite Hp in H.
  destruct (lookup_plugin b c ty n) as [p|]; [eauto | done].
Qed.

Lemma similar_absent a b c ty n :
  similar a b -> lookup_plugin a c ty n = None -> lookup_plugin b c ty n = None.
Proof.
  intros [_ H] Hp. specialize (H c ty n). rewrite Hp in H.
  by destruct (lookup_plugin b c ty n).
Qed.

Lemma similar_unknown a b c :
  similar a b -> dict_get a c = None -> dict_get b c = None.
Proof.
  intros [H _] Hc. destruct (dict_get b c) eqn:Hb; [|done].
  destruct (proj2 (H c)) as [? ?]; [eauto | congruence].
Qed.

Section OneTurn.
Context (rd : catalog) (c : string) (ty : PluginType) (n : string)
        (pd : PluginRouting) (r : string).
Hypothesis Hr : redirect pd = RStr r.
Hypothesis Hc : redirect_chain pd = None.

Lemma not_done : already_done pd = false.
Proof using Hr Hc.
  unfold already_done. rewrite Hr, Hc. apply bool_decide_eq_false.
  intros H. by apply H.
Qed.

Lemma one_turn_break sfin :
  loop_body ty (dotted c n) (initial_locals rd c n pd r) = Break sfin ->
  _complete_redirect rd c ty n pd
  = (let '(rd', pd') :=
       rewrite_prefix ty (dotted c n) sfin (rev (redirection_list sfin))
         (l_chain sfin) (l_deprecations sfin) (l_routing sfin)
         (l_plugin_data sfin) in
     Returned pd' rd').
Proof using Hr Hc.
  intros Hb. unfold _complete_redirect. rewrite not_done, Hr.
  unfold walk_fuel. simpl. by rewrite Hb.
Qed.

Lemma one_turn_raise e :
  loop_body ty (dotted c n) (initial_locals rd c n pd r) = Raise e ->
  _complete_redirect rd c ty n pd = Raised e rd.
Proof using Hr Hc.
  intros Hb. unfold _complete_redirect. rewrite not_done, Hr.
  unfold walk_fuel. simpl. by rewrite Hb.
Qed.
End OneTurn.

(** When the redirect of a plugin leads to a settled name, resolving it
    writes nothing, and a similar catalog gives the same record. *)
Lemma settled_complete a b c ty n pd r :
  similar a b -> redirect pd = RStr r -> redirect_chain pd = None ->
  settled a ty r = true \/ r = dotted c n ->
  (exists pd', _complete_redirect a c ty n pd = Returned pd' a
               /\ _complete_redirect b c ty n pd = Returned pd' b)
  \/ (_complete_redirect a c ty n pd = Raised AssertionError a
      /\ _complete_redirect b c ty n pd = Raised AssertionError b).
Proof.
  intros Hsim Hr Hc Hset.
  pose proof (walking_initial a ty c n pd r) as Hwa.
  pose proof (walking_initial b ty c n pd r) as Hwb.
  destruct (decide (r = dotted c n)) as [->|Hne].
  { left.
    assert (forall rd, index_of (next_name (initial_locals rd c n pd (dotted c n)))
              (redirection_list (initial_locals rd c n pd (dotted c n)))
            = Some 0) as Hidx.
    { intros rd. simpl. by rewrite String.eqb_refl. }
    rewrite (one_turn_break a c ty n pd _ Hr Hc _
               (step_cycle a ty c n pd _ 0 Hwa (Hidx a))).
    rewrite (one_turn_break b c ty n pd _ Hr Hc _
               (step_cycle b ty c n pd _ 0 Hwb (Hidx b))).
    unfold close_cycle. simpl. eexists. split; reflexivity. }
  destruct Hset as [Hset|?]; [|done].
  assert (forall rd, next_name (initial_locals rd c n pd r)
            ∉ map e_fqcn (redirection_list (initial_locals rd c n pd r)))
    as Hnew.
  { intros rd. simpl. by intros ?%list_elem_of_singleton. }
  pose proof (loop_body_view ty (dotted c n) (initial_locals a c n pd r)) as Hv.
  unfold settled in Hset.
  inversion Hv as
    [ k Hin Hk Hb | Hin Hk Hb | Hnin Hsp Hb
    | ns cn pn Hnin Hsp Hcoll Hb
    | ns cn pn Hnin Hsp Hcoll Hp Hb
    | ns cn pn p tomb Hnin Hsp Hp Ht Hb
    | ns cn pn p Hnin Hsp Hp Ht Hre Hb
    | ns cn pn p Hnin Hsp Hp Ht Hre Hfl Hb
    | ns cn pn p Hnin Hsp Hp Ht Hre Hfl Hb
    | ns cn pn p target Hnin Hsp Hp Ht Hre Hfl Hb ];
    cbn [initial_locals next_name found_names redirection_list l_routing]
      in *; symmetry in Hb.
  - exfalso. apply (Hnew a). simpl. by apply elem_of_singleton in Hin as ->;
      apply list_elem_of_here.
  - exfalso. apply (Hnew a). simpl. by apply elem_of_singleton in Hin as ->;
      apply list_elem_of_here.
  - left. rewrite (one_turn_break a c ty n pd _ Hr Hc _ Hb).
    rewrite (one_turn_break b c ty n pd _ Hr Hc _
               (step_non_fqcn b ty c n pd _ Hwb (Hnew b) Hsp)).
    simpl. eexists. split; reflexivity.
  - left. rewrite (one_turn_break a c ty n pd _ Hr Hc _ Hb).
    rewrite (one_turn_break b c ty n pd _ Hr Hc _
               (step_unknown b ty c n pd _ Hwb (Hnew b) ns cn pn Hsp
                  (similar_unknown _ _ _ Hsim Hcoll))).
    simpl. eexists. split; reflexivity.
  - left. rewrite (one_turn_break a c ty n pd _ Hr Hc _ Hb).
    rewrite (one_turn_break b c ty n pd _ Hr Hc _
               (step_absent b ty c n pd _ Hwb (Hnew b) ns cn pn Hsp
                  (proj1 (proj1 Hsim _) Hcoll)
                  (similar_absent _ _ _ _ _ Hsim Hp))).
    simpl. eexists. split; reflexivity.
  - left. destruct (similar_found _ _ _ _ _ _ Hsim Hp) as (p' & Hp' & Hrel).
    assert (tombstone p' = Some tomb) as Ht'
      by (destruct Hrel as [->|[_ ->]]; done).
    rewrite (one_turn_break a c ty n pd _ Hr Hc _ Hb).
    rewrite (one_turn_break b c ty n pd _ Hr Hc _
               (step_tombstone b ty c n pd _ Hwb (Hnew b) ns cn pn p' tomb
                  Hsp Hp' Ht')).
    simpl. eexists. split; reflexivity.
  - left. destruct (similar_found _ _ _ _ _ _ Hsim Hp) as (p' & Hp' & Hrel).
    assert (p' = p) as ->.
    { destruct Hrel as [->|[Hnd _]]; [done|].
      unfold already_done in Hnd. by rewrite Hre in Hnd. }
    rewrite (one_turn_break a c ty n pd _ Hr Hc _ Hb).
    rewrite (one_turn_break b c ty n pd _ Hr Hc _
               (step_terminal b ty c n pd _ Hwb (Hnew b) ns cn pn p
                  Hsp Hp' Ht Hre)).
    simpl. eexists. split; reflexivity.
  - left. destruct (similar_found _ _ _ _ _ _ Hsim Hp) as (p' & Hp' & Hrel).
    assert (p' = p) as ->.
    { destruct Hrel as [->|[Hnd _]]; [done|]. exfalso.
      destruct (hop a ty r); [done|]. rewrite Hsp, Hp, Ht in Hset. congruence. }
    rewrite (one_turn_break a c ty n pd _ Hr Hc _ Hb).
    rewrite (one_turn_break b c ty n pd _ Hr Hc _
               (step_reuse b ty c n pd _ Hwb (Hnew b) ns cn pn p
                  Hsp Hp' Ht Hre Hfl)).
    simpl. eexists. split; reflexivity.
  - right. destruct (similar_found _ _ _ _ _ _ Hsim Hp) as (p' & Hp' & Hrel).
    assert (p' = p) as ->.
    { destruct Hrel as [->|[Hnd _]]; [done|].
      unfold already_done in Hnd. by rewrite Hre in Hnd. }
    rewrite (one_turn_raise a c ty n pd _ Hr Hc _ Hb).
    by rewrite (one_turn_raise b c ty n pd _ Hr Hc _
               (step_assert b ty c n pd _ Hwb (Hnew b) ns cn pn p
                  Hsp Hp' Ht Hre Hfl)).
  - exfalso.
    assert (hop a ty r
            = Some (mkElt r (dotted ns cn) pn (Some p) (Some (dotted ns cn)),
                    target)) as Hh.
    { unfold hop. rewrite Hsp, Hp, Ht, Hre. by rewrite Hfl. }
    by rewrite Hh in Hset.
Qed.

Lemma single_hop_flat rd : single_hop rd = true -> flat rd.
Proof. intros H c ty n p r. by apply single_hop_settled. Qed.

Lemma settled_same rd1 rd2 ty r :
  same_catalog rd1 rd2 -> settled rd1 ty r = settled rd2 ty r.
Proof.
  intros [_ H]. unfold settled, hop.
  destruct (str_split 2 r) as [|ns [|cn [|pn [|? ?]]]]; try done.
  by rewrite (H (dotted ns cn) ty pn).
Qed.

Lemma flat_same rd1 rd2 : same_catalog rd1 rd2 -> flat rd1 -> flat rd2.
Proof.
  intros Hs Hf c ty n p r Hp Hr Hd. rewrite <- (settled_same _ _ _ _ Hs).
  eapply Hf; [|done..]. by rewrite (proj2 Hs).
Qed.

Lemma same_similar rd1 rd2 : same_catalog rd1 rd2 -> similar rd1 rd2.
Proof.
  intros [H1 H2]. split; [done|]. intros c ty n. rewrite <- H2.
  destruct (lookup_plugin rd1 c ty n); [by left | done].
Qed.

Lemma flat_inv_refl rd : flat_inv rd rd.
Proof. split; [done|]. intros. by left. Qed.

Lemma complete_returned_done rd c ty n p pd' rd' :
  already_done p = false ->
  _complete_redirect rd c ty n p = Returned pd' rd' ->
  already_done pd' = true /\ tombstone pd' = tombstone p.
Proof.
  intros Hd Hc. pose proof (_complete_redirect_post rd c ty n p) as H.
  rewrite Hc in H. destruct H as [_ [(? & _)|(_ & Hr)]]; [congruence|].
  split; [by eapply rewritten_done|]. by destruct Hr as [_ (_ & _ & ?)].
Qed.

Lemma flat_inv_similar rd0 rd : flat_inv rd0 rd -> similar rd0 rd.
Proof.
  intros [Hs H]. split.
  - intros c. split; apply shape_get; done.
  - intros c ty n. destruct (lookup_plugin rd0 c ty n) as [p0|] eqn:Hp0.
    + destruct (H _ _ _ _ Hp0) as [->|(Hd & pd' & Hc & ->)]; [by left|].
      right. split; [done|]. by eapply complete_returned_done.
    + destruct (lookup_plugin rd c ty n) eqn:Hp; [|done].
      destruct (shape_lookup rd rd0 c ty n Hs) as [? ?]; [eauto|congruence].
Qed.

Lemma complete_plugin_flat rd0 c ty n rd :
  flat rd0 -> flat_inv rd0 rd ->
  match complete_plugin c ty n rd with
  | Returned _ rd' => flat_inv rd0 rd'
  | _ => True
  end.
Proof.
  intros Hflat Hinv. unfold complete_plugin.
  destruct (lookup_plugin rd c ty n) as [p|] eqn:Hp; [|done].
  destruct (already_done p) eqn:Hd.
  { unfold _complete_redirect. rewrite Hd. by rewrite store_plugin_same. }
  pose proof (flat_inv_similar _ _ Hinv) as Hsim.
  destruct Hinv as [Hs Hinv].
  destruct (shape_lookup rd rd0 c ty n Hs) as [p0 Hp0]; [eauto|].
  assert (p = p0) as ->.
  { destruct (Hinv _ _ _ _ Hp0) as [?|(Hd0 & pd' & Hc & Hl)]; [congruence|].
    destruct (complete_returned_done _ _ _ _ _ _ _ Hd0 Hc). congruence. }
  assert (exists r, redirect p0 = RStr r /\ redirect_chain p0 = None)
    as (r & Hr & Hch).
  { unfold already_done in Hd. destruct (redirect p0) as [| |r]; try done.
    exists r. split; [done|]. apply bool_decide_eq_false in Hd.
    destruct (redirect_chain p0); [|done]. exfalso. by apply Hd. }
  destruct (settled_complete rd0 rd c ty n p0 r Hsim Hr Hch)
    as [(pd' & Ha & Hb)|[Ha Hb]];
    [left; by eapply Hflat | | by rewrite Hb].
  rewrite Hb. split.
  - rewrite store_plugin_shape; [done | eauto].
  - intros c' ty' n' p' Hp'.
    destruct (decide ((c, ty, n) = (c', ty', n'))) as [[= <- <- <-]|Hne].
    + right. assert (p' = p0) as -> by congruence. split; [done|].
      exists pd'. split; [done|]. apply lookup_store_eq.
      apply lookup_plugin_map in Hp as (? & -> & _). eauto.
    + rewrite lookup_store_ne by done. by apply Hinv.
Qed.

Lemma for_each_preserves {A : Type} (body : A -> catalog -> outcome unit)
    (I : catalog -> Prop) l rd :
  (forall x rd1, I rd1 ->
     match body x rd1 with Returned _ rd2 => I rd2 | _ => True end) ->
  I rd ->
  match for_each body l rd with Returned _ rd' => I rd' | _ => True end.
Proof.
  intros Hbody. revert rd. induction l as [|x l IH]; intros rd HI; simpl;
    [done|].
  specialize (Hbody x rd HI). destruct (body x rd); [by apply IH | done..].
Qed.

Lemma complete_redirects_flat rd0 rd :
  flat rd0 -> flat_inv rd0 rd ->
  match complete_redirects rd with
  | Returned _ rd' => flat_inv rd0 rd'
  | _ => True
  end.
Proof.
  intros Hflat. unfold complete_redirects. apply for_each_preserves.
  intros c rd1 H1. unfold complete_redirects_for_collection.
  destruct (dict_get rd1 c); [|done]. apply for_each_preserves; [|done].
  intros ty rd2 H2. unfold complete_type.
  destruct (plugin_map rd2 c ty); [|done]. apply for_each_preserves; [|done].
  intros n rd3 H3. by apply complete_plugin_flat.
Qed.

(** C7, amended: order independence for single hops.  Two catalogs with
    the same collections and the same records under the same names, listed
    in any order, in which no redirect still to resolve leads to a plugin
    that redirects on, are resolved by [complete_redirects] to catalogs
    with the same records under the same names. *)
Theorem order_independent_when_single_hop rd1 rd2 rd1' rd2' :
  single_hop rd1 = true ->
  same_catalog rd1 rd2 ->
  complete_redirects rd1 = Returned tt rd1' ->
  complete_redirects rd2 = Returned tt rd2' ->
  same_catalog rd1' rd2'.
Proof.
  intros Hsh Hsame Hc1 Hc2.
  pose proof (single_hop_flat _ Hsh) as Hf1.
  pose proof (flat_same _ _ Hsame Hf1) as Hf2.
  pose proof (complete_redirects_flat rd1 rd1 Hf1 (flat_inv_refl _)) as Hi1.
  pose proof (complete_redirects_flat rd2 rd2 Hf2 (flat_inv_refl _)) as Hi2.
  pose proof (complete_redirects_post rd1) as Hp1.
  pose proof (complete_redirects_post rd2) as Hp2.
  rewrite Hc1 in Hi1, Hp1. rewrite Hc2 in Hi2, Hp2.
  destruct Hp1 as [_ Hd1], Hp2 as [_ Hd2].
  destruct Hi1 as [Hs1 Hi1], Hi2 as [Hs2 Hi2].
  pose proof Hsame as [Hdom Hlook].
  split.
  - intros c. split; intros H.
    + eapply shape_get; [symmetry; exact Hs2|]. apply Hdom.
      by eapply shape_get.
    + eapply shape_get; [symmetry; exact Hs1|]. apply Hdom.
      by eapply shape_get.
  - intros c ty n.
    destruct (lookup_plugin rd1 c ty n) as [p0|] eqn:Hp0.
    + pose proof Hp0 as Hp0'. rewrite Hlook in Hp0'.
      destruct (Hi1 _ _ _ _ Hp0) as [H1|(Hn1 & pd1 & Hr1 & H1)];
      destruct (Hi2 _ _ _ _ Hp0') as [H2|(Hn2 & pd2 & Hr2 & H2)];
        rewrite H1, H2; try done.
      * specialize (Hd1 _ _ _ _ H1). congruence.
      * specialize (Hd2 _ _ _ _ H2). congruence.
      * assert (exists r, redirect p0 = RStr r /\ redirect_chain p0 = None)
          as (r & Hr & Hch).
        { unfold already_done in Hn1. destruct (redirect p0) as [| |r];
            try done.
          exists r. split; [done|]. apply bool_decide_eq_false in Hn1.
          destruct (redirect_chain p0); [|done]. exfalso. by apply Hn1. }
        destruct (settled_complete rd1 rd2 c ty n p0 r
                    (same_similar _ _ Hsame) Hr Hch)
          as [(pd' & Ha & Hb)|[Ha Hb]]; [left; by eapply Hf1| |congruence].
        congruence.
    + pose proof Hp0 as Hp0'. rewrite Hlook in Hp0'.
      destruct (lookup_plugin rd1' c ty n) eqn:E1.
      { destruct (shape_lookup rd1' rd1 c ty n Hs1) as [? ?];
          [eauto | congruence]. }
      destruct (lookup_plugin rd2' c ty n) eqn:E2; [|done].
      destruct (shape_lookup rd2' rd2 c ty n Hs2) as [? ?];
        [eauto | congruence].
Qed.

(** ** The model on the unit tests *)

Example test_complete_redirects :
  complete_redirects routing_info = Returned tt resolved_routing_info /\
  lookup_plugin resolved_routing_info "foo.bar" module "pre_loop_1"
  = Some {| action_plugin := None; redirect := REllipsis;
            redirect_chain :=
              Some ["foo.bar.pre_loop_1"; "foo.bar.pre_loop_2";
                    "foo.bar.loop_1"; "bar.baz.loop_2"; "foo.bar.loop_3";
                    "foo.bar.loop_1"];
            redirect_deprecations :=
              Some [("foo.bar.pre_loop_2", removal "pre 2");
                    ("foo.bar.loop_1", removal "loop 1");
                    ("foo.bar.loop_3", removal "loop 3")];
            redirect_tombstone := false; redirect_dead_end := false;
            redirect_error := Some "Detected circular redirect";
            deprecation := None; tombstone := None |} /\
  lookup_plugin resolved_routing_info "foo.bar" module "loop_2"
  = Some {| action_plugin := None; redirect := REllipsis;
            redirect_chain :=
              Some ["foo.bar.loop_2"; "foo.bar.loop_3"; "foo.bar.loop_1";
                    "bar.baz.loop_2"; "foo.bar.loop_3"];
            redirect_deprecations :=
              Some [("foo.bar.loop_3", removal "loop 3");
                    ("foo.bar.loop_1", removal "loop 1")];
            redirect_tombstone := false; redirect_dead_end := false;
            redirect_error := Some "Detected circular redirect";
            deprecation := None; tombstone := None |} /\
  lookup_plugin resolved_routing_info "foo.bar" module "chain_1"
  = Some {| action_plugin := None; redirect := RStr "foo.bar.chain_4";
            redirect_chain :=
              Some ["foo.bar.chain_1"; "foo.bar.chain_2"; "foo.bar.chain_3";
                    "foo.bar.chain_4"];
            redirect_deprecations :=
              Some [("foo.bar.chain_1", removal "foo 1");
                    ("foo.bar.chain_3", removal "foo 3")];
            redirect_tombstone := false; redirect_dead_end := false;
            redirect_error := None;
            deprecation := Some (removal "foo 1"); tombstone := None |} /\
  lookup_plugin resolved_routing_info "foo.bar" module "leave_chain_2"
  = Some {| action_plugin := None; redirect := RStr "outside.here.meh";
            redirect_chain :=
              Some ["foo.bar.leave_chain_2"; "foo.bar.leave_chain_3";
                    "outside.here.meh"];
            redirect_deprecations := None;
            redirect_tombstone := false; redirect_dead_end := true;
            redirect_error :=
              Some "Found redirect to unknown collection outside.here";
            deprecation := None; tombstone := None |} /\
  lookup_plugin resolved_routing_info "foo.bar" lookup_ "loop_1"
  = Some {| action_plugin := None; redirect := REllipsis;
            redirect_chain :=
              Some ["foo.bar.loop_1"; "foo.bar.loop_2"; "foo.bar.loop_3";
                    "foo.bar.loop_3"];
            redirect_deprecations := None;
            redirect_tombstone := false; redirect_dead_end := false;
            redirect_error := Some "Detected circular redirect";
            deprecation := None; tombstone := None |} /\
  lookup_plugin resolved_routing_info "foo.bar" lookup_ "dead_chain_1"
  = Some {| action_plugin := None; redirect := RStr "foo.bar.dead_chain_3";
            redirect_chain :=
              Some ["foo.bar.dead_chain_1"; "foo.bar.dead_chain_2"];
            redirect_deprecations :=
              Some [("foo.bar.dead_chain_3", removal "this is dead")];
            redirect_tombstone := true; redirect_dead_end := false;
            redirect_error := None;
            deprecation := None; tombstone := None |} /\
  lookup_plugin resolved_routing_info "foo.bar" lookup_ "broken_chain_1"
  = Some {| action_plugin := None; redirect := RStr "this-is-not-a-fqcn";
            redirect_chain :=
              Some ["foo.bar.broken_chain_1"; "foo.bar.broken_chain_2"];
            redirect_deprecations := None;
            redirect_tombstone := false; redirect_dead_end := true;
            redirect_error :=
              Some "Found redirect to non-FQCN this-is-not-a-fqcn";
            deprecation := None; tombstone := None |} /\
  lookup_plugin resolved_routing_info "bar.baz" module "chain_2"
  = Some {| action_plugin := None; redirect := RStr "foo.bar.chain_4";
            redirect_chain :=
              Some ["bar.baz.chain_2"; "foo.bar.chain_3"; "foo.bar.chain_4"];
            redirect_deprecations :=
              Some [("foo.bar.chain_3", removal "foo 3")];
            redirect_tombstone := false; redirect_dead_end := false;
            redirect_error := None;
            deprecation := None; tombstone := None |}.
Proof. vm_compute. repeat split. Qed.

(** ** The statements on the example catalogs *)

Local Ltac nodup := refine (bool_decide_unpack _ _); vm_compute; exact I.

Lemma cycle_rotation_witness :
  exists pA' pB' pC' rd',
    _complete_redirect routing_info "foo.bar" module "loop_1"
      (redirecting "bar.baz.loop_2" (Some (removal "loop 1")))
    = Returned pA' rd' /\
    lookup_plugin rd' "bar.baz" module "loop_2" = Some pB' /\
    lookup_plugin rd' "foo.bar" module "loop_3" = Some pC' /\
    (redirect pA' = REllipsis /\ redirect pB' = REllipsis
     /\ redirect pC' = REllipsis) /\
    redirect_chain pA'
    = Some ["foo.bar.loop_1"; "bar.baz.loop_2"; "foo.bar.loop_3";
            "foo.bar.loop_1"] /\
    redirect_chain pB'
    = Some ["bar.baz.loop_2"; "foo.bar.loop_3"; "foo.bar.loop_1";
            "bar.baz.loop_2"] /\
    redirect_chain pC'
    = Some ["foo.bar.loop_3"; "foo.bar.loop_1"; "bar.baz.loop_2";
            "foo.bar.loop_3"] /\
    redirect_deprecations pA'
    = Some [("foo.bar.loop_1", removal "loop 1");
            ("foo.bar.loop_3", removal "loop 3")] /\
    redirect_deprecations pB'
    = Some [("foo.bar.loop_3", removal "loop 3");
            ("foo.bar.loop_1", removal "loop 1")] /\
    redirect_deprecations pC'
    = Some [("foo.bar.loop_3", removal "loop 3");
            ("foo.bar.loop_1", removal "loop 1")].
Proof.
  apply (cycle_rotation routing_info module "foo.bar" "loop_1"
           (redirecting "bar.baz.loop_2" (Some (removal "loop 1")))
           "bar.baz.loop_2" "bar.baz" "loop_2"
           (redirecting "foo.bar.loop_3" None)
           "foo.bar.loop_3" "foo.bar" "loop_3"
           (redirecting "foo.bar.loop_1" (Some (removal "loop 3")))
           (removal "loop 1") (removal "loop 3"));
    [reflexivity | reflexivity | vm_compute; reflexivity
    | vm_compute; reflexivity | nodup | reflexivity..].
Defined.

Lemma resolved_chain_witness :
  exists p' rest,
    lookup_plugin resolved_routing_info "foo.bar" module "chain_1" = Some p' /\
    redirect_chain p' = Some (dotted "foo.bar" "chain_1" :: rest) /\
    redirect p' <> RNone /\
    (redirect_error p' = None -> redirect_tombstone p' = false ->
     redirect_dead_end p' = false ->
     exists t, redirect p' = RStr t
               /\ last (dotted "foo.bar" "chain_1" :: rest) = Some t).
Proof.
  apply (resolved_chain_starts_at_own_fqcn routing_info resolved_routing_info
           "foo.bar" module "chain_1"
           (redirecting "foo.bar.chain_2" (Some (removal "foo 1")))
           "foo.bar.chain_2");
    [vm_compute; reflexivity | vm_compute; reflexivity
    | reflexivity | reflexivity].
Defined.

Lemma chain_end_counterexample :
  complete_redirects routing_info = Returned tt resolved_routing_info /\
  (exists r, option_map redirect
               (lookup_plugin routing_info "foo.bar" lookup_ "dead_chain_1")
             = Some (RStr r)) /\
  (exists r, option_map redirect
               (lookup_plugin routing_info "foo.bar" module "pre_loop_1")
             = Some (RStr r)) /\
  exists p q,
    lookup_plugin resolved_routing_info "foo.bar" lookup_ "dead_chain_1"
    = Some p /\
    lookup_plugin resolved_routing_info "foo.bar" module "pre_loop_1"
    = Some q /\
    ~ ((exists ch t, redirect_chain p = Some ("foo.bar.dead_chain_1" :: ch)
                     /\ redirect p = RStr t
                     /\ last ("foo.bar.dead_chain_1" :: ch) = Some t)
       \/ redirect p = REllipsis) /\
    ~ ((exists ch t, redirect_chain q = Some ("foo.bar.pre_loop_1" :: ch)
                     /\ redirect q = RStr t
                     /\ last ("foo.bar.pre_loop_1" :: ch) = Some t)
       \/ (redirect q = REllipsis /\
           exists ch, redirect_chain q = Some ch
                      /\ count_occ string_dec ch "foo.bar.pre_loop_1" = 2)).
Proof.
  split; [vm_compute; reflexivity|].
  split; [eexists; vm_compute; reflexivity|].
  split; [eexists; vm_compute; reflexivity|].
  eexists _, _. split; [vm_compute; reflexivity|].
  split; [vm_compute; reflexivity|]. split.
  - intros [(ch & t & Hc & Hr & Hl)|Hr]; [|discriminate Hr].
    injection Hc as <-. injection Hr as <-. vm_compute in Hl.
    discriminate Hl.
  - intros [(ch & t & Hc & Hr & Hl)|(_ & ch & Hc & Hn)]; [discriminate Hr|].
    injection Hc as <-. vm_compute in Hn. discriminate Hn.
Qed.

Lemma tombstone_short_circuit_witness :
  exists pd' rd',
    _complete_redirect routing_info "foo.bar" lookup_ "dead_chain_1"
      (redirecting "foo.bar.dead_chain_2" None) = Returned pd' rd' /\
    redirect pd' = RStr "foo.bar.dead_chain_3" /\
    redirect_tombstone pd' = true /\
    redirect_error pd' = None /\
    redirect_dead_end pd' = false /\
    redirect_chain pd'
    = Some (dotted "foo.bar" "dead_chain_1"
            :: map e_fqcn
                 [passed "foo.bar" "dead_chain_2"
                    (redirecting "foo.bar.dead_chain_3" None)]) /\
    ("foo.bar.dead_chain_3"
       ∉ dotted "foo.bar" "dead_chain_1"
         :: map e_fqcn
              [passed "foo.bar" "dead_chain_2"
                 (redirecting "foo.bar.dead_chain_3" None)]) /\
    redirect_deprecations pd'
    = Some (own_deprecations
              (start_elt "foo.bar" "dead_chain_1"
                 (redirecting "foo.bar.dead_chain_2" None)
               :: [passed "foo.bar" "dead_chain_2"
                     (redirecting "foo.bar.dead_chain_3" None)])
            ++ [("foo.bar.dead_chain_3", removal "this is dead")]).
Proof.
  apply (tombstone_short_circuit routing_info lookup_ "foo.bar"
           "dead_chain_1" (redirecting "foo.bar.dead_chain_2" None)
           "foo.bar.dead_chain_2" 1
           [passed "foo.bar" "dead_chain_2"
              (redirecting "foo.bar.dead_chain_3" None)]
           "foo.bar.dead_chain_3" "foo" "bar" "dead_chain_3"
           (tombstoned "this is dead") (removal "this is dead"));
    [reflexivity | reflexivity | vm_compute; reflexivity | nodup
    | vm_compute; reflexivity | vm_compute; reflexivity | reflexivity].
Defined.

Lemma tombstone_chain_counterexample :
  trail dead_chain lookup_ 1 "foo.bar.dead_chain_2"
  = Some ([passed "foo.bar" "dead_chain_2"
             (redirecting "foo.bar.dead_chain_3" None)],
          "foo.bar.dead_chain_3") /\
  lookup_plugin dead_chain "foo.bar" lookup_ "dead_chain_3"
  = Some (tombstoned "this is dead") /\
  exists pd' rd',
    _complete_redirect dead_chain "foo.bar" lookup_ "dead_chain_1"
      (redirecting "foo.bar.dead_chain_2" (Some (removal "old 1")))
    = Returned pd' rd' /\
    redirect_tombstone pd' = true /\
    redirect_chain pd'
    = Some ["foo.bar.dead_chain_1"; "foo.bar.dead_chain_2"] /\
    ~ (exists ch, redirect_chain pd' = Some ch
                  /\ last ch = Some "foo.bar.dead_chain_3") /\
    redirect_deprecations pd'
    = Some [("foo.bar.dead_chain_1", removal "old 1");
            ("foo.bar.dead_chain_3", removal "this is dead")] /\
    redirect_deprecations pd'
    <> Some [("foo.bar.dead_chain_3", removal "this is dead")].
Proof.
  split; [vm_compute; reflexivity|]. split; [vm_compute; reflexivity|].
  eexists _, _. split; [vm_compute; reflexivity|].
  split; [reflexivity|]. split; [reflexivity|]. split.
  - intros (ch & Hc & Hl). injection Hc as <-. vm_compute in Hl.
    discriminate Hl.
  - split; [reflexivity | discriminate].
Qed.

Lemma dead_end_attribution_witness :
  (exists pd' rd',
     _complete_redirect routing_info "foo.bar" lookup_ "broken_chain_1"
       (redirecting "foo.bar.broken_chain_2" None) = Returned pd' rd' /\
     on_path lookup_ rd' pd'
       [passed "foo.bar" "broken_chain_2"
          (redirecting "this-is-not-a-fqcn" None)]
       (fun i p' =>
          redirect_chain p'
          = Some (drop i ["foo.bar.broken_chain_1";
                          "foo.bar.broken_chain_2"]) /\
          ("this-is-not-a-fqcn"
             ∉ drop i ["foo.bar.broken_chain_1"; "foo.bar.broken_chain_2"]) /\
          redirect p' = RStr "this-is-not-a-fqcn" /\
          redirect_dead_end p' = true /\
          redirect_error p'
          = Some "Found redirect to non-FQCN this-is-not-a-fqcn")) /\
  (exists pd' rd',
     _complete_redirect routing_info "foo.bar" module "leave_chain_1"
       (redirecting "foo.bar.leave_chain_2" None) = Returned pd' rd' /\
     on_path module rd' pd'
       [passed "foo.bar" "leave_chain_2"
          (redirecting "foo.bar.leave_chain_3" None);
        passed "foo.bar" "leave_chain_3"
          (redirecting "outside.here.meh" None)]
       (fun i p' =>
          redirect_chain p'
          = Some (drop i ["foo.bar.leave_chain_1"; "foo.bar.leave_chain_2";
                          "foo.bar.leave_chain_3"]
                  ++ ["outside.here.meh"]) /\
          last (drop i ["foo.bar.leave_chain_1"; "foo.bar.leave_chain_2";
                        "foo.bar.leave_chain_3"]
                ++ ["outside.here.meh"]) = Some "outside.here.meh" /\
          redirect p' = RStr "outside.here.meh" /\
          redirect_dead_end p' = true /\
          redirect_error p'
          = Some "Found redirect to unknown collection outside.here")).
Proof.
  split.
  - apply (proj1 (dead_end_attribution routing_info lookup_ "foo.bar"
                    "broken_chain_1"
                    (redirecting "foo.bar.broken_chain_2" None)
                    "foo.bar.broken_chain_2" 1
                    [passed "foo.bar" "broken_chain_2"
                       (redirecting "this-is-not-a-fqcn" None)]
                    "this-is-not-a-fqcn"
                    eq_refl eq_refl eq_refl
                    ltac:(nodup))).
    intros ns cn pn H. vm_compute in H. discriminate H.
  - apply (proj2 (dead_end_attribution routing_info module "foo.bar"
                    "leave_chain_1"
                    (redirecting "foo.bar.leave_chain_2" None)
                    "foo.bar.leave_chain_2" 2
                    [passed "foo.bar" "leave_chain_2"
                       (redirecting "foo.bar.leave_chain_3" None);
                     passed "foo.bar" "leave_chain_3"
                       (redirecting "outside.here.meh" None)]
                    "outside.here.meh"
                    eq_refl eq_refl eq_refl
                    ltac:(nodup)) "outside" "here" "meh");
      vm_compute; reflexivity.
Defined.

Lemma resolution_idempotent_witness :
  _complete_redirect routing_info "foo.bar" module "baz" blank_routing
  = Returned blank_routing routing_info /\
  complete_redirects resolved_routing_info
  = Returned tt resolved_routing_info.
Proof.
  split.
  - apply (proj1 resolution_idempotent). left. reflexivity.
  - exact (proj2 resolution_idempotent routing_info).
Defined.

Lemma self_redirect_witness :
  exists r,
    _parse_plugin_data (YMap self_loop_entry) "foo.bar" module "self_loop"
    = Parsed r /\
    redirect r = REllipsis /\
    redirect_chain r = Some ["foo.bar.self_loop"; "foo.bar.self_loop"] /\
    redirect_error r = Some "Detected circular redirect" /\
    redirect_deprecations r
    = Some [("foo.bar.self_loop", removal "gone in a loop")] /\
    forall rd c ty n, _complete_redirect rd c ty n r = Returned r rd.
Proof.
  eexists. split; [vm_compute; reflexivity|].
  pose proof (self_redirect_is_marked_by_loader self_loop_entry "foo.bar"
                module "self_loop" _ eq_refl eq_refl) as H.
  cbv zeta in H. destruct H as (H1 & H2 & H3 & _ & H5 & _ & _ & H8).
  split; [exact H1|]. split; [exact H2|]. split; [exact H3|].
  split; [exact H5 | exact H8].
Defined.

Local Ltac by_keys :=
  unfold lookup_plugin, plugin_map; simpl;
  repeat (case_decide; subst; simpl; try done).

Lemma renamed_same_catalog : same_catalog renamed_first renamed_last.
Proof.
  split.
  - intros c. unfold renamed_first, renamed_last. simpl. by case_decide.
  - intros c ty n. unfold renamed_first, renamed_last. by_keys.
Qed.

Lemma broken_same_catalog : same_catalog broken_first_1 broken_first_2.
Proof.
  split.
  - intros c. unfold broken_first_1, broken_first_2. simpl. by case_decide.
  - intros c ty n. unfold broken_first_1, broken_first_2. by_keys.
Qed.

Lemma order_independent_witness :
  same_catalog resolved_renamed_first resolved_renamed_last.
Proof.
  apply (order_independent_when_single_hop renamed_first renamed_last
           resolved_renamed_first resolved_renamed_last);
    [vm_compute; reflexivity | exact renamed_same_catalog
    | vm_compute; reflexivity | vm_compute; reflexivity].
Defined.

Lemma iteration_order_counterexample :
  same_catalog broken_first_1 broken_first_2 /\
  exists rd1' rd2' p1 p2,
    complete_redirects broken_first_1 = Returned tt rd1' /\
    complete_redirects broken_first_2 = Returned tt rd2' /\
    lookup_plugin rd1' "foo.bar" lookup_ "broken_chain_1" = Some p1 /\
    lookup_plugin rd2' "foo.bar" lookup_ "broken_chain_1" = Some p2 /\
    redirect p1 = RStr "this-is-not-a-fqcn" /\
    redirect p2 = RStr "foo.bar.broken_chain_2" /\
    ~ same_catalog rd1' rd2'.
Proof.
  split; [exact broken_same_catalog|].
  eexists _, _, _, _. split; [vm_compute; reflexivity|].
  split; [vm_compute; reflexivity|]. split; [vm_compute; reflexivity|].
  split; [vm_compute; reflexivity|]. split; [reflexivity|].
  split; [reflexivity|].
  intros [_ H]. specialize (H "foo.bar" lookup_ "broken_chain_1").
  vm_compute in H. discriminate H.
Qed.

Lemma compat_env_witness :
  exists env,
    _prepare_env ∅ (Some "/collections") true true = Some env /\
    env !! "ANSIBLE_COLLECTIONS_PATH" = Some "/collections" /\
    env !! "_COLLECTIONS_PATH_ENV_VAR_COMPAT" = Some "/collections" /\
    env !! _COLLECTIONS_PATH_ENV_VAR_COMPAT = None.
Proof.
  apply (compat_env_lacks_compat_variable ∅ "/collections" true).
  discriminate.
Defined.

Lemma unknown_collection_witness :
  complete_redirects_for_collection routing_info "does-not-exist"
  = Returned tt routing_info.
Proof.
  apply (unknown_collection_is_noop routing_info "does-not-exist").
  reflexivity.
Defined.

(** * Properties of the rest of the package *)

(** ** More on ordered dictionaries *)

Section DictMore.
Context {K V : Type} `{EqDecision K}.
Implicit Types (d : dict K V) (k : K) (v : V).

Lemma dict_get_None_keys d k : dict_get d k = None <-> k ∉ dict_keys d.
Proof.
  rewrite list_elem_of_In, <- dict_get_keys.
  destruct (dict_get d k) as [v|].
  - split; [done|]. intros H0. destruct H0. by exists v.
  - split; [|done]. intros _ [? ?]. done.
Qed.

Lemma dict_set_keys_new d k v :
  dict_get d k = None -> dict_keys (dict_set d k v) = dict_keys d ++ [k].
Proof.
  induction d as [|[k' v'] d IH]; simpl; [done|].
  destruct (decide (k = k')); [done|]. intros Hg. simpl. by rewrite IH.
Qed.

Lemma dict_set_NoDup d k v :
  NoDup (dict_keys d) -> NoDup (dict_keys (dict_set d k v)).
Proof.
  intros Hd. destruct (dict_get d k) eqn:Hg.
  - by rewrite dict_set_keys.
  - rewrite dict_set_keys_new by done. apply NoDup_app.
    split; [done|]. split; [|apply NoDup_singleton].
    intros x Hx ->%list_elem_of_singleton.
    by apply dict_get_None_keys in Hg.
Qed.

Lemma dict_get_elem d k v :
  NoDup (dict_keys d) -> (k, v) ∈ d <-> dict_get d k = Some v.
Proof.
  induction d as [|[k' v'] d IH]; simpl.
  { intros _. split; [by intros ?%elem_of_nil | done]. }
  intros [Hk Hd]%NoDup_cons. rewrite elem_of_cons.
  destruct (decide (k = k')) as [->|Hne].
  - split.
    + intros [[= ->]|Hin]; [done|]. destruct Hk.
      apply list_elem_of_fmap. by exists (k', v).
    + intros [= ->]. by left.
  - rewrite <- IH by done. split; [|by right]. by intros [[= -> ->]|?].
Qed.
End DictMore.

Lemma eqb_false_ne (a b : string) : String.eqb a b = false -> a <> b.
Proof. intros H ->. by rewrite String.eqb_refl in H. Qed.

(** ** [CollectionInfos.build] *)

(** What the second loop of [build] yields for a name. *)
Lemma add_collections_get l m k :
  dict_get (data.add_collections l m) k
  = match dict_get m k with
    | Some c => Some c
    | None =>
        if String.eqb k "ansible.builtin" || String.eqb k "ansible.legacy"
        then None
        else List.find (fun c => String.eqb (data.full_name c) k) l
    end.
Proof.
  revert m. induction l as [|c l IH]; intros m; simpl.
  { destruct (dict_get m k); [done|]. by destruct (_ || _). }
  destruct (String.eqb (data.full_name c) "ansible.builtin"
            || String.eqb (data.full_name c) "ansible.legacy") eqn:Hs.
  - rewrite IH. destruct (dict_get m k); [done|].
    destruct (String.eqb k "ansible.builtin" || String.eqb k "ansible.legacy")
      eqn:Hk; [done|].
    destruct (String.eqb (data.full_name c) k) eqn:Hck; [|done].
    apply String.eqb_eq in Hck. subst k. congruence.
  - destruct (dict_get m (data.full_name c)) as [c0|] eqn:Hm.
    + rewrite IH. destruct (dict_get m k) eqn:Hmk; [done|].
      destruct (String.eqb (data.full_name c) k) eqn:Hck; [|done].
      apply String.eqb_eq in Hck. subst k. congruence.
    + rewrite IH.
      destruct (String.eqb (data.full_name c) k) eqn:Hck.
      * apply String.eqb_eq in Hck. subst k.
        by rewrite dict_get_set_eq, Hm, Hs.
      * apply eqb_false_ne in Hck.
        rewrite dict_get_set_ne by done. done.
Qed.

Lemma add_collections_keys l m :
  NoDup (dict_keys m) -> NoDup (dict_keys (data.add_collections l m)).
Proof.
  revert m. induction l as [|c l IH]; intros m Hm; simpl; [done|].
  destruct (_ || _); [by apply IH|].
  destruct (dict_get m (data.full_name c)) eqn:Hg; [by apply IH|].
  by apply IH, dict_set_NoDup.
Qed.

Lemma add_collections_entries l m (P : string -> data.CollectionInfo -> Prop) :
  Forall (fun kc => P kc.1 kc.2) m ->
  (forall c, c ∈ l -> P (data.full_name c) c) ->
  Forall (fun kc => P kc.1 kc.2) (data.add_collections l m).
Proof.
  revert m. induction l as [|c l IH]; intros m Hm Hl; simpl; [done|].
  assert (forall c0, c0 ∈ l -> P (data.full_name c0) c0) as Hl'
    by (intros; apply Hl; by right).
  destruct (_ || _); [by apply IH|].
  destruct (dict_get m (data.full_name c)) eqn:Hg; [by apply IH|].
  apply IH; [|done].
  clear -Hm Hl Hg. induction m as [|[k v] m IHm]; simpl.
  - apply Forall_singleton. apply Hl. by left.
  - simpl in Hg. apply Forall_cons in Hm as [Hkv Hm].
    destruct (decide (data.full_name c = k)); [done|].
    apply Forall_cons. split; [done|]. by apply IHm.
Qed.

(** The branches of [build]. *)
Lemma build_view l cis :
  data.build l = Parsed cis ->
  (List.filter data.is_ansible_core l = []
   /\ cis = data.mkCollectionInfos None (data.add_collections l []))
  \/ exists core,
       List.filter data.is_ansible_core l = [core]
       /\ data.full_name core = "ansible.builtin"
       /\ cis = data.mkCollectionInfos (Some core)
                  (data.add_collections l [("ansible.builtin", core)]).
Proof.
  unfold data.build.
  destruct (List.filter data.is_ansible_core l) as [|core [|core' cores]]
    eqn:Hf; simpl.
  - intros [= <-]. by left.
  - destruct (String.eqb (data.full_name core) "ansible.builtin") eqn:Hn;
      simpl; [|done].
    apply String.eqb_eq in Hn. intros [= <-]. right. exists core.
    by rewrite Hn.
  - done.
Qed.

(** X1: when [CollectionInfos.build] returns, the entry ansible.builtin
    of [collections] is [ansible_core] itself (absent when there is no
    ansible-core), ansible.legacy is never a key, [ansible_core] is the one
    collection of the input flagged as ansible-core, and it is named
    ansible.builtin: a collection that only carries the name of ansible-core
    never enters the result. *)
Theorem build_core_entry l cis :
  data.build l = Parsed cis ->
  dict_get (data.collections cis) "ansible.builtin" = data.ansible_core cis /\
  dict_get (data.collections cis) "ansible.legacy" = None /\
  List.filter data.is_ansible_core l = option_list (data.ansible_core cis) /\
  (forall c, data.ansible_core cis = Some c ->
             data.full_name c = "ansible.builtin").
Proof.
  intros [[Hf ->]|(core & Hf & Hn & ->)]%build_view; simpl;
    rewrite !add_collections_get; simpl.
  - by repeat split.
  - repeat split; [done|]. by intros c [= <-].
Qed.


(** X3: when [build] returns, no name occurs twice among the keys of
    [collections], and every key is the full name of the collection stored
    under it, which is one of the input. *)
Theorem build_keys_are_full_names l cis :
  data.build l = Parsed cis ->
  NoDup (dict_keys (data.collections cis)) /\
  Forall (fun kc => data.full_name kc.2 = kc.1 /\ kc.2 ∈ l)
         (data.collections cis).
Proof.
  intros Hb.
  destruct (build_view _ _ Hb) as [[Hf ->]|(core & Hf & Hn & ->)]; simpl.
  - split; [apply add_collections_keys, NoDup_nil_2|].
    by apply (add_collections_entries l []
                (fun k c => data.full_name c = k /\ c ∈ l)).
  - split; [apply add_collections_keys, NoDup_singleton|].
    apply (add_collections_entries l _
             (fun k c => data.full_name c = k /\ c ∈ l)); [|done].
    apply Forall_singleton. simpl. split; [done|].
    assert (In core (List.filter data.is_ansible_core l)) as Hin
      by (rewrite Hf; by left).
    apply filter_In in Hin as [Hin _]. by apply list_elem_of_In.
Qed.

(** ** Plugin types by name *)

Lemma str_in_In x t : str_in x t = true <-> In x t.
Proof.
  unfold str_in. rewrite existsb_exists. split.
  - by intros (y & Hin & ->%String.eqb_eq).
  - intros Hin. exists x. by rewrite String.eqb_refl.
Qed.

Lemma str_in_app x t1 t2 : str_in x (t1 ++ t2) = str_in x t1 || str_in x t2.
Proof. apply existsb_app. Qed.

Lemma plugin_type_of_name_name ty :
  plugin_type_of_name (plugin_type_name ty) = Some ty.
Proof. by destruct ty. Qed.

Lemma plugin_type_of_name_Some s ty :
  plugin_type_of_name s = Some ty -> s = plugin_type_name ty.
Proof.
  unfold plugin_type_of_name. intros [_ H]%find_some.
  by apply String.eqb_eq in H.
Qed.

Lemma plugin_type_of_name_None s :
  plugin_type_of_name s = None
  <-> str_in s (CORE_DOCUMENTABLE_PLUGIN_TYPES ++ CORE_OTHER_PLUGIN_TYPES
                ++ EDA_PLUGIN_TYPES) = false.
Proof.
  split.
  - intros Hn. apply not_true_is_false. intros Hin%str_in_In.
    assert (exists ty, s = plugin_type_name ty) as [ty ->].
    { simpl in Hin.
      repeat (destruct Hin as [<-|Hin];
              [by (eexists become + eexists cache + eexists callback
                   + eexists cliconf + eexists connection + eexists filter_
                   + eexists httpapi + eexists inventory + eexists lookup_
                   + eexists module + eexists netconf + eexists shell
                   + eexists strategy + eexists test + eexists vars
                   + eexists action + eexists doc_fragments
                   + eexists module_utils + eexists plugin_utils
                   + eexists eda_event_filter + eexists eda_event_source)|]).
      done. }
    by rewrite plugin_type_of_name_name in Hn.
  - intros Hf. destruct (plugin_type_of_name s) as [ty|] eqn:Hs; [|done].
    apply plugin_type_of_name_Some in Hs as ->. by destruct ty.
Qed.

(** The names in one of the tuples. *)
Local Ltac one_of H :=
  apply str_in_In in H; simpl in H;
  repeat (destruct H as [<-|H]; [|]); [..|done].

(** X4: [get_plugin_directory] raises [ValueError] exactly for a string
    that is no plugin type and, when the collection is ansible-core, for
    the two EDA plugin types; for a collection that is not ansible-core
    every plugin type has a directory. *)
Theorem get_plugin_directory_raises_iff collection plugin_type :
  get_plugin_directory collection plugin_type = ValueError
  <-> plugin_type_of_name plugin_type = None
      \/ (data.is_ansible_core collection = true
          /\ str_in plugin_type EDA_PLUGIN_TYPES = true).
Proof.
  rewrite plugin_type_of_name_None, !str_in_app. unfold get_plugin_directory.
  destruct (String.eqb plugin_type "module") eqn:Hm.
  { apply String.eqb_eq in Hm as ->.
    split; [by destruct (data.is_ansible_core collection)|].
    intros [H|[_ H]]; by vm_compute in H. }
  destruct (str_in plugin_type CORE_DOCUMENTABLE_PLUGIN_TYPES) eqn:Hd;
    cbn [orb].
  { split; [intros H; discriminate H|]. intros [?|[_ He]]; [done|].
    one_of Hd; by vm_compute in He. }
  destruct (str_in plugin_type CORE_OTHER_PLUGIN_TYPES) eqn:Ho; cbn [orb].
  { split; [intros H; discriminate H|]. intros [?|[_ He]]; [done|].
    one_of Ho; by vm_compute in He. }
  destruct (data.is_ansible_core collection); cbn [negb].
  - split; [|done]. intros _.
    destruct (str_in plugin_type EDA_PLUGIN_TYPES); [by right | by left].
  - assert (is_Some (dict_get _EDA_DIRECTORIES plugin_type)
            <-> str_in plugin_type EDA_PLUGIN_TYPES = true) as Hiff.
    { rewrite dict_get_keys, str_in_In. done. }
    destruct (dict_get _EDA_DIRECTORIES plugin_type) as [d|].
    + split; [intros H; discriminate H|]. intros [H|[? _]]; [|done].
      rewrite (proj1 Hiff) in H by by eexists. done.
    + split; [|done]. intros _. left.
      destruct (str_in plugin_type EDA_PLUGIN_TYPES); [|done].
      destruct (proj2 Hiff eq_refl) as [? ?]. done.
Qed.

Lemma core_type_names name ty :
  _get_real_plugin_type_name name = Some ty
  <-> (name = "modules" /\ ty = module)
      \/ (name = plugin_type_name ty
          /\ ty <> eda_event_filter /\ ty <> eda_event_source).
Proof.
  unfold _get_real_plugin_type_name.
  destruct (String.eqb_spec name "modules") as [->|Hne].
  { split; [intros [= <-]; by left|]. intros [[_ ->]|[H _]]; [done|].
    by destruct ty. }
  destruct (str_in name CORE_DOCUMENTABLE_PLUGIN_TYPES) eqn:Hd.
  { split.
    - intros H. right. split; [by apply plugin_type_of_name_Some|].
      one_of Hd; vm_compute in H; by injection H as <-.
    - intros [[? _]|[-> _]]; [done|]. apply plugin_type_of_name_name. }
  destruct (str_in name CORE_OTHER_PLUGIN_TYPES) eqn:Ho.
  { split.
    - intros H. right. split; [by apply plugin_type_of_name_Some|].
      one_of Ho; vm_compute in H; by injection H as <-.
    - intros [[? _]|[-> _]]; [done|]. apply plugin_type_of_name_name. }
  split; [done|]. intros [[? _]|(-> & H1 & H2)]; [done|].
  by destruct ty.
Qed.

Lemma eda_type_names name ty :
  get_real_plugin_type_name name = Some ty
  <-> String.append "eda_" name = plugin_type_name ty
      /\ (ty = eda_event_filter \/ ty = eda_event_source).
Proof.
  unfold get_real_plugin_type_name.
  destruct (str_in (String.append "eda_" name) EDA_PLUGIN_TYPES) eqn:He.
  - split.
    + intros H. split; [by apply plugin_type_of_name_Some|].
      apply str_in_In in He. simpl in He.
      destruct He as [E|[E|[]]]; rewrite <- E in H; vm_compute in H;
        injection H as <-; auto.
    + intros [-> _]. apply plugin_type_of_name_name.
  - split; [done|]. intros [Hn [->| ->]]; rewrite Hn in He; done.
Qed.

(** X5: the names of plugin types in routing files.  For meta/runtime.yml
    and ansible-core, a key is read as a plugin type exactly when it is
    [modules], read as [module], or the name of a plugin type that is not an
    EDA type; for eda_runtime.yml, exactly when [eda_] followed by the key
    is the name of an EDA type.  So no key of the one file can give a type
    of the other. *)
Theorem real_plugin_type_names name ty :
  (_get_real_plugin_type_name name = Some ty
   <-> (name = "modules" /\ ty = module)
       \/ (name = plugin_type_name ty
           /\ ty <> eda_event_filter /\ ty <> eda_event_source))
  /\
  (get_real_plugin_type_name name = Some ty
   <-> String.append "eda_" name = plugin_type_name ty
       /\ (ty = eda_event_filter \/ ty = eda_event_source)).
Proof. split; [apply core_type_names | apply eda_type_names]. Qed.

(** ** [_yield_collection] *)

Lemma split_dot_first s a r : split_dot s = Some (a, r) -> split_dot a = None.
Proof.
  revert a. induction s as [|c s IH]; intros a; simpl; [done|].
  destruct (Ascii.eqb c ".") eqn:Hc; [by intros [= <- <-]|].
  destruct (split_dot s) as [[a' b']|]; [|done].
  intros [= <- <-]. simpl. rewrite Hc. by rewrite (IH a').
Qed.




(** ** The loader *)

Lemma fresh_marked r : fresh r -> marked r.
Proof. intros (_ & _ & H & _) Hr. by rewrite (H Hr). Qed.

Lemma _parse_plugin_data_fresh y own_name ty n r :
  _parse_plugin_data y own_name ty n = Parsed r -> fresh r.
Proof.
  unfold _parse_plugin_data.
  destruct (negb (yaml_truthy y)); [by intros [= <-]|].
  destruct y as [| | | | | | |m]; try done.
  destruct (_load_removal_data m "deprecation") as [dep|]; [|done].
  destruct (_load_removal_data m "tombstone") as [tomb|]; [|done].
  destruct (if bool_decide (ty = module) then _ else _) as [ap|]; [|done].
  destruct (dict_get m "redirect") as [[| | |s| | | |]|]; try done.
  - destruct (String.eqb s (dotted own_name n)); intros [= <-]; by repeat split.
  - intros [= <-]. by repeat split.
Qed.

Section DictAll.
Context {K V : Type} `{EqDecision K} (P : K * V -> Prop).
Implicit Types (d : dict K V).

Lemma dict_set_Forall d k v :
  Forall P d -> P (k, v) -> Forall P (dict_set d k v).
Proof.
  intros Hd Hv. induction d as [|[k' v'] d IH]; simpl.
  - by apply Forall_singleton.
  - apply Forall_cons in Hd as [H1 Hd].
    destruct (decide (k = k')); apply Forall_cons; auto.
Qed.

Lemma dict_update_Forall d other :
  Forall P d -> Forall P other -> Forall P (dict_update d other).
Proof.
  unfold dict_update. revert d.
  induction other as [|[k v] o IH]; intros d Hd Ho; simpl; [done|].
  apply Forall_cons in Ho as [H1 Ho]. apply IH; [|done].
  by apply dict_set_Forall.
Qed.

Lemma dict_get_Forall d k v : Forall P d -> dict_get d k = Some v -> P (k, v).
Proof.
  intros Hd Hg%dict_get_In. rewrite Forall_forall in Hd.
  by apply Hd, list_elem_of_In.
Qed.
End DictAll.

Lemma all_plugins_lookup P rd :
  all_plugins P rd ->
  forall c ty n p, lookup_plugin rd c ty n = Some p -> P p.
Proof.
  intros Hrd c ty n p. unfold lookup_plugin, plugin_map.
  destruct (dict_get rd c) as [cr|] eqn:Hc; [|done].
  destruct (dict_get (plugin_data cr) ty) as [m|] eqn:Hm; [|done].
  intros Hn.
  pose proof (dict_get_Forall _ _ _ _ Hrd Hc) as H1. simpl in H1.
  pose proof (dict_get_Forall _ _ _ _ H1 Hm) as H2. simpl in H2.
  apply (dict_get_Forall _ _ _ _ H2 Hn).
Qed.

Lemma parse_plugins_all P own_name ty items acc d :
  (forall y n r, _parse_plugin_data y own_name ty n = Parsed r -> P r) ->
  Forall (fun np => P np.2) acc ->
  parse_plugins own_name ty items acc = Parsed d ->
  Forall (fun np => P np.2) d.
Proof.
  intros HP. revert acc. induction items as [|[n y] items IH]; intros acc Ha;
    simpl; [by intros [= <-]|].
  destruct (_parse_plugin_data y own_name ty n) as [r|] eqn:Hr; [|done].
  apply IH. apply dict_set_Forall; [done|]. simpl. by eapply HP.
Qed.

Lemma parse_types_all P own_name get items acc d :
  (forall y ty n r, _parse_plugin_data y own_name ty n = Parsed r -> P r) ->
  all_records P acc ->
  parse_types own_name get items acc = Parsed d ->
  all_records P d.
Proof.
  intros HP. revert acc. induction items as [|[k v] items IH]; intros acc Ha;
    simpl; [by intros [= <-]|].
  destruct (get k) as [ty|]; [|by apply IH].
  destruct (negb (yaml_truthy v)); [by apply IH|].
  destruct v as [| | | | | | |plugins]; try done.
  destruct (parse_plugins own_name ty plugins []) as [m|] eqn:Hm; [|done].
  apply IH. apply dict_set_Forall; [done|]. simpl.
  eapply parse_plugins_all; [|apply Forall_nil_2|exact Hm].
  intros y n r. apply HP.
Qed.

Lemma _load_routing_information_all P data own_name get d :
  (forall y ty n r, _parse_plugin_data y own_name ty n = Parsed r -> P r) ->
  _load_routing_information data own_name get = Parsed d ->
  all_records P d.
Proof.
  intros HP. unfold _load_routing_information.
  destruct data as [| | | | | | |m]; try done.
  { intros [= <-]. apply Forall_nil_2. }
  destruct (dict_get m "plugin_routing") as [[| | | | | | |pr]|]; try done;
    try (intros [= <-]; apply Forall_nil_2).
  by apply parse_types_all, Forall_nil_2.
Qed.

Lemma load_routing_information_fresh fs ci cr :
  load_routing_information fs ci = Loaded cr ->
  all_records fresh (plugin_data cr).
Proof.
  assert (forall data own get d,
            of_parsed (_load_routing_information data own get) = Loaded d ->
            all_records fresh d) as Hone.
  { intros data own get d.
    destruct (_load_routing_information data own get) as [d'|] eqn:Hd;
      [|done].
    intros [= <-]. eapply _load_routing_information_all; [|exact Hd].
    intros y ty n r. apply _parse_plugin_data_fresh. }
  unfold load_routing_information.
  destruct (data.is_ansible_core ci).
  - unfold _load_core_routing_information.
    destruct (fs _) as [|why|data]; simpl.
    + intros [= <-]. apply Forall_nil_2.
    + done.
    + destruct (of_parsed _) as [d|] eqn:Hd; [|done].
      intros [= <-]. by eapply Hone.
  - unfold _load_collection_routing_information,
      _load_eda_routing_information.
    assert (forall f own get d,
              match f with
              | FileNotFoundError => Loaded []
              | Unreadable why => Failed (OtherError why)
              | Document data =>
                  of_parsed (_load_routing_information data own get)
              end = Loaded d -> all_records fresh d) as Hfile.
    { intros [|why|data] own get d; [|done|by apply Hone].
      intros [= <-]. apply Forall_nil_2. }
    destruct (match fs (data.path ci // _COLLECTION_ROUTING_INFO) with
              | FileNotFoundError => _ | Unreadable _ => _ | Document _ => _
              end) as [coll|] eqn:Hc; [|done].
    destruct (match fs (data.path ci // _COLLECTION_EDA_ROUTING_INFO) with
              | FileNotFoundError => _ | Unreadable _ => _ | Document _ => _
              end) as [eda|] eqn:He; [|done].
    intros [= <-]. simpl. apply dict_update_Forall.
    + apply dict_update_Forall; [apply Forall_nil_2|]. by eapply Hfile.
    + by eapply Hfile.
Qed.

Example test_load_routing_information_collection :
  load_routing_information no_files foo_bar = Loaded (mkCollectionRouting [])
  /\ load_routing_information foo_bar_files foo_bar
     = Loaded (mkCollectionRouting
         [ (module,
             [ ("formerly_core_ping",
                {| action_plugin := None;
                   redirect := RStr "testns.testcoll.ping";
                   redirect_chain := None; redirect_deprecations := None;
                   redirect_tombstone := false; redirect_dead_end := false;
                   redirect_error := None; deprecation := None;
                   tombstone :=
                     Some (mkRemovalData (Some "foo") (Some "1.2.3")
                             (Some (AStr "2030-01-01"))) |});
               ("uses_redirected_action",
                redirecting "ansible.builtin.ping" None);
               ("foo", blank_routing);
               ("bar", blank_routing);
               ("meh",
                {| action_plugin := Some "foo"; redirect := RNone;
                   redirect_chain := None; redirect_deprecations := None;
                   redirect_tombstone := false; redirect_dead_end := false;
                   redirect_error := None; deprecation := None;
                   tombstone := None |}) ]);
           (eda_event_source,
             [ ("old_webhook",
                {| action_plugin := None; redirect := RNone;
                   redirect_chain := None; redirect_deprecations := None;
                   redirect_tombstone := false; redirect_dead_end := false;
                   redirect_error := None; deprecation := None;
                   tombstone :=
                     Some (mkRemovalData (Some "foo") (Some "2.0.0")
                             None) |}) ]);
           (eda_event_filter,
             [ ("legacy_filter",
                redirecting "foo.bar.baz"
                  (Some (mkRemovalData (Some "bar") (Some "3.0.0")
                           None))) ]) ]).
Proof. split; reflexivity. Qed.

Example test_collect_routing_information :
  data.build [foo_bar] = Parsed foo_bar_infos
  /\ collect_routing_information no_files foo_bar_infos None
     = Loaded [ ("foo.bar", mkCollectionRouting []) ]
  /\ collect_routing_information broken_files foo_bar_infos None
     = Failed InvalidRouting
  /\ collect_routing_information broken_files foo_bar_infos
       (Some (fun _ _ => Failed (OtherError "foo")))
     = Failed (OtherError "foo")
  /\ collect_routing_information broken_files foo_bar_infos
       (Some (fun _ _ => Loaded None))
     = Loaded []
  /\ collect_routing_information broken_files foo_bar_infos
       (Some (fun _ _ =>
                Loaded (Some (mkCollectionRouting [ (connection, []) ]))))
     = Loaded [ ("foo.bar", mkCollectionRouting [ (connection, []) ]) ].
Proof. repeat split; reflexivity. Qed.

Lemma collect_all P fs hb infos acc rd :
  (forall ci cr, load_routing_information fs ci = Loaded cr ->
                 all_records P (plugin_data cr)) ->
  (forall h ci e cr, hb = Some h -> h ci e = Loaded (Some cr) ->
                     all_records P (plugin_data cr)) ->
  all_plugins P acc ->
  collect fs hb infos acc = Loaded rd -> all_plugins P rd.
Proof.
  intros Hl Hh. revert acc.
  induction infos as [|ci infos IH]; intros acc Ha; simpl;
    [by intros [= <-]|].
  destruct (load_routing_information fs ci) as [cr|e] eqn:Hci.
  - apply IH. apply dict_set_Forall; [done|]. simpl. by eapply Hl.
  - destruct hb as [h|]; [|done].
    destruct (h ci e) as [[res|]|e'] eqn:Hr; [| |done].
    + apply IH. apply dict_set_Forall; [done|]. simpl. by eapply Hh.
    + by apply IH.
Qed.

(** X7: a catalog collected from routing files is resolved without an
    exception.  Every record the loader builds that carries the cycle marker
    also carries the error of a circular redirect, so that, as long as the
    routings a handler supplies do the same, [complete_redirects] on the
    collected catalog returns, and leaves no redirect unresolved. *)
Theorem collected_catalog_resolves fs collection_infos handle_broken rd :
  (forall h ci e cr, handle_broken = Some h -> h ci e = Loaded (Some cr) ->
                     all_records marked (plugin_data cr)) ->
  collect_routing_information fs collection_infos handle_broken = Loaded rd ->
  all_plugins marked rd /\
  exists rd', complete_redirects rd = Returned tt rd' /\ all_done rd'.
Proof.
  intros Hh Hc.
  assert (all_plugins marked rd) as Hm.
  { eapply collect_all; [| exact Hh | apply Forall_nil_2 | exact Hc].
    intros ci cr Hl. apply load_routing_information_fresh in Hl.
    eapply Forall_impl; [exact Hl|]. intros tm Htm. simpl in *.
    eapply Forall_impl; [exact Htm|]. intros np. apply fresh_marked. }
  split; [done|].
  destruct (complete_redirects_returns rd) as [rd' Hrd'].
  { intros c ty n p. by apply all_plugins_lookup. }
  exists rd'. split; [done|].
  pose proof (complete_redirects_post rd) as Hp. rewrite Hrd' in Hp.
  by destruct Hp.
Qed.

Lemma collected_catalog_resolves_witness :
  all_plugins marked foo_bar_catalog
  /\ exists rd',
       complete_redirects foo_bar_catalog = Returned tt rd' /\ all_done rd'.
Proof.
  apply (collected_catalog_resolves foo_bar_files foo_bar_infos None).
  - intros h ci e cr H. discriminate H.
  - reflexivity.
Defined.

Section DictApp.
Context {K V : Type} `{EqDecision K}.
Implicit Types (d : dict K V) (k : K) (v : V).

Lemma dict_set_new d k v : dict_get d k = None -> dict_set d k v = d ++ [(k, v)].
Proof.
  induction d as [|[k' v'] d IH]; simpl; [done|].
  destruct (decide (k = k')); [done|]. intros Hg. by rewrite IH.
Qed.

Lemma dict_get_app d1 d2 k :
  dict_get (d1 ++ d2) k
  = match dict_get d1 k with Some v => Some v | None => dict_get d2 k end.
Proof.
  induction d1 as [|[k' v'] d1 IH]; simpl; [done|].
  by destruct (decide (k = k')).
Qed.

Lemma dict_update_app d other :
  NoDup (dict_keys d ++ dict_keys other) -> dict_update d other = d ++ other.
Proof.
  unfold dict_update. revert d.
  induction other as [|[k v] o IH]; intros d Hnd; simpl.
  { by rewrite app_nil_r. }
  assert (dict_get d k = None) as Hk.
  { apply dict_get_None_keys. apply NoDup_app in Hnd as (_ & Hnd & _).
    intros Hin. apply (Hnd _ Hin). simpl. by left. }
  rewrite (dict_set_new _ _ _ Hk), IH.
  - by rewrite <- app_assoc.
  - unfold dict_keys in *. rewrite fmap_app. simpl in *.
    by rewrite <- app_assoc.
Qed.
End DictApp.

(** ** What [_load_routing_information] returns *)

Lemma parse_plugins_pointwise own_name ty items acc d :
  parse_plugins own_name ty items acc = Parsed d ->
  NoDup (dict_keys acc ++ map fst items) ->
  exists d', d = acc ++ d' /\
    Forall2 (fun ny nr =>
               nr.1 = ny.1
               /\ _parse_plugin_data ny.2 own_name ty ny.1 = Parsed nr.2)
            items d'.
Proof.
  revert acc. induction items as [|[n y] items IH]; intros acc; simpl.
  { intros [= <-] _. exists []. by rewrite app_nil_r. }
  destruct (_parse_plugin_data y own_name ty n) as [r|] eqn:Hr; [|done].
  intros Hp Hnd.
  assert (dict_get acc n = None) as Hn.
  { apply dict_get_None_keys. apply NoDup_app in Hnd as (_ & Hnd & _).
    intros Hin. apply (Hnd _ Hin). by left. }
  rewrite (dict_set_new _ _ _ Hn) in Hp.
  destruct (IH _ Hp) as (d' & -> & Hd').
  { unfold dict_keys. rewrite fmap_app. simpl. by rewrite <- app_assoc. }
  exists ((n, r) :: d'). split; [by rewrite <- app_assoc|].
  by apply Forall2_cons.
Qed.

Lemma parse_plugins_error own_name ty items acc :
  parse_plugins own_name ty items acc = ValueError
  <-> exists n y, (n, y) ∈ items
                  /\ _parse_plugin_data y own_name ty n = ValueError.
Proof.
  revert acc. induction items as [|[n y] items IH]; intros acc; simpl.
  { split; [done|]. by intros (n & y & ?%elem_of_nil & _). }
  destruct (_parse_plugin_data y own_name ty n) as [r|] eqn:Hr.
  - rewrite IH. split.
    + intros (n' & y' & Hin & He). exists n', y'. split; [by right|done].
    + intros (n' & y' & Hin & He). exists n', y'. split; [|done].
      apply elem_of_cons in Hin as [[= -> ->]|Hin]; [congruence|done].
  - split; [|done]. intros _. exists n, y. split; [by left|done].
Qed.

Lemma find_app_ {A : Type} (f : A -> bool) (l1 l2 : list A) :
  List.find f (l1 ++ l2)
  = match List.find f l1 with Some x => Some x | None => List.find f l2 end.
Proof. induction l1 as [|x l1 IH]; simpl; [done|]. by destruct (f x). Qed.

Lemma parse_types_get own_name get items acc res ty :
  parse_types own_name get items acc = Parsed res ->
  dict_get res ty
  = match List.find (read_for get ty) (rev items) with
    | Some (_, YMap plugins) =>
        match parse_plugins own_name ty plugins [] with
        | Parsed d => Some d
        | ValueError => None
        end
    | Some _ => None
    | None => dict_get acc ty
    end.
Proof.
  revert acc. induction items as [|[k v] items IH]; intros acc; simpl.
  { by intros [= <-]. }
  rewrite find_app_. simpl. unfold read_for at 2. simpl.
  destruct (get k) as [ty'|] eqn:Hk.
  2:{ intros Hp. rewrite (IH _ Hp). rewrite bool_decide_eq_false_2 by done.
      by destruct (List.find _ _) as [[? ?]|]. }
  destruct (yaml_truthy v) eqn:Hv; simpl.
  2:{ intros Hp. rewrite (IH _ Hp), andb_false_r.
      by destruct (List.find _ _) as [[? ?]|]. }
  destruct v as [| | | | | | |plugins]; try done.
  destruct (parse_plugins own_name ty' plugins []) as [m|] eqn:Hm; [|done].
  intros Hp. rewrite (IH _ Hp).
  destruct (List.find (read_for get ty) (rev items)) as [[k0 v0]|]; [done|].
  rewrite andb_true_r. destruct (decide (ty' = ty)) as [->|Hne].
  - rewrite bool_decide_eq_true_2 by done. by rewrite Hm, dict_get_set_eq.
  - rewrite bool_decide_eq_false_2 by congruence.
    by rewrite dict_get_set_ne.
Qed.

Lemma parse_types_filter own_name get items acc :
  parse_types own_name get items acc
  = parse_types own_name get (List.filter (is_read get) items) acc.
Proof.
  revert acc. induction items as [|[k v] items IH]; intros acc; simpl; [done|].
  unfold is_read at 1. simpl.
  destruct (get k) as [ty|] eqn:Hk.
  2:{ rewrite bool_decide_eq_false_2 by (by intros [? ?]). apply IH. }
  rewrite bool_decide_eq_true_2 by by eexists.
  destruct (yaml_truthy v) eqn:Hv; simpl; [|apply IH].
  rewrite Hk, Hv. simpl.
  destruct v as [| | | | | | |plugins]; try done.
  destruct (parse_plugins own_name ty plugins []); [apply IH | done].
Qed.

Lemma parse_types_error own_name get items acc :
  parse_types own_name get items acc = ValueError
  <-> exists k v ty,
        (k, v) ∈ items /\ get k = Some ty /\ yaml_truthy v = true
        /\ forall plugins, v = YMap plugins ->
             exists n y, (n, y) ∈ plugins
                         /\ _parse_plugin_data y own_name ty n = ValueError.
Proof.
  revert acc. induction items as [|[k v] items IH]; intros acc; simpl.
  { split; [done|]. by intros (k & v & ty & ?%elem_of_nil & _). }
  assert (forall acc',
            parse_types own_name get items acc' = ValueError ->
            exists k0 v0 ty, (k0, v0) ∈ (k, v) :: items /\ get k0 = Some ty
              /\ yaml_truthy v0 = true
              /\ forall plugins, v0 = YMap plugins ->
                   exists n y, (n, y) ∈ plugins
                     /\ _parse_plugin_data y own_name ty n = ValueError)
    as Hlater.
  { intros acc' (k0 & v0 & ty & Hin & H)%IH. exists k0, v0, ty.
    split; [by right|done]. }
  assert (forall acc',
            (exists k0 v0 ty, (k0, v0) ∈ (k, v) :: items /\ get k0 = Some ty
              /\ yaml_truthy v0 = true
              /\ forall plugins, v0 = YMap plugins ->
                   exists n y, (n, y) ∈ plugins
                     /\ _parse_plugin_data y own_name ty n = ValueError) ->
            (forall ty, get k = Some ty -> yaml_truthy v = true ->
               exists plugins, v = YMap plugins
                 /\ parse_plugins own_name ty plugins [] <> ValueError) ->
            parse_types own_name get items acc' = ValueError) as Hhere.
  { intros acc' (k0 & v0 & ty & Hin & Hg & Ht & Hp) Hok. apply IH.
    apply elem_of_cons in Hin as [[= -> ->]|Hin].
    - destruct (Hok ty Hg Ht) as (plugins & -> & Hne). destruct Hne.
      apply parse_plugins_error. by apply Hp.
    - by exists k0, v0, ty. }
  destruct (get k) as [ty|] eqn:Hk.
  2:{ split; [apply Hlater|]. intros H. by apply Hhere. }
  destruct (yaml_truthy v) eqn:Hv; simpl.
  2:{ split; [apply Hlater|]. intros H. by apply Hhere. }
  destruct v as [| | | | | | |plugins];
    try (split; [intros _|done]; exists k; eexists; exists ty;
         split; [by left|]; split; [done|]; split; [done|]; by intros ?).
  destruct (parse_plugins own_name ty plugins []) as [m|] eqn:Hm.
  - split; [apply Hlater|]. intros H. apply Hhere; [done|].
    intros ty' [= <-] _. exists plugins. by rewrite Hm.
  - split; [|done]. intros _. exists k, (YMap plugins), ty.
    split; [by left|]. split; [done|]. split; [done|].
    intros ? [= <-]. by apply parse_plugins_error in Hm.
Qed.

(** X8: the plugins of one type are parsed one by one, in the order of the
    file.  For a mapping of plugins (each name once) that the loader
    accepts, the plugin map has the names of the mapping in the same order,
    each with the record [_parse_plugin_data] gives for its entry. *)
Theorem plugins_parsed_in_order own_name ty plugins d :
  NoDup (map fst plugins) ->
  parse_plugins own_name ty plugins [] = Parsed d ->
  dict_keys d = map fst plugins /\
  Forall2 (fun ny nr =>
             nr.1 = ny.1
             /\ _parse_plugin_data ny.2 own_name ty ny.1 = Parsed nr.2)
          plugins d.
Proof.
  intros Hnd Hp.
  destruct (parse_plugins_pointwise _ _ _ _ _ Hp) as (d' & -> & Hd'); [done|].
  simpl. split; [|done]. clear -Hd'.
  induction Hd' as [|[n y] [n' r] items d' [Hn _] _ IH]; simpl in *; [done|].
  by rewrite Hn, IH.
Qed.

Lemma plugins_parsed_in_order_witness :
  dict_keys
    [ ("old", redirecting "foo.bar.new" None); ("new", blank_routing) ]
  = map fst [ ("old", YMap [ ("redirect", YStr "foo.bar.new") ]);
              ("new", YNull) ]
  /\ Forall2 (fun ny nr =>
                nr.1 = ny.1
                /\ _parse_plugin_data ny.2 "foo.bar" module ny.1
                   = Parsed nr.2)
       [ ("old", YMap [ ("redirect", YStr "foo.bar.new") ]); ("new", YNull) ]
       [ ("old", redirecting "foo.bar.new" None); ("new", blank_routing) ].
Proof.
  apply (plugins_parsed_in_order "foo.bar" module
           [ ("old", YMap [ ("redirect", YStr "foo.bar.new") ]);
             ("new", YNull) ]).
  - refine (bool_decide_unpack _ _). vm_compute. exact I.
  - reflexivity.
Defined.

(** X9: the last entry wins.  In an accepted document the plugin map of a
    type is the one parsed from the last entry of [plugin_routing] whose key
    names that type and whose value is truthy, and the type is absent when
    there is no such entry: for [modules] and [module] in one file the
    plugins of the earlier entry are dropped. *)
Theorem plugin_type_last_entry_wins m plugin_routing own_name get res ty :
  dict_get m "plugin_routing" = Some (YMap plugin_routing) ->
  _load_routing_information (YMap m) own_name get = Parsed res ->
  dict_get res ty
  = match List.find (read_for get ty) (rev plugin_routing) with
    | Some (_, YMap plugins) =>
        match parse_plugins own_name ty plugins [] with
        | Parsed d => Some d
        | ValueError => None
        end
    | _ => None
    end.
Proof.
  intros Hm. unfold _load_routing_information. rewrite Hm. intros Hp.
  rewrite (parse_types_get _ _ _ _ _ ty Hp).
  by destruct (List.find _ _) as [[? [| | | | | | |?]]|].
Qed.

Lemma plugin_type_last_entry_wins_witness :
  dict_get
    [ (module, [ ("b", blank_routing) ]) ] module
  = match List.find (read_for _get_real_plugin_type_name module)
            (rev [ ("modules", YMap [ ("a", YNull) ]);
                   ("module", YMap [ ("b", YNull) ]) ]) with
    | Some (_, YMap plugins) =>
        match parse_plugins "foo.bar" module plugins [] with
        | Parsed d => Some d
        | ValueError => None
        end
    | _ => None
    end.
Proof.
  apply (plugin_type_last_entry_wins
           [ ("plugin_routing",
              YMap [ ("modules", YMap [ ("a", YNull) ]);
                     ("module", YMap [ ("b", YNull) ]) ]) ]
           [ ("modules", YMap [ ("a", YNull) ]);
             ("module", YMap [ ("b", YNull) ]) ]
           "foo.bar" _get_real_plugin_type_name); reflexivity.
Defined.

(** X10: what the loader does not read does not matter.  A document is
    loaded as the document that holds only [plugin_routing], without the
    entries whose key names no plugin type or whose value is falsy: these
    are not checked either, so that they cannot make the loader fail. *)
Theorem unread_entries_do_not_matter m plugin_routing own_name get :
  dict_get m "plugin_routing" = Some (YMap plugin_routing) ->
  _load_routing_information (YMap m) own_name get
  = _load_routing_information
      (routing_document (List.filter (is_read get) plugin_routing))
      own_name get.
Proof.
  intros Hm. unfold _load_routing_information, routing_document.
  rewrite Hm. simpl. apply parse_types_filter.
Qed.

Lemma unread_entries_do_not_matter_witness :
  _load_routing_information
    (YMap [ ("requires_ansible", YStr ">=2.15");
            ("plugin_routing",
             YMap [ ("i-dont-care", YInt 42); ("lookup", YSeq []);
                    ("modules", YMap [ ("a", YNull) ]) ]) ])
    "foo.bar" _get_real_plugin_type_name
  = _load_routing_information
      (routing_document
         (List.filter (is_read _get_real_plugin_type_name)
            [ ("i-dont-care", YInt 42); ("lookup", YSeq []);
              ("modules", YMap [ ("a", YNull) ]) ]))
      "foo.bar" _get_real_plugin_type_name.
Proof.
  apply (unread_entries_do_not_matter
           [ ("requires_ansible", YStr ">=2.15");
             ("plugin_routing",
              YMap [ ("i-dont-care", YInt 42); ("lookup", YSeq []);
                     ("modules", YMap [ ("a", YNull) ]) ]) ]).
  reflexivity.
Defined.

(** X11: when the loader raises.  For a document whose [plugin_routing] is
    a mapping, [_load_routing_information] raises [ValueError] exactly when
    some entry that it reads (the key names a plugin type, the value is
    truthy) is not a mapping or holds a plugin whose entry
    [_parse_plugin_data] rejects. *)
Theorem _load_routing_information_raises_iff m plugin_routing own_name get :
  dict_get m "plugin_routing" = Some (YMap plugin_routing) ->
  _load_routing_information (YMap m) own_name get = ValueError
  <-> exists k v ty,
        (k, v) ∈ plugin_routing /\ get k = Some ty /\ yaml_truthy v = true
        /\ forall plugins, v = YMap plugins ->
             exists n y, (n, y) ∈ plugins
                         /\ _parse_plugin_data y own_name ty n = ValueError.
Proof.
  intros Hm. unfold _load_routing_information. rewrite Hm.
  apply parse_types_error.
Qed.

Lemma _load_routing_information_raises_iff_witness :
  _load_routing_information
    (routing_document [ ("connection", YSeq [ YStr "foo" ]) ])
    "ansible.builtin" _get_real_plugin_type_name = ValueError
  <-> exists k v ty,
        (k, v) ∈ [ ("connection", YSeq [ YStr "foo" ]) ]
        /\ _get_real_plugin_type_name k = Some ty /\ yaml_truthy v = true
        /\ forall plugins, v = YMap plugins ->
             exists n y, (n, y) ∈ plugins
                         /\ _parse_plugin_data y "ansible.builtin" ty n
                            = ValueError.
Proof.
  apply (_load_routing_information_raises_iff
           [ ("plugin_routing", YMap [ ("connection", YSeq [ YStr "foo" ]) ]) ]).
  reflexivity.
Defined.

Lemma parse_plugins_keys own_name ty items acc d :
  parse_plugins own_name ty items acc = Parsed d ->
  NoDup (dict_keys acc) ->
  NoDup (dict_keys d) /\ (dict_truthy acc = true \/ items <> [] ->
                          dict_truthy d = true).
Proof.
  revert acc. induction items as [|[n y] items IH]; intros acc; simpl.
  { intros [= <-] Hnd. split; [done|]. by intros [?|?]. }
  destruct (_parse_plugin_data y own_name ty n) as [r|]; [|done].
  intros Hp Hnd. destruct (IH _ Hp) as [H1 H2]; [by apply dict_set_NoDup|].
  split; [done|]. intros _. apply H2. left.
  destruct acc as [|[k v] acc]; simpl; [done|]. by destruct (decide (n = k)).
Qed.

Lemma parse_types_keys own_name get items acc d (Q : PluginType -> Prop) :
  parse_types own_name get items acc = Parsed d ->
  (forall k ty, get k = Some ty -> Q ty) ->
  loaded_types acc -> Forall (fun tm => Q tm.1) acc ->
  loaded_types d /\ Forall (fun tm => Q tm.1) d.
Proof.
  intros Hp HQ. revert acc Hp.
  induction items as [|[k v] items IH]; intros acc; simpl.
  { by intros [= <-]. }
  destruct (get k) as [ty|] eqn:Hk; [|apply IH].
  destruct (yaml_truthy v) eqn:Hv; simpl; [|apply IH].
  destruct v as [| | | | | | |plugins]; try done.
  destruct (parse_plugins own_name ty plugins []) as [m|] eqn:Hm; [|done].
  intros Hp [Hnd Hall] HaQ. apply (IH _ Hp).
  - destruct (parse_plugins_keys _ _ _ _ _ Hm) as [H1 H2]; [apply NoDup_nil_2|].
    split; [by apply dict_set_NoDup|]. apply dict_set_Forall; [done|].
    simpl. split; [|done]. apply H2. right. by destruct plugins.
  - apply dict_set_Forall; [done|]. simpl. by eapply HQ.
Qed.

Lemma _load_routing_information_keys data own_name get d
    (Q : PluginType -> Prop) :
  _load_routing_information data own_name get = Parsed d ->
  (forall k ty, get k = Some ty -> Q ty) ->
  loaded_types d /\ Forall (fun tm => Q tm.1) d.
Proof.
  assert (loaded_types []
          /\ Forall (fun tm : PluginType * dict string PluginRouting =>
                       Q tm.1) []) as Hnil.
  { split; [|done]. split; [apply NoDup_nil_2 | done]. }
  unfold _load_routing_information.
  destruct data as [| | | | | | |m]; try done.
  { by intros [= <-]. }
  destruct (dict_get m "plugin_routing") as [[| | | | | | |pr]|]; try done;
    try by intros [= <-].
  intros Hp HQ. eapply parse_types_keys; [exact Hp|exact HQ|..]; apply Hnil.
Qed.

Lemma _get_real_plugin_type_name_core k ty :
  _get_real_plugin_type_name k = Some ty -> is_eda ty = false.
Proof.
  intros [[_ ->]|(_ & H1 & H2)]%core_type_names;
    [done|]. by destruct ty.
Qed.

Lemma get_real_plugin_type_name_eda k ty :
  get_real_plugin_type_name k = Some ty -> is_eda ty = true.
Proof.
  by intros [_ [-> | ->]]%eda_type_names.
Qed.

Lemma of_parsed_Loaded {A : Type} (p : parsed A) a :
  of_parsed p = Loaded a -> p = Parsed a.
Proof. destruct p; [by intros [= <-] | done]. Qed.

Lemma disjoint_types (coll eda : dict PluginType (dict string PluginRouting)) :
  loaded_types coll -> loaded_types eda ->
  Forall (fun tm => is_eda tm.1 = false) coll ->
  Forall (fun tm => is_eda tm.1 = true) eda ->
  NoDup (dict_keys coll ++ dict_keys eda).
Proof.
  intros [Hc _] [He _] Hfc Hfe. apply NoDup_app. split; [done|].
  split; [|done]. intros ty Hin1 Hin2.
  apply list_elem_of_fmap in Hin1 as ([ty1 m1] & -> & Hin1).
  apply list_elem_of_fmap in Hin2 as ([ty2 m2] & Heq & Hin2).
  rewrite Forall_forall in Hfc, Hfe.
  specialize (Hfc _ Hin1). specialize (Hfe _ Hin2). simpl in *. congruence.
Qed.

Lemma loaded_file_keys f own_name get d (Q : PluginType -> Prop) :
  match f with
  | FileNotFoundError => Loaded []
  | Unreadable why => Failed (OtherError why)
  | Document data => of_parsed (_load_routing_information data own_name get)
  end = Loaded d ->
  (forall k ty, get k = Some ty -> Q ty) ->
  loaded_types d /\ Forall (fun tm => Q tm.1) d.
Proof.
  destruct f as [|why|data]; [|done|].
  - intros [= <-] _. split; [|done]. split; [apply NoDup_nil_2 | done].
  - intros Hd%of_parsed_Loaded HQ.
    exact (_load_routing_information_keys _ _ _ _ _ Hd HQ).
Qed.

Lemma core_file_keys fs path d :
  _load_core_routing_information fs path = Loaded d ->
  loaded_types d /\ Forall (fun tm => is_eda tm.1 = false) d.
Proof.
  unfold _load_core_routing_information. cbv zeta. intros H.
  exact (loaded_file_keys _ _ _ _ _ H _get_real_plugin_type_name_core).
Qed.

Lemma collection_file_keys fs ci d :
  _load_collection_routing_information fs ci = Loaded d ->
  loaded_types d /\ Forall (fun tm => is_eda tm.1 = false) d.
Proof.
  unfold _load_collection_routing_information. cbv zeta. intros H.
  exact (loaded_file_keys _ _ _ _ _ H _get_real_plugin_type_name_core).
Qed.

Lemma eda_file_keys fs ci d :
  _load_eda_routing_information fs ci = Loaded d ->
  loaded_types d /\ Forall (fun tm => is_eda tm.1 = true) d.
Proof.
  unfold _load_eda_routing_information. cbv zeta. intros H.
  exact (loaded_file_keys _ _ _ _ _ H get_real_plugin_type_name_eda).
Qed.

(** X12: the two routing files of a collection do not overwrite each
    other.  For a collection that is not ansible-core, when both
    meta/runtime.yml and the EDA file load, the routing of the collection
    is the plugin maps of the first followed by those of the second; the
    first holds no EDA plugin type and the second only EDA plugin types. *)
Theorem load_routing_information_keeps_both fs ci coll eda :
  data.is_ansible_core ci = false ->
  _load_collection_routing_information fs ci = Loaded coll ->
  _load_eda_routing_information fs ci = Loaded eda ->
  load_routing_information fs ci = Loaded (mkCollectionRouting (coll ++ eda))
  /\ Forall (fun tm => is_eda tm.1 = false) coll
  /\ Forall (fun tm => is_eda tm.1 = true) eda.
Proof.
  intros Hcore Hc He. unfold load_routing_information.
  rewrite Hcore, Hc, He.
  destruct (collection_file_keys _ _ _ Hc) as [Hlc Hfc].
  destruct (eda_file_keys _ _ _ He) as [Hle Hfe].
  split; [|done].
  rewrite (dict_update_app [] coll) by (by destruct Hlc). simpl.
  rewrite dict_update_app; [done|]. by apply disjoint_types.
Qed.

(** X13: the routing loaded for a collection.  Every plugin type occurs
    once and has a non-empty plugin map with each name once; ansible-core
    has no EDA plugin type; and no record has a flag of the resolver set,
    a chain or an error being there only with the cycle marker of a plugin
    that redirects to itself. *)
Theorem loaded_routing_invariants fs ci cr :
  load_routing_information fs ci = Loaded cr ->
  loaded_types (plugin_data cr)
  /\ (data.is_ansible_core ci = true ->
      Forall (fun tm => is_eda tm.1 = false) (plugin_data cr))
  /\ all_records fresh (plugin_data cr).
Proof.
  intros Hl. split; [|split; [|by eapply load_routing_information_fresh]].
  - revert Hl. unfold load_routing_information.
    destruct (data.is_ansible_core ci) eqn:Hcore.
    + destruct (_load_core_routing_information fs (data.path ci)) as [d|]
        eqn:Hd; [|done].
      intros [= <-]. simpl. by destruct (core_file_keys _ _ _ Hd).
    + destruct (_load_collection_routing_information fs ci) as [coll|]
        eqn:Hc; [|done].
      destruct (_load_eda_routing_information fs ci) as [eda|] eqn:He;
        [|done].
      intros [= <-]. simpl.
      destruct (collection_file_keys _ _ _ Hc) as [Hlc Hfc].
      destruct (eda_file_keys _ _ _ He) as [Hle Hfe].
      rewrite (dict_update_app [] coll) by (by destruct Hlc). simpl.
      rewrite dict_update_app by (by apply disjoint_types).
      split; [unfold dict_keys; rewrite fmap_app; by apply disjoint_types|].
      apply Forall_app. split; [by destruct Hlc | by destruct Hle].
  - intros Hcore. revert Hl. unfold load_routing_information. rewrite Hcore.
    destruct (_load_core_routing_information fs (data.path ci)) as [d|]
      eqn:Hd; [|done].
    intros [= <-]. simpl. by destruct (core_file_keys _ _ _ Hd).
Qed.

Lemma load_routing_information_keeps_both_witness :
  load_routing_information foo_bar_files foo_bar
  = Loaded (mkCollectionRouting (foo_bar_loaded ++ foo_bar_eda_loaded))
  /\ Forall (fun tm => is_eda tm.1 = false) foo_bar_loaded
  /\ Forall (fun tm => is_eda tm.1 = true) foo_bar_eda_loaded.
Proof.
  apply (load_routing_information_keeps_both foo_bar_files foo_bar);
    reflexivity.
Defined.

Lemma loaded_routing_invariants_witness :
  loaded_types (foo_bar_loaded ++ foo_bar_eda_loaded)
  /\ (data.is_ansible_core foo_bar = true ->
      Forall (fun tm => is_eda tm.1 = false)
        (foo_bar_loaded ++ foo_bar_eda_loaded))
  /\ all_records fresh (foo_bar_loaded ++ foo_bar_eda_loaded).
Proof.
  apply (loaded_routing_invariants foo_bar_files foo_bar
           (mkCollectionRouting (foo_bar_loaded ++ foo_bar_eda_loaded))).
  reflexivity.
Defined.

(** ** [collect_routing_information] *)

Lemma collect_pointwise fs infos acc rd :
  collect fs None infos acc = Loaded rd ->
  NoDup (dict_keys acc ++ map data.full_name infos) ->
  exists rd', rd = acc ++ rd' /\
    Forall2 (fun ci e =>
               e.1 = data.full_name ci
               /\ load_routing_information fs ci = Loaded e.2)
            infos rd'.
Proof.
  revert acc. induction infos as [|ci infos IH]; intros acc; simpl.
  { intros [= <-] _. exists []. by rewrite app_nil_r. }
  destruct (load_routing_information fs ci) as [cr|] eqn:Hl; [|done].
  intros Hc Hnd.
  assert (dict_get acc (data.full_name ci) = None) as Hn.
  { apply dict_get_None_keys. apply NoDup_app in Hnd as (_ & Hnd & _).
    intros Hin. apply (Hnd _ Hin). by left. }
  rewrite (dict_set_new _ _ _ Hn) in Hc.
  destruct (IH _ Hc) as (rd' & -> & Hrd').
  { unfold dict_keys. rewrite fmap_app. simpl. by rewrite <- app_assoc. }
  exists ((data.full_name ci, cr) :: rd'). split; [by rewrite <- app_assoc|].
  by apply Forall2_cons.
Qed.

Lemma collect_failed fs infos acc e :
  collect fs None infos acc = Failed e ->
  exists ci, ci ∈ infos /\ load_routing_information fs ci = Failed e.
Proof.
  revert acc. induction infos as [|ci infos IH]; intros acc; simpl; [done|].
  destruct (load_routing_information fs ci) as [cr|e'] eqn:Hl.
  - intros (ci' & Hin & H)%IH. exists ci'. split; [by right|done].
  - intros [= ->]. exists ci. split; [by left|done].
Qed.

(** What the handler, or its absence, makes of a collection. *)
Lemma collect_get fs hb infos acc rd k :
  collect fs hb infos acc = Loaded rd ->
  NoDup (map data.full_name infos) ->
  dict_get rd k
  = match List.find (fun ci => String.eqb (data.full_name ci) k) infos with
    | None => dict_get acc k
    | Some ci =>
        match load_routing_information fs ci with
        | Loaded cr => Some cr
        | Failed e =>
            match hb with
            | Some h =>
                match h ci e with
                | Loaded (Some res) => Some res
                | _ => dict_get acc k
                end
            | None => dict_get acc k
            end
        end
    end.
Proof.
  revert acc. induction infos as [|ci infos IH]; intros acc; simpl.
  { by intros [= <-]. }
  intros Hc [Hci Hnd]%NoDup_cons.
  assert (forall acc',
            collect fs hb infos acc' = Loaded rd ->
            dict_get rd k
            = if String.eqb (data.full_name ci) k then dict_get acc' k
              else match List.find (fun ci => String.eqb (data.full_name ci) k)
                           infos with
                   | None => dict_get acc' k
                   | Some ci =>
                       match load_routing_information fs ci with
                       | Loaded cr => Some cr
                       | Failed e =>
                           match hb with
                           | Some h =>
                               match h ci e with
                               | Loaded (Some res) => Some res
                               | _ => dict_get acc' k
                               end
                           | None => dict_get acc' k
                           end
                       end
                   end) as Hrest.
  { intros acc' Hc'. rewrite (IH _ Hc' Hnd).
    destruct (String.eqb_spec (data.full_name ci) k) as [<-|Hne]; [|done].
    destruct (List.find _ infos) as [ci'|] eqn:Hf; [|done].
    apply find_some in Hf as [Hin Heq%String.eqb_eq]. destruct Hci.
    apply list_elem_of_fmap. exists ci'. split; [done|].
    by apply list_elem_of_In. }
  destruct (load_routing_information fs ci) as [cr|e] eqn:Hl.
  - rewrite (Hrest _ Hc).
    destruct (String.eqb_spec (data.full_name ci) k) as [<-|Hne].
    + by rewrite dict_get_set_eq, Hl.
    + rewrite dict_get_set_ne by done.
      destruct (List.find _ infos) as [ci'|]; [|done].
      destruct (load_routing_information fs ci'); [done|].
      destruct hb as [h|]; [|done]. by destruct (h ci' e) as [[?|]|].
  - destruct hb as [h|]; [|done].
    destruct (h ci e) as [[res|]|e'] eqn:Hh; [| |done].
    + rewrite (Hrest _ Hc).
      destruct (String.eqb_spec (data.full_name ci) k) as [<-|Hne].
      * by rewrite dict_get_set_eq, Hl, Hh.
      * rewrite dict_get_set_ne by done.
        destruct (List.find _ infos) as [ci'|]; [|done].
        destruct (load_routing_information fs ci'); [done|].
        by destruct (h ci' e0) as [[?|]|].
    + rewrite (Hrest _ Hc).
      destruct (String.eqb_spec (data.full_name ci) k) as [<-|Hne];
        [by rewrite Hl, Hh | done].
Qed.

Lemma build_names l cis :
  data.build l = Parsed cis ->
  map data.full_name (map snd (data.collections cis))
  = dict_keys (data.collections cis)
  /\ NoDup (dict_keys (data.collections cis)).
Proof.
  intros Hb.
  assert (NoDup (dict_keys (data.collections cis)) /\
          Forall (fun kc => data.full_name kc.2 = kc.1)
            (data.collections cis)) as [Hnd Hall].
  { destruct (build_view _ _ Hb) as [[Hf ->]|(core & Hf & Hn & ->)]; simpl.
    - split; [apply add_collections_keys, NoDup_nil_2|].
      by apply (add_collections_entries l []
                  (fun k c => data.full_name c = k)).
    - split; [apply add_collections_keys, NoDup_singleton|].
      apply (add_collections_entries l _
               (fun k c => data.full_name c = k)); [|done].
      by apply Forall_singleton. }
  split; [|done]. clear -Hall.
  induction Hall as [|[k c] d Hk _ IH]; simpl in *; [done|].
  by rewrite Hk, IH.
Qed.

Lemma build_named l cis :
  data.build l = Parsed cis ->
  Forall (fun kc => data.full_name kc.2 = kc.1) (data.collections cis).
Proof.
  intros Hb.
  destruct (build_view _ _ Hb) as [[Hf ->]|(core & Hf & Hn & ->)]; simpl.
  - by apply (add_collections_entries l [] (fun k c => data.full_name c = k)).
  - apply (add_collections_entries l _ (fun k c => data.full_name c = k));
      [|done].
    by apply Forall_singleton.
Qed.

Lemma find_by_name (d : dict string data.CollectionInfo) k :
  Forall (fun kc => data.full_name kc.2 = kc.1) d ->
  List.find (fun ci => String.eqb (data.full_name ci) k) (map snd d)
  = dict_get d k.
Proof.
  induction 1 as [|[k' c] d Hk _ IH]; simpl in *; [done|].
  rewrite Hk. destruct (String.eqb_spec k' k) as [->|Hne].
  - by rewrite decide_True.
  - by rewrite decide_False.
Qed.

Lemma collect_handled fs h infos acc rd ci e :
  collect fs (Some h) infos acc = Loaded rd ->
  ci ∈ infos -> load_routing_information fs ci = Failed e ->
  exists o, h ci e = Loaded o.
Proof.
  revert acc. induction infos as [|ci' infos IH]; intros acc; simpl.
  { by intros _ ?%elem_of_nil. }
  intros Hc [->|Hin]%elem_of_cons Hl.
  - rewrite Hl in Hc. destruct (h ci' e) as [o|]; [by exists o | done].
  - destruct (load_routing_information fs ci') as [cr|e'].
    + by eapply IH.
    + destruct (h ci' e') as [[res|]|]; [by eapply IH..|done].
Qed.

(** X14: without a handler, the catalog follows the collections.  For
    collections built by [CollectionInfos.build], the catalog that
    [collect_routing_information] returns has one entry for each
    collection, under the same name and in the same order, holding the
    routing loaded for it; and an exception is the one that loading one of
    the collections raised. *)
Theorem collected_catalog_follows_collections fs l cis :
  data.build l = Parsed cis ->
  (forall rd,
     collect_routing_information fs cis None = Loaded rd ->
     Forall2 (fun kc e =>
                e.1 = kc.1 /\ load_routing_information fs kc.2 = Loaded e.2)
             (data.collections cis) rd)
  /\
  (forall e,
     collect_routing_information fs cis None = Failed e ->
     exists k ci, dict_get (data.collections cis) k = Some ci
                  /\ load_routing_information fs ci = Failed e).
Proof.
  intros Hb. destruct (build_names _ _ Hb) as [Hnames Hnd].
  pose proof (build_named _ _ Hb) as Hall.
  unfold collect_routing_information. split.
  - intros rd Hc. destruct (collect_pointwise _ _ _ _ Hc) as (rd' & -> & H2).
    { simpl. by rewrite Hnames. }
    simpl. clear -H2 Hall. revert rd' H2.
    induction Hall as [|[k c] d Hk _ IH]; intros rd' H2; simpl in *.
    + inversion H2. constructor.
    + inversion H2 as [|? e ? rd'' [He Hl] Hrest]; subst.
      constructor; [|by apply IH]. simpl. split; [congruence|done].
  - intros e (ci & Hin & Hl)%collect_failed.
    apply list_elem_of_fmap in Hin as ([k c] & -> & Hin).
    exists k, c. split; [|done]. by apply dict_get_elem.
Qed.

(** X15: a handler decides for the collections that do not load.  When
    [collect_routing_information] returns for collections built by
    [build], a collection that loads has its routing under its name, the
    handler not being asked; for a collection that does not load, what the
    handler returned for it is what the catalog holds under its name: the
    replacement, or nothing at all.  Other names are not in the catalog. *)
Theorem handler_decides_for_broken fs l cis h rd k :
  data.build l = Parsed cis ->
  collect_routing_information fs cis (Some h) = Loaded rd ->
  match dict_get (data.collections cis) k with
  | None => dict_get rd k = None
  | Some ci =>
      match load_routing_information fs ci with
      | Loaded cr => dict_get rd k = Some cr
      | Failed e => h ci e = Loaded (dict_get rd k)
      end
  end.
Proof.
  intros Hb Hc. destruct (build_names _ _ Hb) as [Hnames Hnd].
  pose proof (build_named _ _ Hb) as Hall.
  unfold collect_routing_information in Hc.
  rewrite (collect_get _ _ _ _ _ k Hc) by by rewrite Hnames.
  rewrite (find_by_name _ _ Hall).
  destruct (dict_get (data.collections cis) k) as [ci|] eqn:Hk; [|done].
  destruct (load_routing_information fs ci) as [cr|e] eqn:Hl; [done|].
  destruct (collect_handled _ _ _ _ _ ci e Hc) as [o Ho]; [|done|].
  { apply list_elem_of_fmap. exists (k, ci). split; [done|].
    by apply dict_get_elem. }
  rewrite Ho. by destruct o.
Qed.

(** ** Chains that end well, and chains that end at a resolved plugin *)

(** X16: a chain that ends at a plugin without redirect, or at a name that
    a known collection does not have, is resolved without error.  A walk
    from plugin [n] of collection [c] goes through the plugins [es] and
    arrives at [t], a name of three parts in a collection of the catalog,
    where it finds no plugin, or a plugin without tombstone and without
    redirect.  Then every node of the path gets the redirect [t], the rest
    of the path from itself on followed by [t] as chain, the deprecations of
    the plugins on that rest, [t]'s included, and neither flag nor error:
    a missing plugin is not a dead end. *)
Theorem chain_to_plain_plugin rd ty c n pd r k es t ns cn pn :
  redirect pd = RStr r -> redirect_chain pd = None ->
  trail rd ty k r = Some (es, t) ->
  NoDup (dotted c n :: map e_fqcn es ++ [t]) ->
  str_split 2 t = [ns; cn; pn] ->
  is_Some (dict_get rd (dotted ns cn)) ->
  match lookup_plugin rd (dotted ns cn) ty pn with
  | Some p => tombstone p = None /\ redirect p = RNone
  | None => True
  end ->
  let last_elt :=
    mkElt t (dotted ns cn) pn (lookup_plugin rd (dotted ns cn) ty pn) None in
  exists pd' rd',
    _complete_redirect rd c ty n pd = Returned pd' rd' /\
    on_path ty rd' pd' es (fun i p' =>
      redirect p' = RStr t /\
      redirect_chain p' = Some (drop i (dotted c n :: map e_fqcn es) ++ [t]) /\
      redirect_deprecations p'
      = or_None (own_deprecations (drop i (start_elt c n pd :: es))
                 ++ own_deprecations [last_elt]) /\
      redirect_tombstone p' = false /\
      redirect_dead_end p' = false /\
      redirect_error p' = None).
Proof.
  intros Hr Hc Ht Hnd Hsp Hcoll Hp last_elt.
  destruct (path_new _ _ _ Hnd) as [Hnd' Hnew].
  destruct (complete_along rd ty c n pd r k es t Hr Hc Ht Hnd')
    as (s & Hw & Hl & Hn & Hfin).
  assert (next_name s ∉ map e_fqcn (redirection_list s)) as Hnew'
    by (by rewrite Hn, Hl).
  rewrite <- Hn in Hsp.
  assert (loop_body ty (dotted c n) s
          = Break (set_terminal s (redirection_list s ++ [last_elt])
                     (l_deprecations s) (l_tombstone s) (l_dead_end s)
                     (l_error s))) as Hb.
  { unfold last_elt. rewrite <- Hn.
    destruct (lookup_plugin rd (dotted ns cn) ty pn) as [p|] eqn:Hlk.
    - destruct Hp as [Htomb Hred].
      exact (step_terminal rd ty c n pd s Hw Hnew' ns cn pn p Hsp Hlk
               Htomb Hred).
    - exact (step_absent rd ty c n pd s Hw Hnew' ns cn pn Hsp Hcoll Hlk). }
  rewrite (Hfin _ Hb).
  destruct (plain_records rd ty c n pd s es [last_elt]
              (set_terminal s (redirection_list s ++ [last_elt])
                 (l_deprecations s) (l_tombstone s) (l_dead_end s)
                 (l_error s)) Hw Hl)
    as (pd' & rd' & -> & H0 & Hi); simpl.
  { by rewrite Hl. }
  { apply walking_left_app; [done| |by rewrite Hn|done].
    by rewrite (wk_found _ _ _ _ _ _ Hw). }
  { apply (wk_routing _ _ _ _ _ _ Hw). }
  { apply (wk_pd _ _ _ _ _ _ Hw). }
  exists pd', rd'. split; [done|]. simpl in *.
  rewrite (wk_chain _ _ _ _ _ _ Hw), (wk_loop _ _ _ _ _ _ Hw),
    (wk_dead _ _ _ _ _ _ Hw), (wk_err _ _ _ _ _ _ Hw),
    (wk_tomb _ _ _ _ _ _ Hw), (wk_deps _ _ _ _ _ _ Hw), Hn in *.
  simpl in *. split.
  - destruct H0 as (? & Hc0 & Hd0 & ? & ? & ?).
    rewrite ?app_nil_r in Hc0. rewrite prefix_deps_None in Hd0.
    change (start_elt c n pd :: es ++ [last_elt])
      with ((start_elt c n pd :: es) ++ [last_elt]) in Hd0.
    rewrite own_deprecations_app in Hd0. by repeat split.
  - intros i e He.
    destruct (Hi i e He) as (p' & Hp' & ? & Hci & Hdi & ? & ? & ?).
    exists p'. split; [done|].
    rewrite ?app_nil_r in Hci. rewrite prefix_deps_None in Hdi.
    rewrite own_deprecations_app in Hdi. by repeat split.
Qed.

(** X17: a chain that ends at a plugin resolved before.  When the walk
    arrives at a plugin [t] without tombstone whose record carries an error
    or a flag from an earlier resolution, every node of the path takes over
    that resolution: the flags and the error of [t], the rest of the path
    followed by the chain of [t], the deprecations of that rest followed by
    those of [t]; as redirect it gets the cycle marker when [t] has it, and
    the name [t] otherwise, not the redirect stored in [t]. *)
Theorem chain_to_resolved_plugin rd ty c n pd r k es t ns cn pn p :
  redirect pd = RStr r -> redirect_chain pd = None ->
  trail rd ty k r = Some (es, t) ->
  NoDup (dotted c n :: map e_fqcn es ++ [t]) ->
  str_split 2 t = [ns; cn; pn] ->
  lookup_plugin rd (dotted ns cn) ty pn = Some p ->
  tombstone p = None -> redirect p <> RNone ->
  redirect_error p <> None \/ redirect_tombstone p = true
  \/ redirect_dead_end p = true ->
  exists pd' rd',
    _complete_redirect rd c ty n pd = Returned pd' rd' /\
    on_path ty rd' pd' es (fun i p' =>
      redirect p' = (if bool_decide (redirect p = REllipsis)
                     then REllipsis else RStr t) /\
      redirect_chain p'
      = Some (drop i (dotted c n :: map e_fqcn es)
              ++ or_empty (redirect_chain p)) /\
      redirect_deprecations p'
      = prefix_deps (drop i (start_elt c n pd :: es))
          (redirect_deprecations p) /\
      redirect_tombstone p' = redirect_tombstone p /\
      redirect_dead_end p' = redirect_dead_end p /\
      redirect_error p' = redirect_error p).
Proof.
  intros Hr Hc Ht Hnd Hsp Hp Htomb Hred Hflag.
  destruct (path_new _ _ _ Hnd) as [Hnd' Hnew].
  destruct (complete_along rd ty c n pd r k es t Hr Hc Ht Hnd')
    as (s & Hw & Hl & Hn & Hfin).
  assert (next_name s ∉ map e_fqcn (redirection_list s)) as Hnew'
    by (by rewrite Hn, Hl).
  rewrite <- Hn in Hsp.
  assert (bool_decide (redirect_error p <> None)
          || redirect_tombstone p || redirect_dead_end p = true) as Hfl.
  { destruct Hflag as [He|[-> | ->]].
    - by rewrite bool_decide_eq_true_2.
    - by rewrite orb_true_r.
    - by rewrite orb_true_r. }
  pose proof (step_reuse rd ty c n pd s Hw Hnew' ns cn pn p Hsp Hp Htomb
                Hred Hfl) as Hb.
  rewrite (Hfin _ Hb).
  destruct (plain_records rd ty c n pd s es [] (reuse s p) Hw Hl)
    as (pd' & rd' & -> & H0 & Hi); simpl.
  { by rewrite Hl, app_nil_r. }
  { by apply walking_left. }
  { apply (wk_routing _ _ _ _ _ _ Hw). }
  { apply (wk_pd _ _ _ _ _ _ Hw). }
  exists pd', rd'. split; [done|]. simpl in *. rewrite Hn in *.
  split.
  - destruct H0 as (? & Hc0 & Hd0 & ? & ? & ?).
    rewrite app_nil_r in Hd0. by repeat split.
  - intros i e He.
    destruct (Hi i e He) as (p' & Hp' & ? & Hci & Hdi & ? & ? & ?).
    exists p'. split; [done|]. rewrite app_nil_r in Hdi. by repeat split.
Qed.

(** ** What the resolver raises, and what it keeps *)

Lemma not_marked_bare p : ~ marked p -> bare_marker p.
Proof.
  unfold marked, bare_marker. intros Hm.
  destruct (decide (redirect p = REllipsis)) as [Hr|Hr]; [|by destruct Hm].
  split; [done|].
  destruct (redirect_error p) eqn:He.
  { destruct Hm. intros _. by rewrite bool_decide_eq_true_2. }
  destruct (redirect_tombstone p).
  { destruct Hm. intros _. by rewrite orb_true_r. }
  destruct (redirect_dead_end p); [|done].
  destruct Hm. intros _. by rewrite orb_true_r.
Qed.

Lemma rewritten_marked c n p p' : rewritten c n p p' -> marked p'.
Proof. by intros [(_ & _ & Hm & _) _]. Qed.

(** A record without mark in the catalog after a run was in the catalog
    before. *)
Lemma unmarked_before rd rd' ty :
  updates rd rd' -> unmarked_in rd' ty ->
  exists c n p, lookup_plugin rd c ty n = Some p /\ bare_marker p.
Proof.
  intros [Hs Hu] (c & n & p' & Hp' & Hm).
  destruct (shape_lookup rd' rd c ty n Hs) as [p Hp]; [by eexists|].
  destruct (Hu _ _ _ _ Hp) as (p'' & Hp'' & [->|Hrw]).
  - rewrite Hp' in Hp''. injection Hp'' as <-.
    exists c, n, p'. split; [done|]. by apply not_marked_bare.
  - rewrite Hp' in Hp''. injection Hp'' as <-. destruct Hm.
    by eapply rewritten_marked.
Qed.

(** X18: the only exception of the resolver.  [complete_redirects] and
    [complete_redirects_for_collection] end for every catalog: either they
    return, or they raise the assertion, and then the catalog they were
    given holds a record with the cycle marker but without error and
    without flag.  Nothing else is raised: no name is looked up that is not
    there, and the search for the start of a cycle always finds it. *)
Theorem resolver_raises_only_the_assertion rd :
  match complete_redirects rd with
  | Returned _ rd' => all_done rd'
  | Raised e _ =>
      e = AssertionError
      /\ exists c ty n p, lookup_plugin rd c ty n = Some p /\ bare_marker p
  | OutOfFuel => False
  end
  /\ forall collection_name,
       match complete_redirects_for_collection rd collection_name with
       | Returned _ _ => True
       | Raised e _ =>
           e = AssertionError
           /\ exists c ty n p,
                lookup_plugin rd c ty n = Some p /\ bare_marker p
       | OutOfFuel => False
       end.
Proof.
  split.
  - pose proof (complete_redirects_post rd) as H.
    destruct (complete_redirects rd) as [[] rd'|e rd'|]; simpl in H;
      [by destruct H | | done].
    destruct H as (-> & Hu & ty & Hm). split; [done|].
    destruct (unmarked_before _ _ _ Hu Hm) as (c & n & p & ? & ?).
    by exists c, ty, n, p.
  - intros cn. pose proof (complete_redirects_for_collection_post rd cn) as H.
    destruct (complete_redirects_for_collection rd cn) as [[] rd'|e rd'|];
      simpl in H; [done | | done].
    destruct H as (-> & Hu & ty & Hm). split; [done|].
    destruct (unmarked_before _ _ _ Hu Hm) as (c & n & p & ? & ?).
    by exists c, ty, n, p.
Qed.

(** X19: resolution keeps the plugins' own data.  When
    [complete_redirects] returns, every plugin of the catalog is still
    there with the [action_plugin], the [deprecation] and the [tombstone]
    it had, and needs no more resolution: it has no redirect, or the cycle
    marker, or a chain. *)
Theorem resolution_keeps_own_data rd rd' c ty n p :
  complete_redirects rd = Returned tt rd' ->
  lookup_plugin rd c ty n = Some p ->
  exists p',
    lookup_plugin rd' c ty n = Some p' /\
    action_plugin p' = action_plugin p /\
    deprecation p' = deprecation p /\
    tombstone p' = tombstone p /\
    (redirect p' = RNone \/ redirect p' = REllipsis
     \/ redirect_chain p' <> None).
Proof.
  intros Hc Hp. pose proof (complete_redirects_post rd) as H.
  rewrite Hc in H. destruct H as [[_ Hu] Hd].
  destruct (Hu _ _ _ _ Hp) as (p' & Hp' & Hrel).
  exists p'. split; [done|].
  assert (action_plugin p' = action_plugin p /\ deprecation p' = deprecation p
          /\ tombstone p' = tombstone p) as (? & ? & ?).
  { destruct Hrel as [->|[_ Hso]]; [done|]. exact Hso. }
  repeat split; try done.
  specialize (Hd _ _ _ _ Hp'). unfold already_done in Hd.
  destruct (redirect p'); [by left | by right; left |].
  right; right. by apply bool_decide_eq_true in Hd.
Qed.

(** ** Records the resolver never changes *)

Lemma owner_store_frame rd ty o n v c0 ty0 n0 :
  (forall c, o = Some c -> (c, ty, n) <> (c0, ty0, n0)) ->
  lookup_plugin (owner_store rd ty o n v) c0 ty0 n0
  = lookup_plugin rd c0 ty0 n0.
Proof.
  intros Hne. unfold owner_store. destruct o as [c|]; [|done].
  destruct (plugin_map rd c ty) as [prd|]; [|done].
  destruct (dict_truthy prd); [|done].
  apply lookup_store_ne. by apply Hne.
Qed.

Lemma apply_writes_frame ty ws rd c0 ty0 n0 :
  Forall (fun w => forall c, e_owner w.1 = Some c ->
                             (c, ty, e_name w.1) <> (c0, ty0, n0)) ws ->
  lookup_plugin (apply_writes ty ws rd) c0 ty0 n0
  = lookup_plugin rd c0 ty0 n0.
Proof.
  revert rd. induction ws as [|[e r] ws IH]; intros rd Hall; simpl; [done|].
  apply Forall_cons in Hall as [He Hall].
  rewrite IH by done. by apply owner_store_frame.
Qed.

Lemma guarded_writes_frame rd ty ws L rd1 c0 ty0 n0 q :
  lookup_plugin rd c0 ty0 n0 = Some q -> passable q = false ->
  Forall (guarded rd ty) L ->
  (forall e r, (e, r) ∈ ws -> e ∈ L) ->
  lookup_plugin (apply_writes ty ws rd1) c0 ty0 n0
  = lookup_plugin rd1 c0 ty0 n0.
Proof.
  intros Hq Hnp HL Hin. apply apply_writes_frame.
  apply Forall_forall. intros [e r] Her c Ho [= -> -> Hn].
  rewrite Forall_forall in HL.
  destruct (HL e (Hin _ _ Her) _ Ho) as (Hc & p & Hp & Hpass).
  rewrite <- Hc, Hn, Hq in Hp. injection Hp as <-. congruence.
Qed.

Lemma while_true_guarded rd ty c n pd fuel s :
  walking rd ty c n pd s ->
  Forall (guarded rd ty) (redirection_list s) ->
  S (length (type_entries rd ty)) < fuel + length (redirection_list s) ->
  exists s1, walking rd ty c n pd s1 /\
    Forall (guarded rd ty) (redirection_list s1) /\
    match loop_body ty (dotted c n) s1 with
    | Break s' =>
        while_true fuel ty (dotted c n) s = Returned s' (l_routing s')
    | Raise e => while_true fuel ty (dotted c n) s = Raised e rd
    | Continue _ => False
    end.
Proof.
  revert s. induction fuel as [|fuel IH]; intros s Hw Hg Hlen.
  { pose proof (walking_length _ _ _ _ _ _ Hw). lia. }
  simpl.
  destruct (loop_body ty (dotted c n) s) as [s'|s'|e] eqn:Hb.
  - pose proof (loop_body_view ty (dotted c n) s) as Hv. rewrite Hb in Hv.
    inversion Hv as [| | | | | | | | |ns cn pn p target Hnin Hsp Hp Ht Hr Hf];
      subst.
    apply IH.
    + by eapply walking_advance.
    + simpl. apply Forall_app. split; [done|]. apply Forall_singleton.
      intros c' [= <-]. simpl. split; [done|]. exists p.
      rewrite (wk_routing _ _ _ _ _ _ Hw) in Hp. split; [done|].
      unfold passable. by rewrite Ht, Hr, Hf.
    + simpl. rewrite length_app. simpl. lia.
  - exists s. split; [done|]. split; [done|]. by rewrite Hb.
  - exists s. split; [done|]. split; [done|]. rewrite Hb.
    by rewrite (wk_routing _ _ _ _ _ _ Hw).
Qed.

Lemma _complete_redirect_frame rd c ty n pd c0 ty0 n0 q :
  lookup_plugin rd c0 ty0 n0 = Some q -> passable q = false ->
  match _complete_redirect rd c ty n pd with
  | Returned _ rd' | Raised _ rd' => lookup_plugin rd' c0 ty0 n0 = Some q
  | OutOfFuel => False
  end.
Proof.
  intros Hq Hnp. unfold _complete_redirect.
  destruct (already_done pd) eqn:Hdone; [done|].
  destruct (redirect pd) as [| |target] eqn:Hr; [done..|].
  pose proof (walking_initial rd ty c n pd target) as Hw0.
  destruct (while_true_guarded rd ty c n pd (walk_fuel rd ty) _ Hw0)
    as (s1 & Hw & Hg & Hres).
  { simpl. apply Forall_singleton. by intros c' Ho. }
  { unfold walk_fuel; simpl; lia. }
  pose proof (loop_body_view ty (dotted c n) s1) as Hv.
  pose proof (wk_routing _ _ _ _ _ _ Hw) as Hrd.
  destruct (loop_body ty (dotted c n) s1) as [s'|s'|e] eqn:Hb; [done| |].
  2:{ by rewrite Hres. }
  rewrite Hres, rewrite_prefix_assignments.
  assert (Forall (guarded rd ty) (redirection_list s')
          /\ lookup_plugin (l_routing s') c0 ty0 n0 = Some q) as [Hg' Hq'].
  { assert (forall t, e_owner t = None ->
              Forall (guarded rd ty) (redirection_list s1 ++ [t])) as Happ.
    { intros t Ht. apply Forall_app. split; [done|].
      apply Forall_singleton. intros c' Ho. congruence. }
    inversion Hv as [k Hin Hidx| | | | | | | | |]; subst s'; simpl;
      rewrite ?Hrd; try (split; [first [done | by apply Happ] | done]).
    unfold close_cycle. rewrite rewrite_loop_assignments. simpl.
    split; [by apply Forall_take|].
    rewrite Hrd.
    erewrite (guarded_writes_frame rd ty _ (redirection_list s1));
      [done..|].
    intros e r He%loop_assignments_elem.
    eapply elem_of_sublist; [exact He | apply sublist_drop]. }
  erewrite (guarded_writes_frame rd ty _ (redirection_list s'));
    [done..|].
  intros e r He%prefix_assignments_elem. by rewrite elem_of_rev in He.
Qed.

Lemma for_each_keeps {A : Type} (body : A -> catalog -> outcome unit)
    (I : catalog -> Prop) l rd :
  (forall x rd1, I rd1 ->
     match body x rd1 with
     | Returned _ rd2 | Raised _ rd2 => I rd2
     | OutOfFuel => True
     end) ->
  I rd ->
  match for_each body l rd with
  | Returned _ rd' | Raised _ rd' => I rd'
  | OutOfFuel => True
  end.
Proof.
  intros Hbody. revert rd. induction l as [|x l IH]; intros rd HI; simpl;
    [done|].
  specialize (Hbody x rd HI).
  destruct (body x rd) as [[] rd1|e rd1|]; [by apply IH | done..].
Qed.

Lemma complete_plugin_frame c ty n rd c0 ty0 n0 q :
  lookup_plugin rd c0 ty0 n0 = Some q -> settled_record q ->
  match complete_plugin c ty n rd with
  | Returned _ rd' | Raised _ rd' => lookup_plugin rd' c0 ty0 n0 = Some q
  | OutOfFuel => True
  end.
Proof.
  intros Hq [Hdone Hnp]. unfold complete_plugin.
  destruct (lookup_plugin rd c ty n) as [pd|] eqn:Hpd; [|done].
  destruct (decide ((c, ty, n) = (c0, ty0, n0))) as [[= -> -> ->]|Hne].
  - rewrite Hq in Hpd. injection Hpd as <-.
    unfold _complete_redirect. rewrite Hdone.
    rewrite store_plugin_same; done.
  - pose proof (_complete_redirect_frame rd c ty n pd c0 ty0 n0 q Hq Hnp)
      as H.
    destruct (_complete_redirect rd c ty n pd) as [pd' rd'|e rd'|];
      [|done..].
    by rewrite lookup_store_ne.
Qed.

(** X20: records the resolver never changes.  A plugin that needs no
    resolution (no redirect, the cycle marker, or a chain already there)
    and that no walk goes through (it has no redirect to a name, or is
    tombstoned, or carries an error or a flag) has the same record after
    [complete_redirects], whether that returns or raises: in place, the
    resolver rewrites only plugins that redirect on. *)
Theorem resolver_leaves_settled_records rd c ty n q :
  lookup_plugin rd c ty n = Some q -> settled_record q ->
  match complete_redirects rd with
  | Returned _ rd' | Raised _ rd' => lookup_plugin rd' c ty n = Some q
  | OutOfFuel => False
  end.
Proof.
  intros Hq Hs.
  assert (match complete_redirects rd with
          | Returned _ rd' | Raised _ rd' => lookup_plugin rd' c ty n = Some q
          | OutOfFuel => True
          end) as H.
  { unfold complete_redirects. apply for_each_keeps; [|done].
    intros c1 rd1 H1. unfold complete_redirects_for_collection.
    destruct (dict_get rd1 c1); [|done]. apply for_each_keeps; [|done].
    intros ty1 rd2 H2. unfold complete_type.
    destruct (plugin_map rd2 c1 ty1); [|done]. apply for_each_keeps; [|done].
    intros n1 rd3 H3. by apply complete_plugin_frame. }
  pose proof (complete_redirects_post rd) as Hp.
  by destruct (complete_redirects rd).
Qed.

(** ** The child environment *)

Lemma plugin_path_updates_NoDup : NoDup (plugin_path_updates.*1).
Proof. refine (bool_decide_unpack _ _). vm_compute. exact I. Qed.

Lemma plugin_path_updates_lookup k v :
  (k, v) ∈ plugin_path_updates ->
  (list_to_map plugin_path_updates : gmap string string) !! k = Some v
  /\ v = "/dev/null"
  /\ k <> "ANSIBLE_COLLECTIONS_PATH"
  /\ k <> "_COLLECTIONS_PATH_ENV_VAR_COMPAT".
Proof.
  intros Hin. split.
  - by apply (elem_of_list_to_map_1 _ _ _ plugin_path_updates_NoDup).
  - unfold plugin_path_updates in Hin.
    repeat (apply elem_of_cons in Hin as [[= -> ->]|Hin];
            [repeat split; discriminate|]).
    by apply elem_of_nil in Hin.
Qed.

Lemma with_updates_update environ only_pass_env_updates k v :
  (k, v) ∈ plugin_path_updates ->
  with_updates environ only_pass_env_updates !! k = Some "/dev/null".
Proof.
  intros (Hl & -> & _)%plugin_path_updates_lookup.
  unfold with_updates. by rewrite (lookup_union_Some_l _ _ _ _ Hl).
Qed.

(** The three steps of [_prepare_env]. *)
Lemma _prepare_env_view environ collections_path only_pass_env_updates compat :
  exists env,
    _prepare_env environ collections_path only_pass_env_updates compat
    = Some env /\
    forall k,
      env !! k
      = match collections_path with
        | Some p =>
            if negb (String.eqb p "")
               && (String.eqb k "ANSIBLE_COLLECTIONS_PATH"
                   || compat && String.eqb k "_COLLECTIONS_PATH_ENV_VAR_COMPAT")
            then Some p
            else with_updates environ only_pass_env_updates !! k
        | None => with_updates environ only_pass_env_updates !! k
        end.
Proof.
  unfold _prepare_env. fold (inherited environ only_pass_env_updates).
  fold (with_updates environ only_pass_env_updates).
  set (base := with_updates environ only_pass_env_updates).
  assert (base !! "ANSIBLE_ACTION_PLUGINS" = Some "/dev/null") as Hb.
  { apply (with_updates_update _ _ _ "/dev/null").
    unfold plugin_path_updates. left. }
  assert (forall env : gmap string string,
            env !! "ANSIBLE_ACTION_PLUGINS" = Some "/dev/null" ->
            (if negb (bool_decide (env = ∅)) || negb only_pass_env_updates
             then Some env else None) = Some env) as Hne.
  { intros env He. rewrite bool_decide_false; [done|].
    intros ->. by rewrite lookup_empty in He. }
  destruct collections_path as [p|].
  2:{ exists base. split; [apply Hne; exact Hb | intros k; reflexivity]. }
  destruct (String.eqb p "") eqn:Hp; cbn [negb andb].
  { exists base. split; [apply Hne; exact Hb | intros k; reflexivity]. }
  destruct compat; cbn [andb].
  - eexists. split.
    + apply Hne. rewrite !lookup_insert_ne by discriminate. exact Hb.
    + intros k.
      destruct (String.eqb_spec k "_COLLECTIONS_PATH_ENV_VAR_COMPAT")
        as [->|Hk2].
      { rewrite lookup_insert_eq, orb_true_r. reflexivity. }
      rewrite lookup_insert_ne by congruence. rewrite orb_false_r.
      destruct (String.eqb_spec k "ANSIBLE_COLLECTIONS_PATH") as [->|Hk1].
      { rewrite lookup_insert_eq. reflexivity. }
      rewrite lookup_insert_ne by congruence. reflexivity.
  - eexists. split.
    + apply Hne. rewrite lookup_insert_ne by discriminate. exact Hb.
    + intros k. rewrite orb_false_r.
      destruct (String.eqb_spec k "ANSIBLE_COLLECTIONS_PATH") as [->|Hk1].
      { rewrite lookup_insert_eq. reflexivity. }
      rewrite lookup_insert_ne by congruence. reflexivity.
Qed.

(** X21: [_prepare_env] always returns an environment, never [None]; and
    in it each of the plugin path variables has the value /dev/null,
    whatever the caller's environment holds for it. *)
Theorem _prepare_env_always_returns environ collections_path
    only_pass_env_updates compat :
  exists env,
    _prepare_env environ collections_path only_pass_env_updates compat
    = Some env /\
    forall k v, (k, v) ∈ plugin_path_updates ->
                v = "/dev/null" /\ env !! k = Some "/dev/null".
Proof.
  destruct (_prepare_env_view environ collections_path only_pass_env_updates
              compat) as (env & He & Hk).
  exists env. split; [exact He|]. intros k v Hin.
  pose proof (with_updates_update environ only_pass_env_updates k v Hin)
    as Hu.
  destruct (plugin_path_updates_lookup _ _ Hin) as (_ & -> & Hk1 & Hk2).
  split; [reflexivity|]. rewrite Hk.
  destruct collections_path as [p|]; [|exact Hu].
  apply String.eqb_neq in Hk1, Hk2. rewrite Hk1, Hk2.
  rewrite andb_false_r, andb_false_r. exact Hu.
Qed.

(** X22: the other variables.  A variable that is none of the plugin path
    variables and none of the two names set for the collections path is
    passed on from the caller's environment as it is, and is absent when
    only the updates are passed.  The same holds for
    ANSIBLE_COLLECTIONS_PATH when no collections path is given, an empty
    path counting as none. *)
Theorem _prepare_env_passes_the_rest environ collections_path
    only_pass_env_updates compat env k :
  _prepare_env environ collections_path only_pass_env_updates compat
  = Some env ->
  k ∉ plugin_path_updates.*1 ->
  k <> "_COLLECTIONS_PATH_ENV_VAR_COMPAT" ->
  k <> "ANSIBLE_COLLECTIONS_PATH"
  \/ collections_path = None \/ collections_path = Some "" ->
  env !! k = if only_pass_env_updates then None else environ !! k.
Proof.
  intros He Hk Hk2 Hk1.
  destruct (_prepare_env_view environ collections_path only_pass_env_updates
              compat) as (env' & He' & Hl).
  rewrite He in He'. injection He' as <-. rewrite Hl.
  assert (with_updates environ only_pass_env_updates !! k
          = if only_pass_env_updates then None else environ !! k) as Hu.
  { unfold with_updates. rewrite lookup_union_r.
    - unfold inherited. destruct only_pass_env_updates; [|reflexivity].
      apply lookup_empty.
    - apply not_elem_of_list_to_map_1. exact Hk. }
  destruct collections_path as [p|]; [|exact Hu].
  apply String.eqb_neq in Hk2. rewrite Hk2, andb_false_r, orb_false_r.
  destruct Hk1 as [Hk1|[Hn|Hn]].
  - apply String.eqb_neq in Hk1. rewrite Hk1, andb_false_r. exact Hu.
  - discriminate Hn.
  - injection Hn as ->. exact Hu.
Qed.

(** ** The listing *)

Lemma _yield_collection_listed collection_name collection_version root :
  Forall listed (_yield_collection collection_name collection_version root).
Proof.
  unfold _yield_collection. simpl.
  destruct (split_dot collection_name) as [[a r]|] eqn:H1; [|done].
  destruct (split_dot r) as [[b r']|] eqn:H2; [done|].
  apply Forall_singleton. unfold listed. simpl.
  split; [done|]. split; [by apply split_dot_join in H1|].
  split; [by eapply split_dot_first|]. split; [done|].
  split; [|by exists root].
  destruct collection_version; try done.
  destruct (String.eqb_spec s "*"); simpl; [done|]. by intros [= ->].
Qed.

Section ListingFacts.
Context (environ : gmap string string)
        (json_loads : string -> option yaml)
        (decode : string -> option string)
        (splitlines : string -> list string)
        (split_maxsplit_1 : string -> list string)
        (strip : string -> string).

Lemma compat_lines_listed lines root :
  Forall listed (compat_lines split_maxsplit_1 strip lines root).
Proof.
  revert root. induction lines as [|line lines IH]; intros root; simpl;
    [done|].
  destruct (split_maxsplit_1 line) as [|p0 [|p1 ?]]; [done..|].
  destruct (String.eqb p0 "#"); [done|].
  destruct root as [r|]; [|done].
  apply Forall_app. split; [apply _yield_collection_listed | done].
Qed.

Lemma compat_listed runner env :
  Forall listed
    (_ansible_galaxy_list_collections_compat decode splitlines
       split_maxsplit_1 strip runner env).1.
Proof.
  unfold _ansible_galaxy_list_collections_compat.
  destruct (runner _ env) as [stdout stderr rc|e]; [|done].
  destruct (_ && _); [done|]. destruct (negb _); [done|].
  destruct (decode stdout); [|done]. apply compat_lines_listed.
Qed.

Lemma json_collections_listed collections root :
  Forall listed (json_collections collections root).1.
Proof.
  induction collections as [|[k v] collections IH]; simpl; [done|].
  destruct v as [| | | | | | |d]; try done.
  destruct (json_collections collections root) as [l e]. simpl in *.
  apply Forall_app. split; [apply _yield_collection_listed | done].
Qed.

Lemma json_roots_listed roots : Forall listed (json_roots roots).1.
Proof.
  induction roots as [|[k v] roots IH]; simpl; [done|].
  destruct v as [| | | | | | |colls]; try done.
  pose proof (json_collections_listed colls (Path_ k)) as Hc.
  destruct (json_collections colls (Path_ k)) as [l [e|]]; [done|].
  destruct (json_roots roots) as [l' e']. simpl in *.
  by apply Forall_app.
Qed.

Lemma reraise_fst r : (reraise r).1 = r.1.
Proof. by destruct r as [l [[| |?]|]]. Qed.

Lemma reraise_snd r :
  match (reraise r).2 with Some (OtherException _) => False | _ => True end.
Proof. by destruct r as [l [[| |?]|]]. Qed.

Lemma listing_listed runner collections_path only_pass_env_updates :
  Forall listed
    (ansible_galaxy_list_collections environ json_loads decode splitlines
       split_maxsplit_1 strip runner collections_path
       only_pass_env_updates).1.
Proof.
  unfold ansible_galaxy_list_collections. rewrite reraise_fst.
  destruct (runner _ _) as [stdout stderr rc|e]; [|done].
  destruct (_ && _); [done|]. destruct (_ && _); [apply compat_listed|].
  destruct (_ && _); [done|]. destruct (negb _); [done|].
  destruct (json_loads stdout) as [[| | | | | | |roots]|]; try done.
  apply json_roots_listed.
Qed.

Lemma compat_lines_no_root lines :
  (forall line part1 rest,
     line ∈ lines -> split_maxsplit_1 line <> "#" :: part1 :: rest) ->
  compat_lines split_maxsplit_1 strip lines None = [].
Proof.
  induction lines as [|line lines IH]; intros Hno; simpl; [done|].
  assert (compat_lines split_maxsplit_1 strip lines None = []) as Hrest.
  { apply IH. intros l p1 rest Hin. apply Hno. by right. }
  destruct (split_maxsplit_1 line) as [|p0 [|p1 rest]] eqn:Hs; [done..|].
  destruct (String.eqb_spec p0 "#") as [->|Hne]; [|done].
  destruct (Hno line p1 rest); [by left | done].
Qed.

End ListingFacts.

(** X23: what the listing yields and raises.  Whatever the runner, the
    JSON parser and the string functions do, every collection that
    [ansible_galaxy_list_collections] yields, in the JSON mode or in the
    compat mode, is not ansible-core, has as full name its namespace and its
    name joined by a dot, neither with a dot, lies at root/namespace/name
    and has a version that is not the wildcard; and the only exceptions are
    [ListingCollectionsError] and [Ansible29Error]. *)
Theorem listing_yields_plain_collections environ json_loads decode
    splitlines split_maxsplit_1 strip runner collections_path
    only_pass_env_updates :
  let r :=
    ansible_galaxy_list_collections environ json_loads decode splitlines
      split_maxsplit_1 strip runner collections_path only_pass_env_updates in
  Forall listed r.1
  /\ match r.2 with Some (OtherException _) => False | _ => True end.
Proof.
  split; [apply listing_listed|].
  unfold ansible_galaxy_list_collections. apply reraise_snd.
Qed.

(** X24: the compat listing.  [_ansible_galaxy_list_collections_compat]
    yields nothing when it raises, the checks being made before the first
    line is read; and when no line of the output starts with the word [#],
    which gives the root of the collections after it, nothing is yielded at
    all. *)
Theorem compat_listing_needs_a_root decode splitlines split_maxsplit_1 strip
    runner env :
  let r :=
    _ansible_galaxy_list_collections_compat decode splitlines
      split_maxsplit_1 strip runner env in
  (is_Some r.2 -> r.1 = [])
  /\ forall stdout stderr text,
       runner ["ansible-galaxy"; "collection"; "list"] env
       = Ran stdout stderr 0 ->
       decode stdout = Some text ->
       (forall line part1 rest,
          line ∈ splitlines text ->
          split_maxsplit_1 line <> "#" :: part1 :: rest) ->
       r = ([], None).
Proof.
  unfold _ansible_galaxy_list_collections_compat. split.
  - destruct (runner _ env) as [stdout stderr rc|e]; [|done].
    destruct (_ && _); [done|]. destruct (negb _); [done|].
    destruct (decode stdout); [|done]. simpl. by intros [? ?].
  - intros stdout stderr text -> Hd Hno. simpl. rewrite Hd.
    by rewrite compat_lines_no_root.
Qed.

(** ** The model on the unit tests of [data.py] and [ansible.py] *)

Example test_CollectionInfos_build :
  data.build [] = Parsed (data.mkCollectionInfos None [])
  /\ data.build [core_1; core_2] = ValueError
  /\ data.build [fake_core] = ValueError
  /\ data.build [core_1_not_real; core_2]
     = Parsed (data.mkCollectionInfos (Some core_2)
                 [ ("ansible.builtin", core_2) ])
  /\ data.build [core_1; core_2_not_real]
     = Parsed (data.mkCollectionInfos (Some core_1)
                 [ ("ansible.builtin", core_1) ])
  /\ data.build [coll_1; coll_2]
     = Parsed (data.mkCollectionInfos None [ ("foo.bar", coll_1) ])
  /\ data.build [coll_2; coll_1]
     = Parsed (data.mkCollectionInfos None [ ("foo.bar", coll_2) ]).
Proof. repeat split; reflexivity. Qed.

Example test_get_plugin_directory :
  let core :=
    data.mkCollectionInfo (Path_ "/core") "ansible" "builtin"
      "ansible.builtin" None true in
  let coll :=
    data.mkCollectionInfo (Path_ "/coll") "foo" "bar" "foo.bar" None false in
  get_plugin_directory core "module" = Parsed (Path_ "/core" // "modules")
  /\ get_plugin_directory core "lookup"
     = Parsed (Path_ "/core" // "plugins" // "lookup")
  /\ get_plugin_directory core "doc_fragments"
     = Parsed (Path_ "/core" // "plugins" // "doc_fragments")
  /\ get_plugin_directory coll "module"
     = Parsed (Path_ "/coll" // "plugins" // "modules")
  /\ get_plugin_directory coll "lookup"
     = Parsed (Path_ "/coll" // "plugins" // "lookup")
  /\ get_plugin_directory coll "eda_event_source"
     = Parsed (Path_ "/coll" // "extensions/eda/plugins/event_source")
  /\ get_plugin_directory coll "not-a-valid-type" = ValueError
  /\ get_plugin_directory core "eda_event_source" = ValueError.
Proof. repeat split; reflexivity. Qed.

(** ** The statements on examples *)

Lemma build_core_entry_witness :
  dict_get (data.collections mixed_built) "ansible.builtin"
  = data.ansible_core mixed_built /\
  dict_get (data.collections mixed_built) "ansible.legacy" = None /\
  List.filter data.is_ansible_core mixed_infos
  = option_list (data.ansible_core mixed_built) /\
  (forall c, data.ansible_core mixed_built = Some c ->
             data.full_name c = "ansible.builtin").
Proof.
  apply (build_core_entry mixed_infos mixed_built). reflexivity.
Defined.


Lemma build_keys_are_full_names_witness :
  NoDup (dict_keys (data.collections mixed_built)) /\
  Forall (fun kc => data.full_name kc.2 = kc.1 /\ kc.2 ∈ mixed_infos)
         (data.collections mixed_built).
Proof.
  apply (build_keys_are_full_names mixed_infos mixed_built). reflexivity.
Defined.

Lemma collected_catalog_follows_collections_witness :
  (forall rd,
     collect_routing_information foo_bar_files foo_bar_infos None = Loaded rd ->
     Forall2 (fun kc e =>
                e.1 = kc.1
                /\ load_routing_information foo_bar_files kc.2 = Loaded e.2)
             (data.collections foo_bar_infos) rd)
  /\
  (forall e,
     collect_routing_information foo_bar_files foo_bar_infos None = Failed e ->
     exists k ci, dict_get (data.collections foo_bar_infos) k = Some ci
                  /\ load_routing_information foo_bar_files ci = Failed e).
Proof.
  apply (collected_catalog_follows_collections foo_bar_files [foo_bar]
           foo_bar_infos).
  reflexivity.
Defined.

Lemma handler_decides_for_broken_witness :
  match dict_get (data.collections foo_bar_infos) "foo.bar" with
  | None => dict_get ([] : catalog) "foo.bar" = None
  | Some ci =>
      match load_routing_information broken_files ci with
      | Loaded cr => dict_get ([] : catalog) "foo.bar" = Some cr
      | Failed e =>
          (fun _ _ => Loaded None) ci e
          = Loaded (dict_get ([] : catalog) "foo.bar")
      end
  end.
Proof.
  apply (handler_decides_for_broken broken_files [foo_bar] foo_bar_infos
           (fun _ _ => Loaded None) [] "foo.bar"); reflexivity.
Defined.

Lemma chain_to_plain_plugin_witness :
  exists pd' rd',
    _complete_redirect routing_info "foo.bar" module "chain_1"
      (redirecting "foo.bar.chain_2" (Some (removal "foo 1")))
    = Returned pd' rd' /\
    on_path module rd' pd'
      [ passed "foo.bar" "chain_2" (redirecting "foo.bar.chain_3" None);
        passed "foo.bar" "chain_3"
          (redirecting "foo.bar.chain_4" (Some (removal "foo 3"))) ]
      (fun i p' =>
         redirect p' = RStr "foo.bar.chain_4" /\
         redirect_chain p'
         = Some (drop i
                   (dotted "foo.bar" "chain_1"
                    :: map e_fqcn
                         [ passed "foo.bar" "chain_2"
                             (redirecting "foo.bar.chain_3" None);
                           passed "foo.bar" "chain_3"
                             (redirecting "foo.bar.chain_4"
                                (Some (removal "foo 3"))) ])
                 ++ ["foo.bar.chain_4"]) /\
         redirect_deprecations p'
         = or_None
             (own_deprecations
                (drop i
                   (start_elt "foo.bar" "chain_1"
                      (redirecting "foo.bar.chain_2"
                         (Some (removal "foo 1")))
                    :: [ passed "foo.bar" "chain_2"
                           (redirecting "foo.bar.chain_3" None);
                         passed "foo.bar" "chain_3"
                           (redirecting "foo.bar.chain_4"
                              (Some (removal "foo 3"))) ]))
              ++ own_deprecations
                   [ mkElt "foo.bar.chain_4" (dotted "foo" "bar") "chain_4"
                       (lookup_plugin routing_info (dotted "foo" "bar")
                          module "chain_4") None ]) /\
         redirect_tombstone p' = false /\
         redirect_dead_end p' = false /\
         redirect_error p' = None).
Proof.
  apply (chain_to_plain_plugin routing_info module "foo.bar" "chain_1"
           (redirecting "foo.bar.chain_2" (Some (removal "foo 1")))
           "foo.bar.chain_2" 2
           [ passed "foo.bar" "chain_2" (redirecting "foo.bar.chain_3" None);
             passed "foo.bar" "chain_3"
               (redirecting "foo.bar.chain_4" (Some (removal "foo 3"))) ]
           "foo.bar.chain_4" "foo" "bar" "chain_4");
    [reflexivity | reflexivity | vm_compute; reflexivity | nodup
    | reflexivity | vm_compute; by eexists | vm_compute; by split].
Defined.

Lemma chain_to_resolved_plugin_witness :
  exists pd' rd',
    _complete_redirect routing_info "foo.bar" lookup_ "loop_1"
      (redirecting "foo.bar.loop_2" None) = Returned pd' rd' /\
    on_path lookup_ rd' pd'
      [ passed "foo.bar" "loop_2" (redirecting "foo.bar.loop_3" None) ]
      (fun i p' =>
         redirect p' = (if bool_decide (redirect marked_loop_3 = REllipsis)
                        then REllipsis else RStr "foo.bar.loop_3") /\
         redirect_chain p'
         = Some (drop i
                   (dotted "foo.bar" "loop_1"
                    :: map e_fqcn
                         [ passed "foo.bar" "loop_2"
                             (redirecting "foo.bar.loop_3" None) ])
                 ++ or_empty (redirect_chain marked_loop_3)) /\
         redirect_deprecations p'
         = prefix_deps
             (drop i
                (start_elt "foo.bar" "loop_1"
                   (redirecting "foo.bar.loop_2" None)
                 :: [ passed "foo.bar" "loop_2"
                        (redirecting "foo.bar.loop_3" None) ]))
             (redirect_deprecations marked_loop_3) /\
         redirect_tombstone p' = redirect_tombstone marked_loop_3 /\
         redirect_dead_end p' = redirect_dead_end marked_loop_3 /\
         redirect_error p' = redirect_error marked_loop_3).
Proof.
  apply (chain_to_resolved_plugin routing_info lookup_ "foo.bar" "loop_1"
           (redirecting "foo.bar.loop_2" None) "foo.bar.loop_2" 1
           [ passed "foo.bar" "loop_2" (redirecting "foo.bar.loop_3" None) ]
           "foo.bar.loop_3" "foo" "bar" "loop_3" marked_loop_3);
    [reflexivity | reflexivity | vm_compute; reflexivity | nodup
    | reflexivity | vm_compute; reflexivity | reflexivity | discriminate
    | left; discriminate].
Defined.

Lemma resolution_keeps_own_data_witness :
  exists p',
    lookup_plugin resolved_routing_info "foo.bar" module "chain_1" = Some p' /\
    action_plugin p'
    = action_plugin (redirecting "foo.bar.chain_2" (Some (removal "foo 1")))
    /\
    deprecation p'
    = deprecation (redirecting "foo.bar.chain_2" (Some (removal "foo 1")))
    /\
    tombstone p'
    = tombstone (redirecting "foo.bar.chain_2" (Some (removal "foo 1")))
    /\
    (redirect p' = RNone \/ redirect p' = REllipsis
     \/ redirect_chain p' <> None).
Proof.
  apply (resolution_keeps_own_data routing_info resolved_routing_info
           "foo.bar" module "chain_1");
    vm_compute; reflexivity.
Defined.

Lemma resolver_leaves_settled_records_witness :
  match complete_redirects routing_info with
  | Returned _ rd' | Raised _ rd' =>
      lookup_plugin rd' "foo.bar" lookup_ "loop_3" = Some marked_loop_3
  | OutOfFuel => False
  end.
Proof.
  apply (resolver_leaves_settled_records routing_info "foo.bar" lookup_
           "loop_3" marked_loop_3);
    [vm_compute; reflexivity | split; reflexivity].
Defined.

Lemma _prepare_env_passes_the_rest_witness :
  with_updates home_env false !! "HOME"
  = if false then None else home_env !! "HOME".
Proof.
  apply (_prepare_env_passes_the_rest home_env None false false
           (with_updates home_env false) "HOME").
  - unfold _prepare_env. rewrite orb_true_r. reflexivity.
  - refine (bool_decide_unpack _ _). vm_compute. exact I.
  - discriminate.
  - left. discriminate.
Defined.

(** ** The model on the unit tests of [ansible_cli.py] *)

Example test_ansible_galaxy_list_collections :
  let list_collections stdout stderr rc json :=
    ansible_galaxy_list_collections ∅ (fun _ => json) Some (fun _ => [])
      (fun _ => []) (fun s => s) (fun _ _ => Ran stdout stderr rc)
      (Some "foo-bar") false in
  list_collections ""
    "BlablaNone of the provided paths were usable.Blabla" 5%Z None
  = ([], None)
  /\ list_collections "{}" "" 0%Z (Some (YMap [])) = ([], None)
  /\ list_collections "..." "" 0%Z (Some listing_json)
     = (listing_expected, None)
  /\ list_collections ""
       "BlablaNone of the provided paths were usable.Blabla" 2%Z None
     = ([], Some ListingCollectionsError)
  /\ list_collections "{}" "" 5%Z (Some (YMap []))
     = ([], Some ListingCollectionsError)
  /\ list_collections "..." "" 0%Z None = ([], Some ListingCollectionsError)
  /\ list_collections ""
       "ABCerror: argument COLLECTION_ACTION: invalid choice: 'list'XYZ"
       2%Z None
     = ([], Some Ansible29Error).
Proof. vm_compute. repeat split. Qed.

Example test_ansible_galaxy_list_collections_compat :
  let runner lines (args : list string) (env : option (gmap string string)) :=
    if bool_decide (args = ["ansible-galaxy"; "collection"; "list"])
    then Ran lines "" 0%Z
    else Ran "" "XYZerror: unrecognized arguments: --formatABC" 2%Z in
  let list_collections lines :=
    ansible_galaxy_list_collections ∅ (fun _ => None) Some
      (fun text => if String.eqb text "with root" then compat_output
                   else "{" :: drop 2 compat_output)
      split_spaces_once strip_spaces (runner lines) None true in
  list_collections "with root" = (listing_expected, None)
  /\ list_collections "without root" = ([], None).
Proof. vm_compute. repeat split. Qed.

Example test_load_routing_information_core_fail :
  Forall (fun document =>
            _load_routing_information document "ansible.builtin"
              _get_real_plugin_type_name = ValueError)
         core_fail_documents.
Proof. repeat constructor. Qed.
